(** * holographic_kernel.c: vector codec, pattern store, entity arena and the
      evolution cycle, as a shallow embedding.

    The C globals [holo_system], [entity_pool] and [active_entity_count]
    become one record that every operation takes and returns.  Unsigned
    32-bit fields are [Z] with the wrap-around written out, arrays are lists
    read with [!!!] and written with [<[i:=x]>], and a [float] is its 32-bit
    IEEE-754 pattern (the source itself reinterprets floats as integers in
    [sqrtf]).  The VGA text screen is a list of bytes with the cursor of
    [print_char] beside it; output to the serial line is not modelled, nor
    are the progress messages the memory and entity routines print on their
    way. *)

From Stdlib Require Import ZArith List String Ascii Bool Lia.
From Stdlib Require Import Floats.SpecFloat.
From stdpp Require Import base tactics option list.

Local Open Scope Z_scope.

(** ** Configuration constants *)

Definition HOLOGRAPHIC_DIMENSIONS : nat := 512.
Definition MAX_MEMORY_ENTRIES : nat := 128.
Definition MAX_ENTITIES : nat := 32.
Definition INITIAL_ENTITIES : nat := 3.
Definition MAX_ENTITY_DOMAINS : nat := 8.

(** [uint32_t] and [uint16_t] arithmetic wraps: the low 32 or 16 bits. *)
Definition u32 (z : Z) : Z := Z.land z 0xffffffff.
Definition u16 (z : Z) : Z := Z.land z 0xffff.

(** ** Single-precision floats

    A [float] is the 32-bit pattern it occupies.  Arithmetic decodes the
    operands, computes with the IEEE-754 round-to-nearest-even operations of
    [SpecFloat] at precision 24 and re-encodes the result; every operation
    rounds to single precision. *)
Module F32.

Definition float := Z.

Definition prec : Z := 24.
Definition emax : Z := 128.

Definition sign_bit (s : bool) : Z := if s then 0x80000000 else 0.

Definition decode (b : float) : spec_float :=
  let s := Z.testbit b 31 in
  let e := Z.land (Z.shiftr b 23) 0xff in
  let m := Z.land b 0x7fffff in
  if e =? 0 then
    match m with
    | Zpos p => S754_finite s p (-149)
    | _ => S754_zero s
    end
  else if e =? 255 then
    (if m =? 0 then S754_infinity s else S754_nan)
  else
    match m + 0x800000 with
    | Zpos p => S754_finite s p (e - 150)
    | _ => S754_nan
    end.

Definition encode (f : spec_float) : float :=
  match f with
  | S754_zero s => sign_bit s
  | S754_infinity s => sign_bit s + 0x7f800000
  | S754_nan => 0x7fc00000
  | S754_finite s m e =>
      if Zpos m <? 0x800000 then sign_bit s + Zpos m
      else sign_bit s + (e + 150) * 0x800000 + (Zpos m - 0x800000)
  end.

Definition add (a b : float) : float := encode (SFadd prec emax (decode a) (decode b)).
Definition sub (a b : float) : float := encode (SFsub prec emax (decode a) (decode b)).
Definition mul (a b : float) : float := encode (SFmul prec emax (decode a) (decode b)).
Definition div (a b : float) : float := encode (SFdiv prec emax (decode a) (decode b)).

(** Unary minus flips the sign bit and nothing else. *)
Definition neg (a : float) : float := Z.lxor a 0x80000000.

(** [a > b] and [a <= b]; both are false when an operand is a NaN. *)
Definition gt (a b : float) : bool := SFltb (decode b) (decode a).
Definition le (a b : float) : bool := SFleb (decode a) (decode b).

(** [(float)u] for an unsigned 32-bit [u]. *)
Definition of_u32 (u : Z) : float := encode (binary_normalize prec emax u 0 false).

(** [x != 0.0f]: everything but the two zeros. *)
Definition nonzero (a : float) : bool :=
  match decode a with
  | S754_zero _ => false
  | _ => true
  end.

Definition zero : float := 0.
Definition one : float := 0x3f800000.
Definition half : float := 0x3f000000.
Definition one_and_half : float := 0x3fc00000.
Definition tenth : float := 0x3dcccccd.
Definition seven_tenths : float := 0x3f333333.
Definition thousand : float := 0x447a0000.

(** [*(int* )&x]: the pattern read as a signed 32-bit integer. *)
Definition to_int (a : float) : Z := if a <? 0x80000000 then a else a - 2 ^ 32.
Definition of_int (i : Z) : float := Z.land i 0xffffffff.

End F32.

(** ** Strings and bytes *)

(** The bytes of a C string literal with its terminating NUL, as passed with
    [strlen(s) + 1]. *)
Definition cstring (s : string) : list Z :=
  map (fun c => Z.of_N (N_of_ascii c)) (list_ascii_of_string s) ++ [0].

(** [strncpy(dest, src, 31); dest[31] = 0] on NUL-free string contents: at
    most the first 31 characters are kept. *)
Definition strncpy31 (src : string) : string := String.substring 0 31 src.

(** ** VectorCodec *)

Record HolographicVector := {
  data : list F32.float;
  hash_signature : Z;
  active_dimensions : Z;
  valid : Z
}.

(** [HolographicVector vector = {0}] *)
Definition zero_vector : HolographicVector :=
  {| data := replicate HOLOGRAPHIC_DIMENSIONS F32.zero;
     hash_signature := 0; active_dimensions := 0; valid := 0 |}.

(** FNV-1a over the input bytes. *)
Definition hash_step (hash : Z) (byte : Z) : Z :=
  u32 (Z.lxor hash byte * 16777619).

Definition hash_data (input : list Z) : Z :=
  fold_left hash_step input 2166136261.

(** [seed = (seed * 1103515245 + 12345) & 0x7fffffff] on a [uint32_t]. *)
Definition lcg_next (seed : Z) : Z :=
  Z.land (u32 (seed * 1103515245 + 12345)) 0x7fffffff.

(** [((float)((seed % 2000) - 1000)) / 1000.0f]: the subtraction is unsigned,
    so it wraps below 1000. *)
Definition component_of_seed (seed : Z) : F32.float :=
  F32.div (F32.of_u32 (u32 (seed mod 2000 - 1000))) F32.thousand.

(** One iteration of the fill loop at dimension [i]. *)
Definition fill_dimension (i : nat) (seed : Z) (v : HolographicVector)
  : HolographicVector :=
  if seed mod 10 =? 0 then
    {| data := <[i := component_of_seed seed]> (data v);
       hash_signature := hash_signature v;
       active_dimensions := u16 (active_dimensions v + 1);
       valid := valid v |}
  else
    {| data := <[i := F32.zero]> (data v);
       hash_signature := hash_signature v;
       active_dimensions := active_dimensions v;
       valid := valid v |}.

(** [for (i = ...; i < HOLOGRAPHIC_DIMENSIONS; i++)] with [n] iterations left. *)
Fixpoint fill_loop (n : nat) (i : nat) (seed : Z) (v : HolographicVector)
  : HolographicVector :=
  match n with
  | O => v
  | S n' =>
      let seed' := lcg_next seed in
      fill_loop n' (S i) seed' (fill_dimension i seed' v)
  end.

Definition create_holographic_vector (input : list Z) : HolographicVector :=
  let h := hash_data input in
  let vector :=
    {| data := data zero_vector; hash_signature := h;
       active_dimensions := 0; valid := 1 |} in
  fill_loop HOLOGRAPHIC_DIMENSIONS 0 h vector.

(** The seeds the fill loop sees, in dimension order. *)
Fixpoint lcg_seeds (n : nat) (seed : Z) : list Z :=
  match n with
  | O => []
  | S n' => let seed' := lcg_next seed in seed' :: lcg_seeds n' seed'
  end.

(** Number of components [x] with [x != 0.0f]. *)
Definition count_nonzero (d : list F32.float) : nat :=
  length (List.filter F32.nonzero d).


(** ** PatternStore *)

Record MemoryEntry := {
  input_pattern : HolographicVector;
  output_pattern : HolographicVector;
  timestamp : Z;
  entry_valid : Z
}.

(** [memory_count] indexes [memory_pool] and stays at or below
    [MAX_MEMORY_ENTRIES], so it is a [nat]; [global_timestamp] is a free
    running [uint32_t]. *)
Record HolographicSystem := {
  memory_pool : list MemoryEntry;
  memory_count : nat;
  global_timestamp : Z
}.

Definition zero_entry : MemoryEntry :=
  {| input_pattern := zero_vector; output_pattern := zero_vector;
     timestamp := 0; entry_valid := 0 |}.

#[global] Instance HolographicVector_inhabited : Inhabited HolographicVector :=
  populate zero_vector.
#[global] Instance MemoryEntry_inhabited : Inhabited MemoryEntry :=
  populate zero_entry.

(** [memory_pool[i] = memory_pool[i + 1]] *)
Definition shift_slot (pool : list MemoryEntry) (i : nat) : list MemoryEntry :=
  <[i := pool !!! S i]> pool.

(** The eviction branch: every record moves one slot toward index 0. *)
Definition evict_oldest (hs : HolographicSystem) : HolographicSystem :=
  {| memory_pool :=
       fold_left shift_slot (seq 0 (MAX_MEMORY_ENTRIES - 1)) (memory_pool hs);
     memory_count := (MAX_MEMORY_ENTRIES - 1)%nat;
     global_timestamp := global_timestamp hs |}.

Definition encode_holographic_memory (input output : HolographicVector)
    (hs : HolographicSystem) : HolographicSystem :=
  let hs := if (MAX_MEMORY_ENTRIES <=? memory_count hs)%nat
            then evict_oldest hs else hs in
  let entry :=
    {| input_pattern := input; output_pattern := output;
       timestamp := global_timestamp hs; entry_valid := 1 |} in
  {| memory_pool := <[memory_count hs := entry]> (memory_pool hs);
     memory_count := S (memory_count hs);
     global_timestamp := u32 (global_timestamp hs + 1) |}.

(** [for (i = memory_count - 1; i >= 0; i--)]: [n] is [i + 1].  The result is
    the slot whose [output_pattern] the returned pointer addresses. *)
Fixpoint retrieve_loop (pool : list MemoryEntry) (hash : Z) (n : nat)
  : option nat :=
  match n with
  | O => None
  | S i =>
      if negb (entry_valid (pool !!! i) =? 0)
         && (hash_signature (input_pattern (pool !!! i)) =? hash)
      then Some i
      else retrieve_loop pool hash i
  end.

Definition retrieve_holographic_memory (hash : Z) (hs : HolographicSystem)
  : option nat :=
  retrieve_loop (memory_pool hs) hash (memory_count hs).

(** What the caller reads through the returned pointer. *)
Definition retrieved_vector (hash : Z) (hs : HolographicSystem)
  : option HolographicVector :=
  (fun i => output_pattern (memory_pool hs !!! i))
    <$> retrieve_holographic_memory hash hs.

Definition initialize_holographic_memory (hs : HolographicSystem)
  : HolographicSystem :=
  {| memory_pool :=
       map (fun e => {| input_pattern := input_pattern e;
                        output_pattern := output_pattern e;
                        timestamp := timestamp e; entry_valid := 0 |})
           (memory_pool hs);
     memory_count := 0;
     global_timestamp := 0 |}.

Definition vocab : list string :=
  ["ACTION_PRODUCE"; "ACTION_CONSUME"; "ACTION_SHARE";
   "ACTION_ACTIVATE"; "ACTION_DEACTIVATE";
   "TRAIT_GENERIC"; "TRAIT_ACTIVE"; "TRAIT_DORMANT";
   "SENSOR_NEIGHBOR_ACTIVE"; "SENSOR_MEMORY_MATCH";
   "GENOME_SIMPLE_RULE_1"]%string.

Definition load_initial_genome_vocabulary (hs : HolographicSystem)
  : HolographicSystem :=
  fold_left
    (fun hs w =>
       let pattern := create_holographic_vector (cstring w) in
       encode_holographic_memory pattern pattern hs)
    vocab hs.

(** ** EntityModel *)

(** Where an entity's [genome] pointer points. *)
Inductive GenomeRef :=
| GenomeNull                (* a zeroed slot *)
| GenomeSlot (slot : nat)   (* [&holo_system.memory_pool[slot].output_pattern] *)
| GenomeLocal.              (* [&simple_genome_rule], a local of the initialiser *)

Record Entity := {
  id : Z;
  state : HolographicVector;
  genome : GenomeRef;
  age : Z;
  interaction_count : Z;
  is_active : Z;
  specialization_scores : list F32.float;
  resource_allocation : F32.float;
  confidence : F32.float;
  domain_name : string;
  task_vector : HolographicVector;
  path_id : Z;
  task_alignment : F32.float;
  fitness_score : Z;
  spawn_count : Z;
  marked_for_gc : Z;
  is_mutant : Z
}.

Definition zero_entity : Entity :=
  {| id := 0; state := zero_vector; genome := GenomeNull; age := 0;
     interaction_count := 0; is_active := 0;
     specialization_scores := replicate MAX_ENTITY_DOMAINS F32.zero;
     resource_allocation := F32.zero; confidence := F32.zero;
     domain_name := EmptyString; task_vector := zero_vector; path_id := 0;
     task_alignment := F32.zero; fitness_score := 0; spawn_count := 0;
     marked_for_gc := 0; is_mutant := 0 |}.

#[global] Instance Entity_inhabited : Inhabited Entity := populate zero_entity.

(** Single-field assignments [e->field = v]. *)
Definition set_state (v : HolographicVector) (e : Entity) : Entity :=
  {| id := id e; state := v; genome := genome e; age := age e;
     interaction_count := interaction_count e; is_active := is_active e;
     specialization_scores := specialization_scores e;
     resource_allocation := resource_allocation e; confidence := confidence e;
     domain_name := domain_name e; task_vector := task_vector e;
     path_id := path_id e; task_alignment := task_alignment e;
     fitness_score := fitness_score e; spawn_count := spawn_count e;
     marked_for_gc := marked_for_gc e; is_mutant := is_mutant e |}.

Definition set_genome (v : GenomeRef) (e : Entity) : Entity :=
  {| id := id e; state := state e; genome := v; age := age e;
     interaction_count := interaction_count e; is_active := is_active e;
     specialization_scores := specialization_scores e;
     resource_allocation := resource_allocation e; confidence := confidence e;
     domain_name := domain_name e; task_vector := task_vector e;
     path_id := path_id e; task_alignment := task_alignment e;
     fitness_score := fitness_score e; spawn_count := spawn_count e;
     marked_for_gc := marked_for_gc e; is_mutant := is_mutant e |}.

Definition set_age (v : Z) (e : Entity) : Entity :=
  {| id := id e; state := state e; genome := genome e; age := v;
     interaction_count := interaction_count e; is_active := is_active e;
     specialization_scores := specialization_scores e;
     resource_allocation := resource_allocation e; confidence := confidence e;
     domain_name := domain_name e; task_vector := task_vector e;
     path_id := path_id e; task_alignment := task_alignment e;
     fitness_score := fitness_score e; spawn_count := spawn_count e;
     marked_for_gc := marked_for_gc e; is_mutant := is_mutant e |}.

Definition set_interaction_count (v : Z) (e : Entity) : Entity :=
  {| id := id e; state := state e; genome := genome e; age := age e;
     interaction_count := v; is_active := is_active e;
     specialization_scores := specialization_scores e;
     resource_allocation := resource_allocation e; confidence := confidence e;
     domain_name := domain_name e; task_vector := task_vector e;
     path_id := path_id e; task_alignment := task_alignment e;
     fitness_score := fitness_score e; spawn_count := spawn_count e;
     marked_for_gc := marked_for_gc e; is_mutant := is_mutant e |}.

Definition set_is_active (v : Z) (e : Entity) : Entity :=
  {| id := id e; state := state e; genome := genome e; age := age e;
     interaction_count := interaction_count e; is_active := v;
     specialization_scores := specialization_scores e;
     resource_allocation := resource_allocation e; confidence := confidence e;
     domain_name := domain_name e; task_vector := task_vector e;
     path_id := path_id e; task_alignment := task_alignment e;
     fitness_score := fitness_score e; spawn_count := spawn_count e;
     marked_for_gc := marked_for_gc e; is_mutant := is_mutant e |}.

Definition set_domain_name (v : string) (e : Entity) : Entity :=
  {| id := id e; state := state e; genome := genome e; age := age e;
     interaction_count := interaction_count e; is_active := is_active e;
     specialization_scores := specialization_scores e;
     resource_allocation := resource_allocation e; confidence := confidence e;
     domain_name := v; task_vector := task_vector e;
     path_id := path_id e; task_alignment := task_alignment e;
     fitness_score := fitness_score e; spawn_count := spawn_count e;
     marked_for_gc := marked_for_gc e; is_mutant := is_mutant e |}.

Definition set_task_vector (v : HolographicVector) (e : Entity) : Entity :=
  {| id := id e; state := state e; genome := genome e; age := age e;
     interaction_count := interaction_count e; is_active := is_active e;
     specialization_scores := specialization_scores e;
     resource_allocation := resource_allocation e; confidence := confidence e;
     domain_name := domain_name e; task_vector := v;
     path_id := path_id e; task_alignment := task_alignment e;
     fitness_score := fitness_score e; spawn_count := spawn_count e;
     marked_for_gc := marked_for_gc e; is_mutant := is_mutant e |}.

Definition set_path_id (v : Z) (e : Entity) : Entity :=
  {| id := id e; state := state e; genome := genome e; age := age e;
     interaction_count := interaction_count e; is_active := is_active e;
     specialization_scores := specialization_scores e;
     resource_allocation := resource_allocation e; confidence := confidence e;
     domain_name := domain_name e; task_vector := task_vector e;
     path_id := v; task_alignment := task_alignment e;
     fitness_score := fitness_score e; spawn_count := spawn_count e;
     marked_for_gc := marked_for_gc e; is_mutant := is_mutant e |}.

Definition set_task_alignment (v : F32.float) (e : Entity) : Entity :=
  {| id := id e; state := state e; genome := genome e; age := age e;
     interaction_count := interaction_count e; is_active := is_active e;
     specialization_scores := specialization_scores e;
     resource_allocation := resource_allocation e; confidence := confidence e;
     domain_name := domain_name e; task_vector := task_vector e;
     path_id := path_id e; task_alignment := v;
     fitness_score := fitness_score e; spawn_count := spawn_count e;
     marked_for_gc := marked_for_gc e; is_mutant := is_mutant e |}.

Definition set_fitness_score (v : Z) (e : Entity) : Entity :=
  {| id := id e; state := state e; genome := genome e; age := age e;
     interaction_count := interaction_count e; is_active := is_active e;
     specialization_scores := specialization_scores e;
     resource_allocation := resource_allocation e; confidence := confidence e;
     domain_name := domain_name e; task_vector := task_vector e;
     path_id := path_id e; task_alignment := task_alignment e;
     fitness_score := v; spawn_count := spawn_count e;
     marked_for_gc := marked_for_gc e; is_mutant := is_mutant e |}.

Definition set_spawn_count (v : Z) (e : Entity) : Entity :=
  {| id := id e; state := state e; genome := genome e; age := age e;
     interaction_count := interaction_count e; is_active := is_active e;
     specialization_scores := specialization_scores e;
     resource_allocation := resource_allocation e; confidence := confidence e;
     domain_name := domain_name e; task_vector := task_vector e;
     path_id := path_id e; task_alignment := task_alignment e;
     fitness_score := fitness_score e; spawn_count := v;
     marked_for_gc := marked_for_gc e; is_mutant := is_mutant e |}.

Definition set_marked_for_gc (v : Z) (e : Entity) : Entity :=
  {| id := id e; state := state e; genome := genome e; age := age e;
     interaction_count := interaction_count e; is_active := is_active e;
     specialization_scores := specialization_scores e;
     resource_allocation := resource_allocation e; confidence := confidence e;
     domain_name := domain_name e; task_vector := task_vector e;
     path_id := path_id e; task_alignment := task_alignment e;
     fitness_score := fitness_score e; spawn_count := spawn_count e;
     marked_for_gc := v; is_mutant := is_mutant e |}.

Definition set_is_mutant (v : Z) (e : Entity) : Entity :=
  {| id := id e; state := state e; genome := genome e; age := age e;
     interaction_count := interaction_count e; is_active := is_active e;
     specialization_scores := specialization_scores e;
     resource_allocation := resource_allocation e; confidence := confidence e;
     domain_name := domain_name e; task_vector := task_vector e;
     path_id := path_id e; task_alignment := task_alignment e;
     fitness_score := fitness_score e; spawn_count := spawn_count e;
     marked_for_gc := marked_for_gc e; is_mutant := v |}.

(** The globals of the kernel.  [active_entity_count] indexes [entity_pool]
    and stays at or below [MAX_ENTITIES], so it is a [nat]. *)
Record Kernel := {
  holo_system : HolographicSystem;
  entity_pool : list Entity;
  active_entity_count : nat
}.

(** The zero-initialised globals the program starts from. *)
Definition boot : Kernel :=
  {| holo_system :=
       {| memory_pool := replicate MAX_MEMORY_ENTRIES zero_entry;
          memory_count := 0; global_timestamp := 0 |};
     entity_pool := replicate MAX_ENTITIES zero_entity;
     active_entity_count := 0 |}.

Definition set_holo_system (hs : HolographicSystem) (K : Kernel) : Kernel :=
  {| holo_system := hs; entity_pool := entity_pool K;
     active_entity_count := active_entity_count K |}.

(** [entity_pool[i]] updated in place by [f]. *)
Definition update_entity (i : nat) (f : Entity -> Entity) (K : Kernel) : Kernel :=
  {| holo_system := holo_system K;
     entity_pool := alter f i (entity_pool K);
     active_entity_count := active_entity_count K |}.

(** The canonical genome lookup shared by the initialiser and [spawn_entity]:
    on a miss the rule is stored and the pointer is to the caller's local. *)
Definition find_genome (hs : HolographicSystem) : HolographicSystem * GenomeRef :=
  let simple_genome_rule := create_holographic_vector (cstring "GENOME_SIMPLE_RULE_1") in
  match retrieve_holographic_memory (hash_signature simple_genome_rule) hs with
  | Some slot => (hs, GenomeSlot slot)
  | None =>
      (encode_holographic_memory simple_genome_rule simple_genome_rule hs,
       GenomeLocal)
  end.

(** The fields [initialize_emergent_entities] writes into a slot; the task
    vector and the path id keep what the slot held. *)
Definition init_slot (n : nat) (trait_dormant : HolographicVector)
    (genome_ptr : GenomeRef) (slot : Entity) : Entity :=
  {| id := Z.of_nat n; state := trait_dormant; genome := genome_ptr;
     age := 0; interaction_count := 0; is_active := 1;
     specialization_scores := replicate MAX_ENTITY_DOMAINS F32.tenth;
     resource_allocation := F32.one; confidence := F32.half;
     domain_name := strncpy31 "generic"; task_vector := task_vector slot;
     path_id := path_id slot; task_alignment := F32.zero;
     fitness_score := 0; spawn_count := 0; marked_for_gc := 0;
     is_mutant := 0 |}.

Fixpoint init_loop (n : nat) (trait_dormant : HolographicVector)
    (genome_ptr : GenomeRef) (K : Kernel) : Kernel :=
  match n with
  | O => K
  | S n' =>
      if (MAX_ENTITIES <=? active_entity_count K)%nat then K
      else
        let c := active_entity_count K in
        init_loop n' trait_dormant genome_ptr
          {| holo_system := holo_system K;
             entity_pool :=
               alter (init_slot c trait_dormant genome_ptr) c (entity_pool K);
             active_entity_count := S c |}
  end.

Definition initialize_emergent_entities (K : Kernel) : Kernel :=
  let '(hs, genome_ptr) := find_genome (holo_system K) in
  let trait_dormant := create_holographic_vector (cstring "TRAIT_DORMANT") in
  init_loop INITIAL_ENTITIES trait_dormant genome_ptr (set_holo_system hs K).

(** The fields [spawn_entity] writes into the slot at [active_entity_count];
    the task vector and the path id keep what the slot held. *)
Definition spawn_slot (n : nat) (genome_ptr : GenomeRef) (slot : Entity) : Entity :=
  {| id := Z.of_nat n;
     state := create_holographic_vector (cstring "TRAIT_DORMANT");
     genome := genome_ptr;
     age := 0; interaction_count := 0; is_active := 1;
     specialization_scores := replicate MAX_ENTITY_DOMAINS F32.tenth;
     resource_allocation := F32.one; confidence := F32.half;
     domain_name := strncpy31 "emergent"; task_vector := task_vector slot;
     path_id := path_id slot; task_alignment := F32.zero;
     fitness_score := 0; spawn_count := 0; marked_for_gc := 0;
     is_mutant := 0 |}.

(** The result is the new state and the index of the new entity, [None] for
    the NULL of a full pool. *)
Definition spawn_entity (K : Kernel) : Kernel * option nat :=
  if (MAX_ENTITIES <=? active_entity_count K)%nat then (K, None)
  else
    let c := active_entity_count K in
    let '(hs, genome_ptr) := find_genome (holo_system K) in
    ({| holo_system := hs;
        entity_pool := alter (spawn_slot c genome_ptr) c (entity_pool K);
        active_entity_count := S c |},
     Some c).

(** ** EvolutionEngine *)

(** The fast inverse square root the source calls [sqrtf]. *)
Definition sqrtf (x : F32.float) : F32.float :=
  if F32.le x F32.zero then F32.zero
  else
    let x_half := F32.mul F32.half x in
    let i := F32.to_int x in
    let i := 0x5f3759df - Z.shiftr i 1 in
    let x := F32.of_int i in
    let x := F32.mul x (F32.sub F32.one_and_half (F32.mul (F32.mul x_half x) x)) in
    F32.div F32.one x.

(** One pass of the accumulation loop of the cosine similarity at dimension [d]. *)
Definition accumulate (s t : list F32.float)
    (acc : F32.float * F32.float * F32.float) (d : nat)
  : F32.float * F32.float * F32.float :=
  let '(dot, mag1, mag2) := acc in
  (F32.add dot (F32.mul (s !!! d) (t !!! d)),
   F32.add mag1 (F32.mul (s !!! d) (s !!! d)),
   F32.add mag2 (F32.mul (t !!! d) (t !!! d))).

Definition cosine_alignment (s t : HolographicVector) : F32.float :=
  let '(dot, mag1, mag2) :=
    fold_left (accumulate (data s) (data t)) (seq 0 HOLOGRAPHIC_DIMENSIONS)
      (F32.zero, F32.zero, F32.zero) in
  let mag1 := if F32.gt mag1 F32.zero then sqrtf mag1 else F32.one in
  let mag2 := if F32.gt mag2 F32.zero then sqrtf mag2 else F32.one in
  if F32.gt (F32.mul mag1 mag2) F32.zero
  then F32.div dot (F32.mul mag1 mag2)
  else F32.zero.

#[global] Instance domain_inhabited : Inhabited string := populate EmptyString.

(** The next-state arrays local to [update_entities]. *)
Record NextState := {
  next_active : list Z;
  next_state : list HolographicVector;
  next_domain : list string;
  next_task_vector : list HolographicVector;
  next_path_id : list Z;
  next_task_alignment : list F32.float
}.

(** [next_active] is zeroed by its initialiser; the other arrays are
    uninitialised stack storage, modelled as zeros (each index is written
    before it is read). *)
Definition fresh_next : NextState :=
  {| next_active := replicate MAX_ENTITIES 0;
     next_state := replicate MAX_ENTITIES zero_vector;
     next_domain := replicate MAX_ENTITIES EmptyString;
     next_task_vector := replicate MAX_ENTITIES zero_vector;
     next_path_id := replicate MAX_ENTITIES 0;
     next_task_alignment := replicate MAX_ENTITIES F32.zero |}.

(** The six copies that open an iteration of the evaluation loop. *)
Definition save_next (i : nat) (entity : Entity) (B : NextState) : NextState :=
  {| next_active := <[i := is_active entity]> (next_active B);
     next_state := <[i := state entity]> (next_state B);
     next_domain := <[i := strncpy31 (domain_name entity)]> (next_domain B);
     next_task_vector := <[i := task_vector entity]> (next_task_vector B);
     next_path_id := <[i := path_id entity]> (next_path_id B);
     next_task_alignment := <[i := task_alignment entity]> (next_task_alignment B) |}.

(** What the activate and the sleep rule write to the next-state arrays. *)
Definition set_next_trait (i : nat) (active : Z) (trait : string)
    (domain : string) (B : NextState) : NextState :=
  {| next_active := <[i := active]> (next_active B);
     next_state := <[i := create_holographic_vector (cstring trait)]> (next_state B);
     next_domain := <[i := strncpy31 domain]> (next_domain B);
     next_task_vector := next_task_vector B;
     next_path_id := next_path_id B;
     next_task_alignment := next_task_alignment B |}.

Definition set_next_task_alignment (i : nat) (a : F32.float) (B : NextState)
  : NextState :=
  {| next_active := next_active B;
     next_state := next_state B;
     next_domain := next_domain B;
     next_task_vector := next_task_vector B;
     next_path_id := next_path_id B;
     next_task_alignment := <[i := a]> (next_task_alignment B) |}.

(** Ring neighbours, computed from the live [active_entity_count]. *)
Definition prev_idx (K : Kernel) (i : nat) : nat :=
  if (i =? 0)%nat then (active_entity_count K - 1)%nat else (i - 1)%nat.

Definition next_idx (K : Kernel) (i : nat) : nat :=
  if (i =? active_entity_count K - 1)%nat then 0%nat else (i + 1)%nat.

Definition flag (b : Z) : Z := if b =? 0 then 0 else 1.

Definition neighbor_active (K : Kernel) (i : nat) : Z :=
  flag (is_active (entity_pool K !!! prev_idx K i))
  + flag (is_active (entity_pool K !!! next_idx K i)).

(** Which branch of the [if / else if] chain an entity takes. *)
Inductive Rule := RuleActivate | RuleSleep | RuleSpawn | RuleNone.

Definition select_rule (K : Kernel) (i : nat) : Rule :=
  let entity := entity_pool K !!! i in
  let n := neighbor_active K i in
  if (is_active entity =? 0) && (0 <? n) then RuleActivate
  else if negb (is_active entity =? 0) && (n =? 0) then RuleSleep
  else if negb (is_active entity =? 0) && (2 <=? n)
          && (active_entity_count K <? MAX_ENTITIES - 1)%nat then RuleSpawn
  else RuleNone.

(** [child->state = entity->state] followed by the sign flip at
    [global_timestamp % HOLOGRAPHIC_DIMENSIONS]. *)
Definition mutate (tick : Z) (parent_state : HolographicVector)
  : HolographicVector :=
  let rand_dim := Z.to_nat (tick mod Z.of_nat HOLOGRAPHIC_DIMENSIONS) in
  {| data := <[rand_dim := F32.neg (data parent_state !!! rand_dim)]> (data parent_state);
     hash_signature := hash_signature parent_state;
     active_dimensions := active_dimensions parent_state;
     valid := valid parent_state |}.

(** What the spawn rule writes into the child. *)
Definition inherit (tick : Z) (entity : Entity) (child : Entity) : Entity :=
  set_task_alignment (task_alignment entity)
    (set_path_id (path_id entity)
       (set_task_vector (task_vector entity)
          (set_state (mutate tick (state entity))
             (set_is_mutant 1
                (set_genome (genome entity) child))))).

(** The body of the spawn rule for the entity at [i]. *)
Definition spawn_rule (i : nat) (K : Kernel) : Kernel :=
  let '(K, child) := spawn_entity K in
  match child with
  | Some c =>
      let entity := entity_pool K !!! i in
      let K := update_entity c (inherit (global_timestamp (holo_system K)) entity) K in
      update_entity i
        (fun e => set_fitness_score (u32 (fitness_score e + 10))
                    (set_spawn_count (u32 (spawn_count e + 1)) e)) K
  | None => K
  end.

Definition bump_interaction (e : Entity) : Entity :=
  set_interaction_count (u32 (interaction_count e + 1)) e.

(** The three-way rule block. *)
Definition apply_rule (i : nat) (st : Kernel * NextState) : Kernel * NextState :=
  let '(K, B) := st in
  match select_rule K i with
  | RuleActivate =>
      (update_entity i bump_interaction K,
       set_next_trait i 1 "TRAIT_ACTIVE" "reactor" B)
  | RuleSleep =>
      (update_entity i bump_interaction K,
       set_next_trait i 0 "TRAIT_DORMANT" "sleeper" B)
  | RuleSpawn => (spawn_rule i K, B)
  | RuleNone => (K, B)
  end.

(** Task alignment and its fitness bonus. *)
Definition align_task (i : nat) (st : Kernel * NextState) : Kernel * NextState :=
  let '(K, B) := st in
  let entity := entity_pool K !!! i in
  if valid (task_vector entity) =? 0 then (K, B)
  else
    let a := cosine_alignment (state entity) (task_vector entity) in
    let B := set_next_task_alignment i a B in
    if F32.gt a F32.seven_tenths
    then (update_entity i (fun e => set_fitness_score (u32 (fitness_score e + 5)) e) K, B)
    else (K, B).

(** The garbage-collection mark. *)
Definition gc_check (e : Entity) : bool :=
  (1000 <? age e) && (fitness_score e <? 50).

Definition gc_mark (e : Entity) : Entity :=
  if gc_check e then set_marked_for_gc 1 e else e.

(** One iteration of the evaluation loop. *)
Definition eval_entity (i : nat) (st : Kernel * NextState) : Kernel * NextState :=
  let '(K, B) := st in
  let B := save_next i (entity_pool K !!! i) B in
  let K := update_entity i (fun e => set_age (u32 (age e + 1)) e) K in
  let '(K, B) := align_task i (apply_rule i (K, B)) in
  (update_entity i gc_mark K, B).

(** [for (i = ...; i < active_entity_count; i++)]: the bound is the live
    counter, which the spawn rule advances.  [fuel] bounds the number of
    iterations; [MAX_ENTITIES] is enough for a pool within capacity. *)
Fixpoint eval_loop (fuel : nat) (i : nat) (st : Kernel * NextState)
  : Kernel * NextState :=
  match fuel with
  | O => st
  | S fuel' =>
      if (i <? active_entity_count (fst st))%nat
      then eval_loop fuel' (S i) (eval_entity i st)
      else st
  end.

(** The apply phase at index [i]. *)
Definition apply_next (B : NextState) (i : nat) (e : Entity) : Entity :=
  set_task_alignment (next_task_alignment B !!! i)
    (set_path_id (next_path_id B !!! i)
       (set_task_vector (next_task_vector B !!! i)
          (set_domain_name (strncpy31 (next_domain B !!! i))
             (set_state (next_state B !!! i)
                (set_is_active (next_active B !!! i) e))))).

Definition apply_loop (B : NextState) (K : Kernel) : Kernel :=
  fold_left (fun K i => update_entity i (apply_next B i) K)
    (seq 0 (active_entity_count K)) K.

(** One iteration of the compacting pass: the pool and [write_index]. *)
Definition gc_step (st : list Entity * nat) (i : nat) : list Entity * nat :=
  let '(pool, write_index) := st in
  if marked_for_gc (pool !!! i) =? 0 then
    ((if (write_index =? i)%nat then pool else <[write_index := pool !!! i]> pool),
     S write_index)
  else (pool, write_index).

Definition gc_loop (K : Kernel) : Kernel :=
  let '(pool, write_index) :=
    fold_left gc_step (seq 0 (active_entity_count K)) (entity_pool K, 0%nat) in
  {| holo_system := holo_system K; entity_pool := pool;
     active_entity_count := write_index |}.

Definition eval_phase (K : Kernel) : Kernel * NextState :=
  eval_loop MAX_ENTITIES 0 (K, fresh_next).

Definition update_entities (K : Kernel) : Kernel :=
  let '(K, B) := eval_phase K in
  gc_loop (apply_loop B K).

(** ** Start-up as [kmain] runs it *)

Definition assign_task (path_vector : HolographicVector) (K : Kernel) (i : nat)
  : Kernel :=
  if (i <? active_entity_count K)%nat
  then update_entity i (fun e => set_path_id 0xA1 (set_task_vector path_vector e)) K
  else K.

Definition kmain_init (K : Kernel) : Kernel :=
  let K := set_holo_system (initialize_holographic_memory (holo_system K)) K in
  let K := set_holo_system (load_initial_genome_vocabulary (holo_system K)) K in
  let K := initialize_emergent_entities K in
  let path_vector := create_holographic_vector (cstring "network_io_path") in
  fold_left (assign_task path_vector) (seq 0 2) K.

(** The idle loop's [holo_system.global_timestamp++]. *)
Definition tick (K : Kernel) : Kernel :=
  set_holo_system
    {| memory_pool := memory_pool (holo_system K);
       memory_count := memory_count (holo_system K);
       global_timestamp := u32 (global_timestamp (holo_system K) + 1) |} K.


(** ** Notions used in the statements *)

(** The fill rule: a dimension is populated when its seed is a multiple of 10. *)
Definition selected (seed : Z) : bool := seed mod 10 =? 0.

(** A populated dimension whose value is [0 / 1000.0f]. *)
Definition selected_zero (seed : Z) : bool := seed mod 2000 =? 1000.

(** What the fill loop leaves in a dimension. *)
Definition component (seed : Z) : F32.float :=
  if selected seed then component_of_seed seed else F32.zero.

(** [encode_holographic_memory] applied to a list of (input, output) pairs,
    first to last. *)
Definition encode_all (records : list (HolographicVector * HolographicVector))
    (hs : HolographicSystem) : HolographicSystem :=
  fold_left (fun hs p => encode_holographic_memory (fst p) (snd p) hs) records hs.

(** The records the store holds, oldest first. *)
Definition stored (hs : HolographicSystem) : list MemoryEntry :=
  take (memory_count hs) (memory_pool hs).

(** A slot holds the record made from the pair [p]. *)
Definition holds (e : MemoryEntry) (p : HolographicVector * HolographicVector)
  : Prop :=
  input_pattern e = fst p /\ output_pattern e = snd p /\ entry_valid e = 1.

(** The array bounds of the store. *)
Definition store_wf (hs : HolographicSystem) : Prop :=
  length (memory_pool hs) = MAX_MEMORY_ENTRIES
  /\ (memory_count hs <= MAX_MEMORY_ENTRIES)%nat.

(** The most recent [MAX_MEMORY_ENTRIES] elements of a list. *)
Definition most_recent {A} (l : list A) : list A :=
  drop (length l - MAX_MEMORY_ENTRIES) l.

(** 129 distinct inputs: the one-byte strings 0 .. 128. *)
Definition sample_records : list (HolographicVector * HolographicVector) :=
  map (fun k => let v := create_holographic_vector [Z.of_nat k] in (v, v))
      (seq 0 129).

(** The array bounds of the arena. *)
Definition arena_wf (K : Kernel) : Prop :=
  length (entity_pool K) = MAX_ENTITIES
  /\ (active_entity_count K <= MAX_ENTITIES)%nat.

(** The fields no statement of [update_entities] assigns on an entity that
    already exists. *)
Definition frame_of (e : Entity) :=
  (id e, genome e, confidence e, resource_allocation e,
   specialization_scores e, is_mutant e).

(** The fields that only the apply phase assigns on an existing entity. *)
Definition live_of (e : Entity) :=
  (is_active e, state e, domain_name e, task_vector e, path_id e,
   task_alignment e).

(** The indices among the first [n] that the compacting pass keeps, in order. *)
Definition survivor_indices (pool : list Entity) (n : nat) : list nat :=
  List.filter (fun i => marked_for_gc (pool !!! i) =? 0) (seq 0 n).

(** The mark an index carries into the evaluation loop: its own for an
    entity that exists before the call, none for a child spawned in it. *)
Definition origin_mark (K0 : Kernel) (j : nat) : Z :=
  if (j <? active_entity_count K0)%nat
  then marked_for_gc (entity_pool K0 !!! j) else 0.

(** Every live id is the index of its slot. *)
Definition ids_are_indices (K : Kernel) : Prop :=
  forall i, (i < active_entity_count K)%nat ->
            id (entity_pool K !!! i) = Z.of_nat i.

(** The states the globals can take: the zeroed start, closed under the
    operations of the file ([kmain]'s task assignment with any vector and
    index, and the idle loop's tick). *)
Inductive reachable : Kernel -> Prop :=
| reach_boot : reachable boot
| reach_initialize_memory K :
    reachable K ->
    reachable (set_holo_system (initialize_holographic_memory (holo_system K)) K)
| reach_load_vocabulary K :
    reachable K ->
    reachable (set_holo_system (load_initial_genome_vocabulary (holo_system K)) K)
| reach_initialize_entities K :
    reachable K -> reachable (initialize_emergent_entities K)
| reach_assign_task K v i :
    reachable K -> reachable (assign_task v K i)
| reach_spawn K :
    reachable K -> reachable (fst (spawn_entity K))
| reach_update K :
    reachable K -> reachable (update_entities K)
| reach_tick K :
    reachable K -> reachable (tick K).

(** One entity spawned into the zeroed arena, and the arena one update later. *)
Definition one_entity : Kernel := fst (spawn_entity boot).
Definition full_ring : Kernel := update_entities one_entity.

(** An entity differs from an earlier version of itself in its counters
    only (age, interaction count, fitness, spawn count). *)
Definition counters_only (e e' : Entity) : Prop :=
  frame_of e' = frame_of e /\ live_of e' = live_of e
  /\ marked_for_gc e' = marked_for_gc e.

(** What the statements of one iteration before the mark do to the arena
    when they run for the entity at [i]: the other live entities are not
    touched, the entity itself changes in its counters only, and at most one
    slot is appended, holding a fresh unmarked child whose id is its index. *)
Record step_shape (i : nat) (K K' : Kernel) : Prop := {
  shape_length : length (entity_pool K') = length (entity_pool K);
  shape_count :
    (active_entity_count K <= active_entity_count K')%nat
    /\ (active_entity_count K' = active_entity_count K
        \/ (active_entity_count K' <= MAX_ENTITIES - 1)%nat);
  shape_others :
    forall j, j <> i -> (j < active_entity_count K)%nat ->
              entity_pool K' !!! j = entity_pool K !!! j;
  shape_self : counters_only (entity_pool K !!! i) (entity_pool K' !!! i);
  shape_child :
    forall j, (active_entity_count K <= j < active_entity_count K')%nat ->
              id (entity_pool K' !!! j) = Z.of_nat j
              /\ marked_for_gc (entity_pool K' !!! j) = 0
}.

(** The state of the evaluation loop about to visit index [i], against the
    arena [K0] the call started from. *)
Record loop_inv (K0 : Kernel) (i : nat) (K : Kernel) : Prop := {
  inv_wf : arena_wf K;
  inv_index : (i <= active_entity_count K)%nat;
  inv_count : (active_entity_count K0 <= active_entity_count K)%nat;
  inv_frame :
    forall j, (j < active_entity_count K0)%nat ->
              frame_of (entity_pool K !!! j) = frame_of (entity_pool K0 !!! j);
  inv_live :
    forall j, (j < active_entity_count K0)%nat ->
              live_of (entity_pool K !!! j) = live_of (entity_pool K0 !!! j);
  inv_child_id :
    forall j, (active_entity_count K0 <= j < active_entity_count K)%nat ->
              id (entity_pool K !!! j) = Z.of_nat j;
  inv_pending :
    forall j, (i <= j < active_entity_count K)%nat ->
              marked_for_gc (entity_pool K !!! j) = origin_mark K0 j;
  inv_done :
    forall j, (j < i)%nat ->
              marked_for_gc (entity_pool K !!! j)
              = if gc_check (entity_pool K !!! j) then 1 else origin_mark K0 j
}.

(** Hand-made arenas for concrete runs: entities as [spawn_entity] leaves
    them, with a chosen active flag, age and fitness. *)
Definition sample_entity (n : nat) (active age_ fitness : Z) : Entity :=
  set_fitness_score fitness
    (set_age age_
       (set_is_active active (spawn_slot n GenomeNull zero_entity))).

Definition sample_arena (es : list Entity) : Kernel :=
  {| holo_system := holo_system boot;
     entity_pool := es ++ replicate (MAX_ENTITIES - length es) zero_entity;
     active_entity_count := length es |}.

(** Two dormant entities one update short of the age limit, with fitness 49
    and 50. *)
Definition gc_sample : Kernel :=
  sample_arena [sample_entity 0 0 1000 49; sample_entity 1 0 1000 50].

(** A ring of four: index 0 dormant, the others active. *)
Definition ring4 : Kernel :=
  sample_arena [sample_entity 0 0 0 0; sample_entity 1 1 0 0;
                sample_entity 2 1 0 0; sample_entity 3 1 0 0].

(** A ring that has aged 1000 cycles, and the arena after one more spawn, two
    more updates and a last spawn. *)
Definition aged_ring : Kernel := Nat.iter 1000 update_entities one_entity.

Definition reused_id : Kernel :=
  fst (spawn_entity
         (update_entities (update_entities (fst (spawn_entity aged_ring))))).

(** The arena is within its bounds and holds no marked entity below
    [active_entity_count]. *)
Definition arena_clean (K : Kernel) : Prop :=
  arena_wf K
  /\ forall j, (j < active_entity_count K)%nat ->
               marked_for_gc (entity_pool K !!! j) = 0.

(** The globals as [kmain] leaves them before its loop: store reset, the
    vocabulary loaded, three entities, the task assigned to the first two. *)
Definition booted : Kernel := kmain_init boot.

(** The test [retrieve_holographic_memory] applies to a slot. *)
Definition matches (hash : Z) (e : MemoryEntry) : bool :=
  negb (entry_valid e =? 0) && (hash_signature (input_pattern e) =? hash).

(** The signature under which the canonical genome rule is stored. *)
Definition genome_hash : Z :=
  hash_signature (create_holographic_vector (cstring "GENOME_SIMPLE_RULE_1")).

(** What the rule block, the alignment block and the mark do to the record
    of the entity under evaluation, as functions of that record. *)
Definition rule_effect (r : Rule) (e : Entity) : Entity :=
  match r with
  | RuleActivate | RuleSleep => bump_interaction e
  | RuleSpawn =>
      set_fitness_score (u32 (fitness_score e + 10))
        (set_spawn_count (u32 (spawn_count e + 1)) e)
  | RuleNone => e
  end.

Definition align_effect (e : Entity) : Entity :=
  if valid (task_vector e) =? 0 then e
  else if F32.gt (cosine_alignment (state e) (task_vector e)) F32.seven_tenths
       then set_fitness_score (u32 (fitness_score e + 5)) e
       else e.

Definition evaluated (r : Rule) (e : Entity) : Entity :=
  gc_mark (align_effect (rule_effect r (set_age (u32 (age e + 1)) e))).

(** Every live entity is active. *)
Definition all_active (K : Kernel) : Prop :=
  forall j, (j < active_entity_count K)%nat ->
            is_active (entity_pool K !!! j) = 1.

(** The evaluation loop about to visit index [i], entity by entity: the
    entities of the starting arena [K0] not yet visited are as they were,
    the visited ones carry the effect of their own iteration, the children
    spawned so far have age 0 until they are visited and age 1 after. *)
Record trace_inv (K0 : Kernel) (i : nat) (st : Kernel * NextState) : Prop := {
  tr_wf : arena_wf (fst st);
  tr_index : (i <= active_entity_count (fst st))%nat;
  tr_count : (active_entity_count K0 <= active_entity_count (fst st))%nat;
  tr_pending :
    forall j, (i <= j)%nat -> (j < active_entity_count K0)%nat ->
              entity_pool (fst st) !!! j = entity_pool K0 !!! j;
  tr_done :
    forall j, (j < i)%nat -> (j < active_entity_count K0)%nat ->
              exists r, entity_pool (fst st) !!! j
                        = evaluated r (entity_pool K0 !!! j);
  tr_child_pending :
    forall j, (i <= j)%nat ->
              (active_entity_count K0 <= j < active_entity_count (fst st))%nat ->
              age (entity_pool (fst st) !!! j) = 0
              /\ is_mutant (entity_pool (fst st) !!! j) = 1
              /\ is_active (entity_pool (fst st) !!! j) = 1
              /\ id (entity_pool (fst st) !!! j) = Z.of_nat j;
  tr_child_done :
    forall j, (j < i)%nat -> (active_entity_count K0 <= j)%nat ->
              age (entity_pool (fst st) !!! j) = 1
              /\ is_mutant (entity_pool (fst st) !!! j) = 1
              /\ is_active (entity_pool (fst st) !!! j) = 1
              /\ id (entity_pool (fst st) !!! j) = Z.of_nat j
}.

(** The same loop on an arena whose live entities are all active: they stay
    active, the next-state flags written so far are 1, and the count has
    grown by one per iteration up to 31. *)
Record active_inv (K0 : Kernel) (i : nat) (st : Kernel * NextState) : Prop := {
  ac_all : all_active (fst st);
  ac_length : length (next_active (snd st)) = MAX_ENTITIES;
  ac_next : forall j, (j < i)%nat -> next_active (snd st) !!! j = 1;
  ac_count :
    active_entity_count (fst st)
    = Nat.max (active_entity_count K0)
              (Nat.min (active_entity_count K0 + i) (MAX_ENTITIES - 1))
}.

(** ** Console and string helpers *)

(** The text console: the 80 x 25 cells of video memory, two bytes each, and
    the cursor [print_char] keeps in a static variable. *)
Record Console := {
  video : list Z;
  position : Z
}.

Definition VIDEO_CELLS : Z := 80 * 25.

(** [print_char]: a newline moves the cursor to the start of the next
    line, any other character is written with its colour at the cursor;
    the cursor wraps to 0 at the end of the screen. *)
Definition print_char (c color : Z) (con : Console) : Console :=
  let con :=
    if c =? 10 then
      {| video := video con; position := (position con / 80 + 1) * 80 |}
    else
      {| video := <[Z.to_nat (position con * 2 + 1) := color]>
                    (<[Z.to_nat (position con * 2) := c]> (video con));
         position := position con + 1 |} in
  if VIDEO_CELLS <=? position con
  then {| video := video con; position := 0 |}
  else con.

(** [print]: the characters of a C string up to its NUL, in white on black. *)
Fixpoint print (str : list Z) (con : Console) : Console :=
  match str with
  | [] => con
  | c :: rest => if c =? 0 then con else print rest (print_char c 0x0f con)
  end.

Definition hex_digits : list Z := cstring "0123456789ABCDEF".

(** The buffer [print_hex] fills: [buffer[7 - i]] is the digit of nibble [i]. *)
Definition hex_slot (value : Z) (buffer : list Z) (i : nat) : list Z :=
  <[(7 - i)%nat :=
      hex_digits !!! Z.to_nat (Z.land (Z.shiftr value (Z.of_nat i * 4)) 0xF)]>
    buffer.

Definition print_hex_buffer (value : Z) : list Z :=
  <[8%nat := 0]>
    (fold_left (hex_slot value) [7; 6; 5; 4; 3; 2; 1; 0]%nat (replicate 9 0)).

Definition print_hex (value : Z) (con : Console) : Console :=
  print (print_hex_buffer value) (print (cstring "0x") con).

(** Reading a character as a hexadecimal digit, and a digit string as a
    number. *)
Definition hex_char_value (c : Z) : Z :=
  if (48 <=? c) && (c <=? 57) then c - 48 else c - 55.

Definition hex_parse (digits : list Z) : Z :=
  fold_left (fun acc c => acc * 16 + hex_char_value c) digits 0.

(** [strlen]: the number of bytes before the first NUL.  The end of the list
    stands for the end of the buffer, where the C loop would read on. *)
Fixpoint strlen (str : list Z) : nat :=
  match str with
  | [] => O
  | c :: rest => if c =? 0 then O else S (strlen rest)
  end.

(** The two loops of [strncpy], each with [k] iterations left at index [i]. *)
Fixpoint strncpy_copy (k i : nat) (dest src : list Z) : list Z * nat :=
  match k with
  | O => (dest, i)
  | S k' =>
      if src !!! i =? 0 then (dest, i)
      else strncpy_copy k' (S i) (<[i := src !!! i]> dest) src
  end.

Fixpoint strncpy_pad (k i : nat) (dest : list Z) : list Z :=
  match k with
  | O => dest
  | S k' => strncpy_pad k' (S i) (<[i := 0]> dest)
  end.

Definition strncpy (dest src : list Z) (n : nat) : list Z :=
  let '(dest, i) := strncpy_copy n 0 dest src in
  strncpy_pad (n - i) i dest.

(** The bytes of a string, and the string a buffer holds up to its NUL. *)
Definition bytes_of_string (s : string) : list Z :=
  map (fun c => Z.of_N (N_of_ascii c)) (list_ascii_of_string s).

Definition c_string (buffer : list Z) : list Z := take (strlen buffer) buffer.

(** ** The entity table on the screen *)

(** A value stored through a [char] pointer: its low 8 bits. *)
Definition u8 (z : Z) : Z := Z.land z 0xff.

Definition ten : F32.float := 0x41200000.

(** [(int)x]: the value truncated toward zero.  For a NaN and outside the
    range of [int] the conversion instruction of the x86 yields [INT_MIN]. *)
Definition truncate (a : F32.float) : Z :=
  match F32.decode a with
  | S754_zero _ => 0
  | S754_finite s m e =>
      let magnitude :=
        if 0 <=? e then Z.shiftl (Zpos m) e else Z.shiftr (Zpos m) (- e) in
      let value := if s then - magnitude else magnitude in
      if (- 2 ^ 31 <=? value) && (value <? 2 ^ 31) then value else - 2 ^ 31
  | _ => - 2 ^ 31
  end.

Definition start_line : nat := 5.
Definition start_col : nat := 0.
Definition max_lines : nat := 15.

(** [video[screen_pos] = c; screen_pos += 2] *)
Definition put (vp : list Z * nat) (c : Z) : list Z * nat :=
  (<[snd vp := u8 c]> (fst vp), (snd vp + 2)%nat).

(** The body of the clearing loops: a blank in grey on black. *)
Definition clear_cell (y : nat) (video : list Z) (x : nat) : list Z :=
  let screen_pos := (((start_line + y) * 80 + x) * 2)%nat in
  <[(screen_pos + 1)%nat := 0x07]> (<[screen_pos := 32]> video).

Definition clear_row (video : list Z) (y : nat) : list Z :=
  fold_left (clear_cell y) (seq 0 80) video.

Fixpoint clear_loop (fuel y : nat) (video : list Z) : list Z :=
  match fuel with
  | O => video
  | S fuel' =>
      if ((y <? max_lines) && (start_line + y <? 25))%nat
      then clear_loop fuel' (S y) (clear_row video y)
      else video
  end.

(** [for (j = 0; j < 6 && j < domain_len; j++)] over the bytes of
    [domain_name]. *)
Fixpoint domain_loop (fuel j : nat) (name : list Z) (vp : list Z * nat)
  : list Z * nat :=
  match fuel with
  | O => vp
  | S fuel' =>
      if ((j <? 6) && (j <? strlen name))%nat
      then domain_loop fuel' (S j) name (put vp (name !!! j))
      else vp
  end.

(** [for (j = strlen(domain_name); j < 6; j++)] *)
Fixpoint pad_loop (fuel j : nat) (vp : list Z * nat) : list Z * nat :=
  match fuel with
  | O => vp
  | S fuel' => if (j <? 6)%nat then pad_loop fuel' (S j) (put vp 32) else vp
  end.

(** One line of the table: [E:<id> <A|D> <domain> I:<nn> C:<n> F:<n> ]. *)
Definition render_row (entity : Entity) (i : nat) (video : list Z) : list Z :=
  let screen_y := (start_line + i)%nat in
  let vp := (video, ((screen_y * 80 + start_col) * 2)%nat) in
  let vp := put vp 69 in
  let vp := put vp 58 in
  let hex_char :=
    if id entity <? 10 then u32 (48 + id entity) else u32 (65 + id entity - 10) in
  let vp := put vp hex_char in
  let vp := put vp 32 in
  let vp := put vp (if is_active entity =? 0 then 68 else 65) in
  let vp := put vp 32 in
  let name := cstring (domain_name entity) in
  let vp := domain_loop 6 0 name vp in
  let vp := pad_loop 6 (strlen name) vp in
  let vp := put vp 32 in
  let vp := put vp 73 in
  let vp := put vp 58 in
  let ic_mod := interaction_count entity mod 100 in
  let vp := put vp (48 + ic_mod / 10) in
  let vp := put vp (48 + ic_mod mod 10) in
  let vp := put vp 32 in
  let conf_int := truncate (F32.mul (confidence entity) ten) in
  let conf_int := if 9 <? conf_int then 9 else conf_int in
  let vp := put vp 67 in
  let vp := put vp 58 in
  let vp := put vp (48 + conf_int) in
  let vp := put vp 32 in
  let fit_int := (fitness_score entity / 10) mod 10 in
  let vp := put vp 70 in
  let vp := put vp 58 in
  let vp := put vp (48 + fit_int) in
  let vp := put vp 32 in
  fst vp.

(** [for (i = 0; i < active_entity_count && i < max_lines; i++)] with its
    [break] at the bottom of the screen. *)
Fixpoint render_loop (fuel i : nat) (K : Kernel) (video : list Z) : list Z :=
  match fuel with
  | O => video
  | S fuel' =>
      if ((i <? active_entity_count K) && (i <? max_lines))%nat
      then
        if (25 <=? start_line + i)%nat then video
        else render_loop fuel' (S i) K (render_row (entity_pool K !!! i) i video)
      else video
  end.

Definition render_entities_to_vga (K : Kernel) (video : list Z) : list Z :=
  render_loop max_lines 0 K (clear_loop max_lines 0 video).

(** The characters of a table line, left to right, before their reduction
    to a byte. *)
Definition domain_field (name : string) : list Z :=
  take 6 (c_string (cstring name))
  ++ replicate (6 - strlen (cstring name)) 32.

Definition row_text (e : Entity) : list Z :=
  [69; 58;
   if id e <? 10 then u32 (48 + id e) else u32 (65 + id e - 10);
   32; if is_active e =? 0 then 68 else 65; 32]
  ++ domain_field (domain_name e)
  ++ [32; 73; 58;
      48 + (interaction_count e mod 100) / 10;
      48 + (interaction_count e mod 100) mod 10;
      32; 67; 58;
      48 + (let conf_int := truncate (F32.mul (confidence e) ten) in
            if 9 <? conf_int then 9 else conf_int);
      32; 70; 58;
      48 + (fitness_score e / 10) mod 10;
      32].

(** The byte offset of the character of cell [x] in line [y] of the table. *)
Definition table_cell (y x : nat) : nat := (((5 + y) * 80 + x) * 2)%nat.

(** ** The idle loop of [kmain] *)

(** What the loop carries from one iteration to the next: the globals and
    the local [last_update].  (The screen is left out: the table drawn by
    [render_entities_to_vga] does not feed back into them.) *)
Record Machine := {
  kernel : Kernel;
  last_update : Z
}.

Definition update_interval : Z := 500000.

Definition clock (K : Kernel) : Z := global_timestamp (holo_system K).

(** One pass of [while (1)]. *)
Definition kmain_iteration (M : Machine) : Machine :=
  let M :=
    if update_interval <? u32 (clock (kernel M) - last_update M)
    then
      let K := update_entities (kernel M) in
      {| kernel := K; last_update := clock K |}
    else M in
  {| kernel := tick (kernel M); last_update := last_update M |}.

(** The unsigned difference the loop tests. *)
Definition elapsed (M : Machine) : Z :=
  u32 (clock (kernel M) - last_update M).
(** ** [snprintf] *)

(** The writing end of [snprintf]: the buffer, the offset of [str_ptr] in
    it and [remaining]. *)
Definition Output : Type := list Z * nat * nat.

(** [*str_ptr++ = c; remaining--] *)
Definition emit_char (c : Z) (out : Output) : Output :=
  let '(str, p, remaining) := out in
  (<[p := c]> str, S p, (remaining - 1)%nat).

(** [while (val > 0 && i < 9) { temp[i++] = '0' + val % 10; val /= 10; }]:
    the entries of [temp] in index order, lowest digit first. *)
Fixpoint temp_digits (fuel : nat) (val : Z) : list Z :=
  match fuel with
  | O => []
  | S fuel' =>
      if 0 <? val then (48 + val mod 10) :: temp_digits fuel' (val / 10)
      else []
  end.

(** [for (j = i - 1; j >= 0 && remaining > 0; j--)] over the entries of
    [temp] taken from the last to the first. *)
Fixpoint emit (cs : list Z) (out : Output) : Output :=
  match cs with
  | [] => out
  | c :: cs' =>
      if (0 <? snd out)%nat then emit cs' (emit_char c out) else out
  end.

(** The main loop; [fmt] is the format from [fmt_ptr] on. *)
Fixpoint format_loop (fmt : list Z) (value : Z) (out : Output) : Output :=
  match fmt with
  | [] => out
  | c :: rest =>
      if (c =? 0) || (snd out =? 0)%nat then out
      else
        match rest with
        | d :: rest' =>
            if (c =? 37) && (d =? 100) then
              format_loop rest' value
                (if value =? 0 then emit_char 48 out
                 else emit (rev (temp_digits 9 value)) out)
            else format_loop rest value (emit_char c out)
        | [] => format_loop rest value (emit_char c out)
        end
  end.

(** [snprintf(str, size, format, value)]: the buffer afterwards and the
    value returned. *)
Definition snprintf (str : list Z) (size : nat) (format : list Z) (value : Z)
  : list Z * Z :=
  if (size =? 0)%nat then (str, 0)
  else if (size =? 1)%nat then (<[0%nat := 0]> str, 0)
  else
    let '(str, p, _) := format_loop format value (str, 0%nat, (size - 1)%nat) in
    (<[p := 0]> str, Z.of_nat p).

(** What a [%d] stands for, and the text a format stands for. *)
Definition number_text (value : Z) : list Z :=
  if value =? 0 then [48] else rev (temp_digits 9 value).

Fixpoint expand (fmt : list Z) (value : Z) : list Z :=
  match fmt with
  | [] => []
  | c :: rest =>
      if c =? 0 then []
      else
        match rest with
        | d :: rest' =>
            if (c =? 37) && (d =? 100)
            then number_text value ++ expand rest' value
            else c :: expand rest value
        | [] => c :: expand rest value
        end
  end.

(** A digit string read as a decimal number. *)
Definition decimal_parse (digits : list Z) : Z :=
  fold_left (fun acc c => acc * 10 + (c - 48)) digits 0.

(** [out] written into [str] from offset [p] on. *)
Definition splice (str : list Z) (p : nat) (out : list Z) : list Z :=
  take p str ++ out ++ drop (p + length out) str.

(** The records [load_initial_genome_vocabulary] inserts: each word's vector
    as input and as output. *)
Definition vocabulary_records : list (HolographicVector * HolographicVector) :=
  map (fun w => (create_holographic_vector (cstring w),
                 create_holographic_vector (cstring w))) vocab.

(** [a == b] on floats: the two zeros are equal, a NaN equals nothing, not
    even itself. *)
Definition float_eq (a b : F32.float) : bool :=
  SFeqb (F32.decode a) (F32.decode b).

(** The dimensions in which two vectors differ as floats ([!=]). *)
Definition differing (v w : list F32.float) : list nat :=
  List.filter (fun j => negb (float_eq (v !!! j) (w !!! j)))
    (seq 0 HOLOGRAPHIC_DIMENSIONS).

(** A state with its clock at [t]. *)
Definition at_tick (t : Z) (K : Kernel) : Kernel :=
  set_holo_system
    {| memory_pool := memory_pool (holo_system K);
       memory_count := memory_count (holo_system K);
       global_timestamp := t |} K.

(** * Properties *)

(** ** Machine integers *)

Lemma u32_mod z : u32 z = z mod 2 ^ 32.
Proof. unfold u32. change 0xffffffff with (Z.ones 32). apply Z.land_ones. lia. Qed.

Lemma u16_mod z : u16 z = z mod 2 ^ 16.
Proof. unfold u16. change 0xffff with (Z.ones 16). apply Z.land_ones. lia. Qed.

Lemma u16_small z : 0 <= z < 2 ^ 16 -> u16 z = z.
Proof. intros H. rewrite u16_mod. apply Z.mod_small. exact H. Qed.

(** ** VectorCodec *)

Lemma fill_dimension_data i seed v :
  data (fill_dimension i seed v) = <[i := component seed]> (data v).
Proof.
  unfold fill_dimension, component, selected.
  destruct (seed mod 10 =? 0); reflexivity.
Qed.

Lemma fill_dimension_active i seed v :
  active_dimensions (fill_dimension i seed v)
  = if selected seed then u16 (active_dimensions v + 1) else active_dimensions v.
Proof.
  unfold fill_dimension, selected.
  destruct (seed mod 10 =? 0); reflexivity.
Qed.

Lemma fill_loop_data n : forall i seed v,
  (i + n <= length (data v))%nat ->
  data (fill_loop n i seed v)
  = take i (data v) ++ map component (lcg_seeds n seed) ++ drop (i + n) (data v).
Proof.
  induction n as [|n IH]; intros i seed v Hlen; simpl.
  - rewrite Nat.add_0_r. symmetry. apply take_drop.
  - rewrite IH by (rewrite fill_dimension_data, length_insert; lia).
    rewrite fill_dimension_data.
    rewrite (take_S_r _ i (component (lcg_next seed)))
      by (apply list_lookup_insert_eq; lia).
    rewrite take_insert_ge by lia.
    rewrite drop_insert_lt by lia.
    rewrite <- app_assoc. simpl.
    replace (S (i + n))%nat with (i + S n)%nat by lia.
    reflexivity.
Qed.

Lemma fill_loop_active n : forall i seed v,
  0 <= active_dimensions v ->
  active_dimensions v + Z.of_nat n < 2 ^ 16 ->
  active_dimensions (fill_loop n i seed v)
  = active_dimensions v
    + Z.of_nat (length (List.filter selected (lcg_seeds n seed))).
Proof.
  induction n as [|n IH]; intros i seed v Hlo Hhi; simpl.
  - lia.
  - pose proof (fill_dimension_active i (lcg_next seed) v) as Hact.
    destruct (selected (lcg_next seed)) eqn:Hsel.
    + rewrite u16_small in Hact by lia.
      rewrite IH by lia. rewrite Hact. simpl length. lia.
    + rewrite IH by lia. rewrite Hact. reflexivity.
Qed.

Lemma length_lcg_seeds n : forall seed, length (lcg_seeds n seed) = n.
Proof. induction n as [|n IH]; intros seed; simpl; [reflexivity|]. now rewrite IH. Qed.

Lemma create_holographic_vector_data input :
  data (create_holographic_vector input)
  = map component (lcg_seeds HOLOGRAPHIC_DIMENSIONS (hash_data input)).
Proof.
  unfold create_holographic_vector.
  assert (Hlen : length (data zero_vector) = HOLOGRAPHIC_DIMENSIONS)
    by apply length_replicate.
  rewrite fill_loop_data by (cbn [data]; lia).
  cbn [data]. rewrite take_0.
  rewrite drop_ge by lia.
  apply app_nil_r.
Qed.

Lemma create_holographic_vector_length input :
  length (data (create_holographic_vector input)) = HOLOGRAPHIC_DIMENSIONS.
Proof.
  rewrite create_holographic_vector_data, length_map. apply length_lcg_seeds.
Qed.

(** The value of a populated dimension depends on [seed mod 2000] only, and
    of the 2000 residues exactly 1000 gives a zero. *)
Lemma component_table :
  forallb
    (fun k => Bool.eqb (F32.nonzero (component_of_seed (Z.of_nat k)))
                       (negb (selected_zero (Z.of_nat k))))
    (seq 0 2000) = true.
Proof. vm_compute. reflexivity. Qed.

Lemma component_of_seed_mod seed :
  component_of_seed seed = component_of_seed (seed mod 2000).
Proof. unfold component_of_seed. rewrite Z.mod_mod by lia. reflexivity. Qed.

Lemma component_of_seed_nonzero seed :
  F32.nonzero (component_of_seed seed) = negb (selected_zero seed).
Proof.
  rewrite component_of_seed_mod.
  assert (Hr : 0 <= seed mod 2000 < 2000) by (apply Z.mod_pos_bound; lia).
  assert (Hz : selected_zero seed = selected_zero (seed mod 2000)).
  { unfold selected_zero. rewrite Z.mod_mod by lia. reflexivity. }
  rewrite Hz.
  pose proof component_table as Htab.
  rewrite forallb_forall in Htab.
  specialize (Htab (Z.to_nat (seed mod 2000))).
  rewrite Z2Nat.id in Htab by lia.
  apply Bool.eqb_prop, Htab, in_seq. lia.
Qed.

Lemma selected_zero_selected seed : selected_zero seed = true -> selected seed = true.
Proof.
  unfold selected_zero, selected. rewrite !Z.eqb_eq. intros H.
  assert (Hm : seed mod 10 = (seed mod 2000) mod 10).
  { pose proof (Z.div_mod seed 2000). pose proof (Z.mod_pos_bound seed 2000).
    rewrite (Z.div_mod seed 2000) at 1 by lia.
    replace (2000 * (seed / 2000) + seed mod 2000)
      with (seed mod 2000 + (200 * (seed / 2000)) * 10) by lia.
    apply Z.mod_add. lia. }
  rewrite Hm, H. reflexivity.
Qed.

Lemma component_nonzero seed :
  F32.nonzero (component seed) = selected seed && negb (selected_zero seed).
Proof.
  unfold component. destruct (selected seed) eqn:Hsel.
  - apply component_of_seed_nonzero.
  - reflexivity.
Qed.

Lemma count_nonzero_components seeds :
  count_nonzero (map component seeds)
  = length (List.filter (fun s => selected s && negb (selected_zero s)) seeds).
Proof.
  unfold count_nonzero.
  induction seeds as [|s seeds IH]; cbn [map List.filter length]; [reflexivity|].
  rewrite component_nonzero.
  destruct (selected s && negb (selected_zero s)); cbn [length]; now rewrite IH.
Qed.

Lemma selected_split seeds :
  length (List.filter selected seeds)
  = (length (List.filter (fun s => selected s && negb (selected_zero s)) seeds)
     + length (List.filter selected_zero seeds))%nat.
Proof.
  induction seeds as [|s seeds IH]; cbn [List.filter length]; [reflexivity|].
  destruct (selected_zero s) eqn:Hz.
  - rewrite (selected_zero_selected s Hz). cbn [andb negb length]. lia.
  - cbn [negb]. rewrite andb_true_r. destruct (selected s); cbn [length]; lia.
Qed.

(** C8, as the code has it: [active_dimensions] counts the dimensions the
    fill rule populates (seed divisible by 10).  The components that are not
    zero are the populated ones whose seed is not 1000 modulo 2000, so
    [active_dimensions] exceeds the number of non-zero components by the
    number of seeds that are 1000 modulo 2000. *)
Theorem active_dimensions_counts_selected (input : list Z) :
  let v := create_holographic_vector input in
  let seeds := lcg_seeds HOLOGRAPHIC_DIMENSIONS (hash_data input) in
  active_dimensions v = Z.of_nat (length (List.filter selected seeds))
  /\ count_nonzero (data v)
     = length (List.filter (fun s => selected s && negb (selected_zero s)) seeds)
  /\ active_dimensions v
     = Z.of_nat (count_nonzero (data v))
       + Z.of_nat (length (List.filter selected_zero seeds)).
Proof.
  intros v seeds.
  assert (Hact : active_dimensions v = Z.of_nat (length (List.filter selected seeds))).
  { unfold v, create_holographic_vector.
    rewrite fill_loop_active by (cbn [active_dimensions]; unfold HOLOGRAPHIC_DIMENSIONS; lia).
    cbn [active_dimensions]. reflexivity. }
  assert (Hnz : count_nonzero (data v)
                = length (List.filter (fun s => selected s && negb (selected_zero s)) seeds)).
  { unfold v. rewrite create_holographic_vector_data. apply count_nonzero_components. }
  split; [exact Hact|]. split; [exact Hnz|].
  rewrite Hact, Hnz, selected_split. lia.
Qed.

(** C8 as stated fails on the dormant-trait vector the program itself
    generates: dimension 296 is populated with [0 / 1000.0f]. *)
Lemma active_dimensions_not_nonzero_count :
  let v := create_holographic_vector (cstring "TRAIT_DORMANT") in
  active_dimensions v <> Z.of_nat (count_nonzero (data v)).
Proof. vm_compute. discriminate. Qed.

(** ** PatternStore *)

Lemma shift_prefix (l : list MemoryEntry) k :
  (S k <= length l)%nat ->
  fold_left shift_slot (seq 0 k) l = take k (drop 1 l) ++ drop k l.
Proof.
  induction k as [|k IH]; intros Hk.
  - reflexivity.
  - rewrite seq_S, fold_left_app, IH by lia. cbn [fold_left Nat.add].
    unfold shift_slot.
    assert (Hlen : length (take k (drop 1 l)) = k)
      by (rewrite length_take, length_drop; lia).
    destruct (lookup_lt_is_Some_2 l (S k)) as [x Hx]; [lia|].
    destruct (lookup_lt_is_Some_2 l k) as [y Hy]; [lia|].
    rewrite lookup_total_app_r by lia.
    rewrite insert_app_r_alt by lia.
    rewrite Hlen.
    replace (S k - k)%nat with 1%nat by lia.
    replace (k - k)%nat with 0%nat by lia.
    rewrite (drop_S l y k Hy). cbn [lookup_total list_lookup_total insert list_insert].
    rewrite (take_S_r (drop 1 l) k x) by (rewrite lookup_drop; exact Hx).
    rewrite <- app_assoc. cbn [app].
    pose proof (drop_S l x (S k) Hx) as Hd.
    rewrite Hd. cbn [lookup_total list_lookup_total].
    reflexivity.
Qed.

Lemma evict_oldest_stored hs :
  length (memory_pool hs) = MAX_MEMORY_ENTRIES ->
  memory_count hs = MAX_MEMORY_ENTRIES ->
  stored (evict_oldest hs) = drop 1 (stored hs)
  /\ length (memory_pool (evict_oldest hs)) = MAX_MEMORY_ENTRIES.
Proof.
  intros Hlen Hcount. unfold stored, evict_oldest. cbn [memory_pool memory_count].
  rewrite shift_prefix by (rewrite Hlen; unfold MAX_MEMORY_ENTRIES; lia).
  rewrite Hcount, (take_ge (memory_pool hs)) by lia.
  assert (Hl : length (take (MAX_MEMORY_ENTRIES - 1) (drop 1 (memory_pool hs)))
               = (MAX_MEMORY_ENTRIES - 1)%nat)
    by (rewrite length_take, length_drop, Hlen; lia).
  split.
  - rewrite take_app_le by lia. rewrite take_ge by lia.
    apply take_ge. rewrite length_drop. lia.
  - rewrite length_app, Hl, length_drop, Hlen. unfold MAX_MEMORY_ENTRIES. lia.
Qed.

Lemma encode_holographic_memory_stored input output hs :
  store_wf hs ->
  let hs' := encode_holographic_memory input output hs in
  store_wf hs'
  /\ exists e, holds e (input, output)
     /\ stored hs'
        = (if (MAX_MEMORY_ENTRIES <=? memory_count hs)%nat
           then drop 1 (stored hs) else stored hs) ++ [e].
Proof.
  intros [Hlen Hcount] hs'. subst hs'. unfold encode_holographic_memory.
  set (entry hs0 := {| input_pattern := input; output_pattern := output;
                       timestamp := global_timestamp hs0; entry_valid := 1 |}).
  assert (Hpush : forall hs0 : HolographicSystem,
             length (memory_pool hs0) = MAX_MEMORY_ENTRIES ->
             (memory_count hs0 < MAX_MEMORY_ENTRIES)%nat ->
             take (S (memory_count hs0))
                  (<[memory_count hs0 := entry hs0]> (memory_pool hs0))
             = stored hs0 ++ [entry hs0]).
  { intros hs0 Hl Hc. unfold stored.
    rewrite (take_S_r _ _ (entry hs0)) by (apply list_lookup_insert_eq; lia).
    rewrite take_insert_ge by lia. reflexivity. }
  destruct (MAX_MEMORY_ENTRIES <=? memory_count hs)%nat eqn:Hfull.
  - apply Nat.leb_le in Hfull.
    destruct (evict_oldest_stored hs Hlen) as [Hst Hl]; [lia|].
    assert (Hc : memory_count (evict_oldest hs) = (MAX_MEMORY_ENTRIES - 1)%nat)
      by reflexivity.
    split.
    + split; cbn [memory_pool memory_count].
      * rewrite length_insert. exact Hl.
      * rewrite Hc. unfold MAX_MEMORY_ENTRIES. lia.
    + exists (entry (evict_oldest hs)). split; [repeat split|].
      unfold stored at 1. cbn [memory_pool memory_count].
      rewrite <- Hst.
      apply (Hpush (evict_oldest hs) Hl).
      rewrite Hc. unfold MAX_MEMORY_ENTRIES. lia.
  - apply Nat.leb_gt in Hfull.
    split.
    + split; cbn [memory_pool memory_count].
      * rewrite length_insert. exact Hlen.
      * lia.
    + exists (entry hs). split; [repeat split|].
      unfold stored at 1. cbn [memory_pool memory_count].
      apply (Hpush hs Hlen Hfull).
Qed.

Lemma stored_length hs :
  store_wf hs -> length (stored hs) = memory_count hs.
Proof. intros [Hlen Hcount]. unfold stored. rewrite length_take. lia. Qed.

Lemma most_recent_snoc {A} (l : list A) (x : A) :
  most_recent (l ++ [x])
  = (if (MAX_MEMORY_ENTRIES <=? length (most_recent l))%nat
     then drop 1 (most_recent l) else most_recent l) ++ [x].
Proof.
  unfold most_recent. rewrite length_drop, length_app. cbn [length].
  destruct (MAX_MEMORY_ENTRIES <=? length l - (length l - MAX_MEMORY_ENTRIES))%nat
    eqn:Hfull.
  - apply Nat.leb_le in Hfull. unfold MAX_MEMORY_ENTRIES in *.
    rewrite drop_drop, drop_app_le by lia.
    f_equal. f_equal. lia.
  - apply Nat.leb_gt in Hfull. unfold MAX_MEMORY_ENTRIES in *.
    rewrite drop_app_le by lia.
    f_equal. f_equal. lia.
Qed.

(** The store always holds the most recent [MAX_MEMORY_ENTRIES] records, in
    insertion order. *)
Lemma encode_all_stored records : forall hs before,
  store_wf hs ->
  Forall2 holds (stored hs) (most_recent before) ->
  store_wf (encode_all records hs)
  /\ Forall2 holds (stored (encode_all records hs)) (most_recent (before ++ records)).
Proof.
  induction records as [|p records IH]; intros hs before Hwf Hrel.
  - rewrite app_nil_r. split; assumption.
  - cbn [encode_all fold_left].
    destruct (encode_holographic_memory_stored (fst p) (snd p) hs Hwf)
      as [Hwf' [e [He Hst]]].
    replace (before ++ p :: records) with ((before ++ [p]) ++ records)
      by (rewrite <- app_assoc; reflexivity).
    apply IH; [exact Hwf'|].
    rewrite Hst, most_recent_snoc.
    rewrite <- (Forall2_length _ _ _ Hrel), (stored_length hs Hwf).
    apply Forall2_app.
    + destruct (MAX_MEMORY_ENTRIES <=? memory_count hs)%nat.
      * apply Forall2_drop. exact Hrel.
      * exact Hrel.
    + constructor; [|constructor]. destruct p. exact He.
Qed.

Lemma retrieve_loop_miss pool hash n :
  (forall i, (i < n)%nat -> hash_signature (input_pattern (pool !!! i)) <> hash) ->
  retrieve_loop pool hash n = None.
Proof.
  induction n as [|n IH]; intros Hne; [reflexivity|].
  cbn [retrieve_loop].
  destruct (Z.eqb_spec (hash_signature (input_pattern (pool !!! n))) hash) as [Heq|_].
  - exfalso. apply (Hne n); [lia | exact Heq].
  - rewrite andb_false_r. apply IH. intros i Hi. apply Hne. lia.
Qed.

Lemma retrieve_loop_newest pool hash n :
  entry_valid (pool !!! n) = 1 ->
  hash_signature (input_pattern (pool !!! n)) = hash ->
  retrieve_loop pool hash (S n) = Some n.
Proof.
  intros Hv Hh. cbn [retrieve_loop]. rewrite Hv, Hh, Z.eqb_refl. reflexivity.
Qed.

Lemma stored_slot hs i e :
  stored hs !! i = Some e -> memory_pool hs !!! i = e /\ (i < memory_count hs)%nat.
Proof.
  unfold stored. intros H.
  apply lookup_take_Some in H as [H Hi].
  split; [apply list_lookup_total_correct; exact H | exact Hi].
Qed.

(** C2: 129 insertions into an empty 128-slot store leave 128 records; the
    first inserted signature is no longer found when no later input shares
    it, and the signature of the last insertion finds the last output. *)
Theorem store_eviction (hs : HolographicSystem)
    (first : HolographicVector * HolographicVector)
    (middle : list (HolographicVector * HolographicVector))
    (last : HolographicVector * HolographicVector) :
  length (memory_pool hs) = MAX_MEMORY_ENTRIES ->
  memory_count hs = 0%nat ->
  length middle = (MAX_MEMORY_ENTRIES - 1)%nat ->
  Forall (fun p => hash_signature (fst p) <> hash_signature (fst first))
         (middle ++ [last]) ->
  let hs' := encode_all (first :: middle ++ [last]) hs in
  memory_count hs' = MAX_MEMORY_ENTRIES
  /\ retrieve_holographic_memory (hash_signature (fst first)) hs' = None
  /\ retrieved_vector (hash_signature (fst last)) hs' = Some (snd last).
Proof.
  intros Hlen Hcount Hmid Hdistinct hs'.
  assert (Hwf : store_wf hs) by (split; [exact Hlen | lia]).
  destruct (encode_all_stored (first :: middle ++ [last]) hs [] Hwf) as [Hwf' Hrel].
  { unfold stored. rewrite Hcount. constructor. }
  fold hs' in Hwf', Hrel. cbn [app] in Hrel.
  assert (Hrecent : most_recent (first :: middle ++ [last]) = middle ++ [last]).
  { unfold most_recent. cbn [length]. rewrite length_app, Hmid. cbn [length].
    unfold MAX_MEMORY_ENTRIES. reflexivity. }
  rewrite Hrecent in Hrel.
  assert (Hn : memory_count hs' = MAX_MEMORY_ENTRIES).
  { rewrite <- (stored_length hs' Hwf'), (Forall2_length _ _ _ Hrel).
    rewrite length_app, Hmid. cbn [length]. unfold MAX_MEMORY_ENTRIES. lia. }
  split; [exact Hn|]. split.
  - unfold retrieve_holographic_memory. apply retrieve_loop_miss.
    intros i Hi.
    destruct (lookup_lt_is_Some_2 (stored hs') i) as [e He];
      [rewrite (stored_length hs' Hwf'); exact Hi|].
    destruct (Forall2_lookup_l _ _ _ _ _ Hrel He) as [p [Hp [Hin _]]].
    destruct (stored_slot hs' i e He) as [-> _].
    rewrite Hin.
    exact (proj1 (Forall_lookup _ _) Hdistinct i p Hp).
  - assert (Hlast : (middle ++ [last]) !! (MAX_MEMORY_ENTRIES - 1)%nat = Some last).
    { rewrite lookup_app_r by lia. rewrite Hmid, Nat.sub_diag. reflexivity. }
    destruct (Forall2_lookup_r _ _ _ _ _ Hrel Hlast) as [e [He [Hin [Hout Hval]]]].
    destruct (stored_slot hs' _ e He) as [Hslot _].
    unfold retrieved_vector, retrieve_holographic_memory.
    rewrite Hn. change MAX_MEMORY_ENTRIES with (S (MAX_MEMORY_ENTRIES - 1)) at 1.
    rewrite (retrieve_loop_newest _ _ (MAX_MEMORY_ENTRIES - 1));
      [| rewrite Hslot; exact Hval | rewrite Hslot, Hin; reflexivity].
    cbn [fmap option_fmap option_map]. rewrite Hslot, Hout. reflexivity.
Qed.

Lemma store_eviction_witness :
  let first := (create_holographic_vector [0], create_holographic_vector [0]) in
  let middle := take 127 (drop 1 sample_records) in
  let last := (create_holographic_vector [128], create_holographic_vector [128]) in
  let hs' := encode_all (first :: middle ++ [last]) (holo_system boot) in
  memory_count hs' = MAX_MEMORY_ENTRIES
  /\ retrieve_holographic_memory (hash_signature (fst first)) hs' = None
  /\ retrieved_vector (hash_signature (fst last)) hs' = Some (snd last).
Proof.
  intros first middle last.
  apply (store_eviction (holo_system boot) first middle last).
  - reflexivity.
  - reflexivity.
  - vm_compute. reflexivity.
  - apply (bool_decide_unpack _). vm_compute. reflexivity.
Defined.

(** ** Entity arena: reads after writes *)

Lemma pool_update_entity_eq i f K :
  (i < length (entity_pool K))%nat ->
  entity_pool (update_entity i f K) !!! i = f (entity_pool K !!! i).
Proof. intros Hi. apply list_lookup_total_alter_eq. exact Hi. Qed.

Lemma pool_update_entity_ne i j f K :
  i <> j -> entity_pool (update_entity i f K) !!! j = entity_pool K !!! j.
Proof. intros Hne. apply list_lookup_total_alter_ne. exact Hne. Qed.

Lemma length_update_entity i f K :
  length (entity_pool (update_entity i f K)) = length (entity_pool K).
Proof. apply length_alter. Qed.

Lemma spawn_entity_full K :
  (MAX_ENTITIES <= active_entity_count K)%nat -> spawn_entity K = (K, None).
Proof.
  intros Hfull. unfold spawn_entity.
  destruct (Nat.leb_spec MAX_ENTITIES (active_entity_count K)); [reflexivity | lia].
Qed.

Lemma spawn_entity_room K :
  (active_entity_count K < MAX_ENTITIES)%nat ->
  spawn_entity K
  = ({| holo_system := fst (find_genome (holo_system K));
        entity_pool :=
          alter (spawn_slot (active_entity_count K)
                            (snd (find_genome (holo_system K))))
                (active_entity_count K) (entity_pool K);
        active_entity_count := S (active_entity_count K) |},
     Some (active_entity_count K)).
Proof.
  intros Hroom. unfold spawn_entity.
  destruct (Nat.leb_spec MAX_ENTITIES (active_entity_count K)); [lia|].
  destruct (find_genome (holo_system K)) as [hs g]. reflexivity.
Qed.

(** ** The rule chain *)

Lemma flag_range b : flag b = 0 \/ flag b = 1.
Proof. unfold flag. destruct (b =? 0); auto. Qed.

Lemma select_rule_spawn K i :
  select_rule K i = RuleSpawn
  <-> is_active (entity_pool K !!! i) <> 0
      /\ 2 <= neighbor_active K i
      /\ (active_entity_count K < MAX_ENTITIES - 1)%nat.
Proof.
  unfold select_rule.
  destruct (Z.eqb_spec (is_active (entity_pool K !!! i)) 0) as [Hz|Hnz];
    cbn [negb andb].
  - split.
    + destruct (0 <? neighbor_active K i); discriminate.
    + intros [Hne _]. contradiction.
  - destruct (Z.eqb_spec (neighbor_active K i) 0) as [Hn0|Hn0].
    + split; [discriminate|]. intros (_ & Hn & _). lia.
    + destruct (Z.leb_spec 2 (neighbor_active K i)) as [Hn|Hn]; cbn [andb].
      * destruct (Nat.ltb_spec (active_entity_count K) (MAX_ENTITIES - 1)).
        -- split; [intros _; auto | reflexivity].
        -- split; [discriminate|]. intros (_ & _ & Hc). lia.
      * split; [discriminate|]. intros (_ & Hn2 & _). lia.
Qed.

(** C3, as the code has it: the spawn rule fires exactly for an active
    entity with two active neighbours while [active_entity_count] is below
    [MAX_ENTITIES - 1] = 31 (neither earlier rule can match then); it is the
    only rule that changes the count. *)
Theorem spawn_rule_fires (K : Kernel) (i : nat) (B : NextState) :
  (select_rule K i = RuleSpawn
   <-> is_active (entity_pool K !!! i) <> 0
       /\ 2 <= neighbor_active K i
       /\ (active_entity_count K < 31)%nat)
  /\ (select_rule K i = RuleSpawn -> apply_rule i (K, B) = (spawn_rule i K, B))
  /\ (select_rule K i <> RuleSpawn ->
      active_entity_count (fst (apply_rule i (K, B))) = active_entity_count K).
Proof.
  split; [apply select_rule_spawn|]. split.
  - intros H. unfold apply_rule. rewrite H. reflexivity.
  - intros H. unfold apply_rule.
    destruct (select_rule K i); try reflexivity. contradiction.
Qed.

Lemma spawn_rule_fires_witness :
  apply_rule 0 (one_entity, fresh_next) = (spawn_rule 0 one_entity, fresh_next).
Proof.
  apply (proj1 (proj2 (spawn_rule_fires one_entity 0 fresh_next))).
  vm_compute. reflexivity.
Defined.

(** C3 as stated fails on a ring of 31: slot 31 is free and the entity at
    index 0 is active with two active neighbours, yet no rule fires. *)
Lemma spawn_rule_needs_two_free_slots :
  ~ (select_rule full_ring 0 = RuleSpawn
     <-> is_active (entity_pool full_ring !!! 0%nat) <> 0
         /\ 2 <= neighbor_active full_ring 0
         /\ (active_entity_count full_ring < MAX_ENTITIES)%nat).
Proof.
  assert (Hall : select_rule full_ring 0 = RuleNone
                 /\ is_active (entity_pool full_ring !!! 0%nat) = 1
                 /\ neighbor_active full_ring 0 = 2
                 /\ active_entity_count full_ring = 31%nat)
    by (vm_compute; repeat split; reflexivity).
  destruct Hall as (Hrule & Hact & Hn & Hc).
  intros [_ H].
  assert (Hspawn : select_rule full_ring 0 = RuleSpawn).
  { apply H. split; [|split].
    - rewrite Hact. discriminate.
    - rewrite Hn. lia.
    - rewrite Hc. unfold MAX_ENTITIES. lia. }
  congruence.
Qed.

(** C9: when the spawn rule has fired, [spawn_entity] does not take its
    pool-full branch: it returns the slot at [active_entity_count] and
    advances the count. *)
Theorem spawn_from_update_succeeds (K : Kernel) (i : nat) :
  select_rule K i = RuleSpawn ->
  snd (spawn_entity K) = Some (active_entity_count K)
  /\ active_entity_count (fst (spawn_entity K)) = S (active_entity_count K).
Proof.
  intros H. apply select_rule_spawn in H as (_ & _ & Hc).
  rewrite spawn_entity_room by (unfold MAX_ENTITIES in *; lia).
  split; reflexivity.
Qed.

Lemma spawn_from_update_succeeds_witness :
  snd (spawn_entity one_entity) = Some 1%nat
  /\ active_entity_count (fst (spawn_entity one_entity)) = 2%nat.
Proof.
  apply (spawn_from_update_succeeds one_entity 0).
  vm_compute. reflexivity.
Defined.

(** ** Spawning and mutation *)

Lemma mutate_dimension tick v :
  length (data v) = HOLOGRAPHIC_DIMENSIONS ->
  let dim := Z.to_nat (tick mod Z.of_nat HOLOGRAPHIC_DIMENSIONS) in
  (dim < HOLOGRAPHIC_DIMENSIONS)%nat
  /\ data (mutate tick v) !!! dim = F32.neg (data v !!! dim)
  /\ (forall j, j <> dim -> data (mutate tick v) !! j = data v !! j)
  /\ length (data (mutate tick v)) = length (data v).
Proof.
  intros Hlen dim.
  assert (Hdim : (dim < HOLOGRAPHIC_DIMENSIONS)%nat).
  { unfold dim, HOLOGRAPHIC_DIMENSIONS.
    pose proof (Z.mod_pos_bound tick (Z.of_nat 512)). lia. }
  unfold mutate. cbn [data]. fold dim.
  split; [exact Hdim|]. split; [|split].
  - apply list_lookup_total_insert_eq. lia.
  - intros j Hj. apply list_lookup_insert_ne. auto.
  - apply length_insert.
Qed.

(** The spawn rule with room in the pool, statement by statement. *)
Lemma spawn_rule_room i K :
  (active_entity_count K < MAX_ENTITIES)%nat ->
  let c := active_entity_count K in
  let hs := fst (find_genome (holo_system K)) in
  let K1 := {| holo_system := hs;
               entity_pool :=
                 alter (spawn_slot c (snd (find_genome (holo_system K)))) c
                       (entity_pool K);
               active_entity_count := S c |} in
  spawn_rule i K
  = update_entity i
      (fun e => set_fitness_score (u32 (fitness_score e + 10))
                  (set_spawn_count (u32 (spawn_count e + 1)) e))
      (update_entity c
         (inherit (global_timestamp hs) (entity_pool K1 !!! i)) K1).
Proof.
  intros Hroom c hs K1. unfold spawn_rule.
  rewrite spawn_entity_room by exact Hroom. reflexivity.
Qed.

Lemma spawn_rule_child i K :
  (i < active_entity_count K)%nat ->
  (active_entity_count K < MAX_ENTITIES)%nat ->
  length (entity_pool K) = MAX_ENTITIES ->
  let c := active_entity_count K in
  let K' := spawn_rule i K in
  entity_pool K' !!! c
  = inherit (global_timestamp (holo_system K')) (entity_pool K !!! i)
      (spawn_slot c (snd (find_genome (holo_system K))) (entity_pool K !!! c))
  /\ holo_system K' = fst (find_genome (holo_system K))
  /\ active_entity_count K' = S c.
Proof.
  intros Hi Hroom Hlen c K'. subst K'.
  rewrite spawn_rule_room by exact Hroom. fold c.
  split; [|split; reflexivity].
  rewrite pool_update_entity_ne by (unfold c; lia).
  rewrite pool_update_entity_eq by (cbn [entity_pool]; rewrite length_alter; unfold c; lia).
  cbn [entity_pool holo_system update_entity].
  rewrite (list_lookup_total_alter_ne _ _ c i) by (unfold c; lia).
  rewrite list_lookup_total_alter_eq by (unfold c; lia).
  reflexivity.
Qed.

Lemma land_lxor_disjoint a c m :
  Z.land c m = 0 -> Z.land (Z.lxor a c) m = Z.land a m.
Proof.
  intros Hc. apply Z.bits_inj'. intros n Hn.
  assert (Hbit : Z.testbit c n && Z.testbit m n = false)
    by (rewrite <- Z.land_spec, Hc; apply Z.bits_0).
  rewrite !Z.land_spec, Z.lxor_spec.
  destruct (Z.testbit a n), (Z.testbit c n), (Z.testbit m n);
    try reflexivity; discriminate Hbit.
Qed.

(** Negation changes the sign bit and leaves exponent and mantissa. *)
Lemma neg_fields x :
  Z.testbit (F32.neg x) 31 = negb (Z.testbit x 31)
  /\ Z.land (Z.shiftr (F32.neg x) 23) 0xff = Z.land (Z.shiftr x 23) 0xff
  /\ Z.land (F32.neg x) 0x7fffff = Z.land x 0x7fffff.
Proof.
  unfold F32.neg. split; [|split].
  - rewrite Z.lxor_spec. change (Z.testbit 0x80000000 31) with true.
    apply xorb_true_r.
  - rewrite Z.shiftr_lxor. apply land_lxor_disjoint. reflexivity.
  - apply land_lxor_disjoint. reflexivity.
Qed.

(** As floats, [-x == x] holds exactly for the two zeros. *)
Lemma neg_float_eq x :
  float_eq (F32.neg x) x = negb (F32.nonzero x).
Proof.
  unfold float_eq, F32.nonzero, F32.decode.
  destruct (neg_fields x) as (-> & -> & ->).
  destruct (Z.testbit x 31);
    destruct (Z.land (Z.shiftr x 23) 255 =? 0);
    [destruct (Z.land x 8388607); reflexivity | |
     destruct (Z.land x 8388607); reflexivity | ];
    (destruct (Z.land (Z.shiftr x 23) 255 =? 255);
     [destruct (Z.land x 8388607 =? 0); reflexivity
     |destruct (Z.land x 8388607 + 8388608); reflexivity]).
Qed.

Lemma filter_none {A} (P : A -> bool) l :
  (forall x, In x l -> P x = false) -> List.filter P l = [].
Proof.
  induction l as [|x l IH]; intros H; [reflexivity|].
  cbn [List.filter]. rewrite (H x) by (left; reflexivity).
  apply IH. intros y Hy. apply H. right. exact Hy.
Qed.

Lemma filter_seq_single (P : nat -> bool) n d :
  (d < n)%nat ->
  (forall j, (j < n)%nat -> j <> d -> P j = false) ->
  List.filter P (seq 0 n) = if P d then [d] else [].
Proof.
  intros Hd Hrest.
  replace n with (d + S (n - S d))%nat by lia.
  rewrite seq_app, <- cons_seq, List.filter_app. cbn [List.filter Nat.add].
  rewrite (filter_none P (seq 0 d)), (filter_none P (seq (S d) (n - S d))).
  - destruct (P d); reflexivity.
  - intros j Hj. apply in_seq in Hj. apply Hrest; lia.
  - intros j Hj. apply in_seq in Hj. apply Hrest; lia.
Qed.

Lemma find_genome_clock hs :
  global_timestamp (fst (find_genome hs))
  = match retrieve_holographic_memory genome_hash hs with
    | Some _ => global_timestamp hs
    | None => u32 (global_timestamp hs + 1)
    end.
Proof.
  unfold find_genome. fold genome_hash.
  destruct (retrieve_holographic_memory genome_hash hs); cbn [fst];
    [reflexivity|].
  unfold encode_holographic_memory.
  destruct (MAX_MEMORY_ENTRIES <=? memory_count hs)%nat; reflexivity.
Qed.

(** C5, as the code behaves: the child's state is the parent's with the
    sign bit of one component flipped and every other component unchanged.
    The component is the one at [t mod 512], where [t] is the clock the
    mutation reads, after [spawn_entity] has returned: the clock at the
    time the rule fired when the genome record is in the store, and one
    more when it is not, because [spawn_entity] then inserts the record.
    As floats the child differs from the parent in that component exactly
    when the parent's component is not a zero ([-0.0 == 0.0]); so for a
    parent without NaN components the child differs in one dimension or in
    none.  The length hypothesis is the array type [float data[512]]. *)
Theorem spawn_mutates_one_dimension (K : Kernel) (i : nat) :
  select_rule K i = RuleSpawn ->
  (i < active_entity_count K)%nat ->
  length (entity_pool K) = MAX_ENTITIES ->
  length (data (state (entity_pool K !!! i))) = HOLOGRAPHIC_DIMENSIONS ->
  let t0 := global_timestamp (holo_system K) in
  let K' := spawn_rule i K in
  let t := global_timestamp (holo_system K') in
  let dim := Z.to_nat (t mod 512) in
  let parent := data (state (entity_pool K !!! i)) in
  let child := data (state (entity_pool K' !!! active_entity_count K)) in
  t = match retrieve_holographic_memory genome_hash (holo_system K) with
      | Some _ => t0
      | None => u32 (t0 + 1)
      end
  /\ (dim < 512)%nat
  /\ child !!! dim = F32.neg (parent !!! dim)
  /\ (forall j, j <> dim -> child !! j = parent !! j)
  /\ length child = length parent
  /\ float_eq (child !!! dim) (parent !!! dim)
     = negb (F32.nonzero (parent !!! dim))
  /\ (forallb (fun x => float_eq x x) parent = true ->
      differing child parent
      = if F32.nonzero (parent !!! dim) then [dim] else []).
Proof.
  intros Hrule Hi Hlen Hdata t0 K' t dim parent child.
  apply select_rule_spawn in Hrule as (_ & _ & Hc).
  assert (Hroom : (active_entity_count K < MAX_ENTITIES)%nat)
    by (unfold MAX_ENTITIES in *; lia).
  destruct (spawn_rule_child i K Hi Hroom Hlen) as (Hchild & Hhs & _).
  fold K' in Hchild, Hhs. fold t in Hchild.
  assert (Hstate : child = data (mutate t (state (entity_pool K !!! i)))).
  { unfold child. rewrite Hchild. reflexivity. }
  destruct (mutate_dimension t (state (entity_pool K !!! i)) Hdata)
    as (Hdim & Hneg & Hrest & Hl).
  change (Z.of_nat HOLOGRAPHIC_DIMENSIONS) with 512 in Hdim, Hneg, Hrest.
  fold dim in Hdim, Hneg, Hrest. rewrite <- Hstate in Hneg, Hrest, Hl.
  fold parent in Hneg, Hrest, Hl, Hdata.
  assert (Hfloat : float_eq (child !!! dim) (parent !!! dim)
                   = negb (F32.nonzero (parent !!! dim)))
    by (rewrite Hneg; apply neg_float_eq).
  clearbody child parent dim.
  split; [unfold t; rewrite Hhs; apply find_genome_clock|].
  split; [exact Hdim|]. split; [exact Hneg|]. split; [exact Hrest|].
  split; [exact Hl|]. split; [exact Hfloat|].
  intros Hnan. unfold differing.
  rewrite filter_seq_single with (d := dim); [|exact Hdim|].
  - rewrite Hfloat, negb_involutive. reflexivity.
  - intros j Hj Hne.
    assert (Hsame : child !!! j = parent !!! j).
    { rewrite !list_lookup_total_alt, (Hrest j Hne). reflexivity. }
    rewrite Hsame. apply negb_false_iff.
    rewrite forallb_forall in Hnan. apply Hnan.
    apply list_elem_of_In, list_elem_of_lookup_total_2. rewrite Hdata. exact Hj.
Qed.

Lemma spawn_mutates_one_dimension_witness :
  let K := at_tick 3 (sample_arena [sample_entity 0 1 0 0]) in
  let parent := data (state (entity_pool K !!! 0%nat)) in
  let child :=
    data (state (entity_pool (spawn_rule 0 K) !!! active_entity_count K)) in
  global_timestamp (holo_system (spawn_rule 0 K)) = 4
  /\ child !!! 4%nat = F32.neg (parent !!! 4%nat)
  /\ float_eq (child !!! 4%nat) (parent !!! 4%nat) = false.
Proof.
  intros K parent child.
  assert (H := spawn_mutates_one_dimension K 0).
  cbv zeta in H.
  destruct H as (Ht & _ & Hneg & _ & _ & Hfloat & _).
  - vm_compute. reflexivity.
  - vm_compute. lia.
  - vm_compute. reflexivity.
  - vm_compute. reflexivity.
  - assert (Hclock : global_timestamp (holo_system (spawn_rule 0 K)) = 4)
      by (rewrite Ht; vm_compute; reflexivity).
    rewrite Hclock in Hneg, Hfloat.
    change (Z.to_nat (4 mod 512)) with 4%nat in Hneg, Hfloat.
    split; [exact Hclock|]. split; [exact Hneg|].
    unfold child, parent. rewrite Hfloat. vm_compute. reflexivity.
Defined.

(** C5 as the spec words it fails in both of its parts.  At the first
    update [kmain] runs (the start-up state with the clock at 500001, the
    genome stored) entity 0 spawns and dimension 289 is flipped, which is
    0.0 in the parent: the child differs from the parent in no dimension.
    With the clock at 3 and no genome record in the store, [spawn_entity]
    advances the clock before the mutation reads it: the child differs from
    the parent in dimension 4, not in dimension 3. *)
Lemma spawn_mutation_not_one_dimension :
  (let K := at_tick 500001 booted in
   let parent := data (state (entity_pool K !!! 0%nat)) in
   let child :=
     data (state (entity_pool (spawn_rule 0 K) !!! active_entity_count K)) in
   select_rule K 0 = RuleSpawn
   /\ global_timestamp (holo_system K) mod 512 = 289
   /\ differing child parent = [])
  /\ (let K := at_tick 3 (sample_arena [sample_entity 0 1 0 0]) in
      let parent := data (state (entity_pool K !!! 0%nat)) in
      let child :=
        data (state (entity_pool (spawn_rule 0 K) !!! active_entity_count K)) in
      select_rule K 0 = RuleSpawn
      /\ global_timestamp (holo_system K) mod 512 = 3
      /\ differing child parent = [4%nat]).
Proof. vm_compute. repeat split; reflexivity. Qed.

(** ** One iteration of the evaluation loop *)

Lemma counters_only_refl e : counters_only e e.
Proof. repeat split. Qed.

Lemma counters_only_trans e1 e2 e3 :
  counters_only e1 e2 -> counters_only e2 e3 -> counters_only e1 e3.
Proof.
  intros (Hf1 & Hl1 & Hm1) (Hf2 & Hl2 & Hm2).
  repeat split; congruence.
Qed.

Lemma step_shape_refl i K : step_shape i K K.
Proof.
  constructor; try reflexivity.
  - split; [lia | left; reflexivity].
  - apply counters_only_refl.
  - intros j Hj. lia.
Qed.

Lemma step_shape_trans i K K' K'' :
  (i < active_entity_count K)%nat ->
  step_shape i K K' -> step_shape i K' K'' -> step_shape i K K''.
Proof.
  intros Hi [Hl1 [Hc1 Hb1] Ho1 Hs1 Hch1] [Hl2 [Hc2 Hb2] Ho2 Hs2 Hch2].
  constructor.
  - congruence.
  - split; [lia|]. destruct Hb2 as [Hb2|Hb2]; [|right; exact Hb2].
    destruct Hb1 as [Hb1|Hb1]; [left; congruence | right; lia].
  - intros j Hne Hj. rewrite Ho2 by (auto; lia). apply Ho1; auto.
  - eapply counters_only_trans; eassumption.
  - intros j Hj.
    destruct (Nat.lt_ge_cases j (active_entity_count K')) as [Hlt|Hge].
    + rewrite Ho2 by lia. apply Hch1. lia.
    + apply Hch2. lia.
Qed.

Lemma step_shape_update_entity i f K :
  (forall e, counters_only e (f e)) ->
  (i < length (entity_pool K))%nat ->
  step_shape i K (update_entity i f K).
Proof.
  intros Hf Hi. constructor.
  - apply length_update_entity.
  - split; [reflexivity | left; reflexivity].
  - intros j Hne _. apply pool_update_entity_ne. auto.
  - rewrite pool_update_entity_eq by exact Hi. apply Hf.
  - intros j Hj. cbn [update_entity active_entity_count] in Hj. lia.
Qed.

Lemma step_shape_spawn_rule i K :
  (i < active_entity_count K)%nat ->
  (active_entity_count K < MAX_ENTITIES - 1)%nat ->
  length (entity_pool K) = MAX_ENTITIES ->
  step_shape i K (spawn_rule i K).
Proof.
  intros Hi Hc Hlen.
  assert (Hroom : (active_entity_count K < MAX_ENTITIES)%nat) by lia.
  destruct (spawn_rule_child i K Hi Hroom Hlen) as (Hchild & _ & Hcount).
  pose proof (spawn_rule_room i K Hroom) as Hform. cbv zeta in Hform.
  constructor.
  - rewrite Hform, !length_update_entity. cbn [entity_pool].
    apply length_alter.
  - rewrite Hcount. split; [lia | right; lia].
  - intros j Hne Hj. rewrite Hform.
    rewrite !pool_update_entity_ne by lia.
    cbn [entity_pool]. apply list_lookup_total_alter_ne. lia.
  - rewrite Hform.
    rewrite pool_update_entity_eq
      by (rewrite length_update_entity; cbn [entity_pool]; rewrite length_alter; lia).
    rewrite pool_update_entity_ne by lia.
    cbn [entity_pool]. rewrite list_lookup_total_alter_ne by lia.
    repeat split.
  - intros j Hj. rewrite Hcount in Hj.
    assert (j = active_entity_count K) as -> by lia.
    rewrite Hchild. split; reflexivity.
Qed.

Lemma step_shape_apply_rule i K B :
  (i < active_entity_count K)%nat ->
  arena_wf K ->
  step_shape i K (fst (apply_rule i (K, B))).
Proof.
  intros Hi [Hlen Hcap]. unfold apply_rule.
  destruct (select_rule K i) eqn:Hrule; cbn [fst].
  - apply step_shape_update_entity; [intros e; repeat split | lia].
  - apply step_shape_update_entity; [intros e; repeat split | lia].
  - apply select_rule_spawn in Hrule as (_ & _ & Hc).
    apply step_shape_spawn_rule; assumption.
  - apply step_shape_refl.
Qed.

Lemma step_shape_align_task i K B :
  (i < length (entity_pool K))%nat ->
  step_shape i K (fst (align_task i (K, B))).
Proof.
  intros Hi. unfold align_task.
  destruct (valid (task_vector (entity_pool K !!! i)) =? 0); cbn [fst].
  - apply step_shape_refl.
  - destruct (F32.gt _ _); cbn [fst].
    + apply step_shape_update_entity; [intros e; repeat split | exact Hi].
    + apply step_shape_refl.
Qed.

Lemma eval_entity_fst i K B :
  fst (eval_entity i (K, B))
  = update_entity i gc_mark
      (fst (align_task i
              (apply_rule i
                 (update_entity i (fun e => set_age (u32 (age e + 1)) e) K,
                  save_next i (entity_pool K !!! i) B)))).
Proof.
  unfold eval_entity.
  destruct (align_task i _) as [K2 B2]. reflexivity.
Qed.

Lemma gc_mark_marked e :
  marked_for_gc (gc_mark e)
  = if gc_check (gc_mark e) then 1 else marked_for_gc e.
Proof.
  unfold gc_mark. destruct (gc_check e) eqn:Hc.
  - change (gc_check (set_marked_for_gc 1 e)) with (gc_check e). rewrite Hc. reflexivity.
  - rewrite Hc. reflexivity.
Qed.

Lemma gc_mark_frame e :
  frame_of (gc_mark e) = frame_of e /\ live_of (gc_mark e) = live_of e.
Proof. unfold gc_mark. destruct (gc_check e); split; reflexivity. Qed.

(** The statements of an iteration up to the mark. *)
Lemma step_shape_before_mark i K B :
  (i < active_entity_count K)%nat ->
  arena_wf K ->
  step_shape i K
    (fst (align_task i
            (apply_rule i
               (update_entity i (fun e => set_age (u32 (age e + 1)) e) K,
                save_next i (entity_pool K !!! i) B)))).
Proof.
  intros Hi [Hlen Hcap].
  set (Ka := update_entity i (fun e => set_age (u32 (age e + 1)) e) K).
  set (Ba := save_next i (entity_pool K !!! i) B).
  assert (Hsa : step_shape i K Ka)
    by (apply step_shape_update_entity; [intros e; repeat split | lia]).
  assert (Hwa : arena_wf Ka)
    by (split; [unfold Ka; rewrite length_update_entity; exact Hlen | exact Hcap]).
  assert (Hsb : step_shape i Ka (fst (apply_rule i (Ka, Ba))))
    by (apply step_shape_apply_rule; [exact Hi | exact Hwa]).
  destruct (apply_rule i (Ka, Ba)) as [Kb Bb] eqn:Hb. cbn [fst] in Hsb.
  assert (Hsc : step_shape i Kb (fst (align_task i (Kb, Bb)))).
  { apply step_shape_align_task.
    rewrite (shape_length _ _ _ Hsb). destruct Hwa as [Hla _]. lia. }
  eapply step_shape_trans; [exact Hi | exact Hsa |].
  eapply step_shape_trans; [exact Hi | exact Hsb | exact Hsc].
Qed.

Lemma frame_of_id e e' : frame_of e' = frame_of e -> id e' = id e.
Proof. unfold frame_of. intros H. injection H. auto. Qed.

Lemma origin_mark_child K0 j :
  (active_entity_count K0 <= j)%nat -> origin_mark K0 j = 0.
Proof.
  intros Hj. unfold origin_mark.
  destruct (Nat.ltb_spec j (active_entity_count K0)); [lia | reflexivity].
Qed.

(** ** The evaluation loop *)

Lemma loop_inv_start K : arena_wf K -> loop_inv K 0 K.
Proof.
  intros Hwf. constructor.
  - exact Hwf.
  - lia.
  - lia.
  - reflexivity.
  - reflexivity.
  - intros j Hj. lia.
  - intros j Hj. unfold origin_mark.
    destruct (Nat.ltb_spec j (active_entity_count K)); [reflexivity | lia].
  - intros j Hj. lia.
Qed.

Lemma loop_inv_step K0 i K B :
  loop_inv K0 i K ->
  (i < active_entity_count K)%nat ->
  loop_inv K0 (S i) (fst (eval_entity i (K, B))).
Proof.
  intros [[Hlen Hcap] Hidx Hcnt Hframe Hlive Hchild Hpend Hdone] Hi.
  rewrite eval_entity_fst.
  pose proof (step_shape_before_mark i K B Hi (conj Hlen Hcap))
    as [Hl [Hc Hb] Ho [Hsf [Hsl Hsm]] Hch].
  set (Km := fst (align_task i _)) in *.
  assert (Hil : (i < length (entity_pool Km))%nat) by lia.
  assert (Hself : entity_pool (update_entity i gc_mark Km) !!! i
                  = gc_mark (entity_pool Km !!! i))
    by (apply pool_update_entity_eq; exact Hil).
  assert (Hother : forall j, j <> i ->
             entity_pool (update_entity i gc_mark Km) !!! j = entity_pool Km !!! j)
    by (intros j Hne; apply pool_update_entity_ne; auto).
  destruct (gc_mark_frame (entity_pool Km !!! i)) as [Hgf Hgl].
  assert (Hcount : active_entity_count (update_entity i gc_mark Km)
                   = active_entity_count Km) by reflexivity.
  constructor; rewrite ?Hcount.
  - split; [rewrite length_update_entity; lia |].
    rewrite Hcount. destruct Hb as [Hb|Hb]; unfold MAX_ENTITIES in *; lia.
  - lia.
  - lia.
  - intros j Hj.
    destruct (Nat.eq_dec j i) as [->|Hne].
    + rewrite Hself, Hgf, Hsf. apply Hframe. exact Hj.
    + rewrite Hother, Ho by (auto; lia). apply Hframe. exact Hj.
  - intros j Hj.
    destruct (Nat.eq_dec j i) as [->|Hne].
    + rewrite Hself, Hgl, Hsl. apply Hlive. exact Hj.
    + rewrite Hother, Ho by (auto; lia). apply Hlive. exact Hj.
  - intros j Hj.
    destruct (Nat.eq_dec j i) as [->|Hne].
    + rewrite Hself. rewrite (frame_of_id _ _ Hgf), (frame_of_id _ _ Hsf).
      apply Hchild. lia.
    + rewrite Hother by auto.
      destruct (Nat.lt_ge_cases j (active_entity_count K)) as [Hlt|Hge].
      * rewrite Ho by auto. apply Hchild. lia.
      * apply Hch. lia.
  - intros j Hj.
    rewrite Hother by lia.
    destruct (Nat.lt_ge_cases j (active_entity_count K)) as [Hlt|Hge].
    + rewrite Ho by (auto; lia). apply Hpend. lia.
    + rewrite origin_mark_child by lia. apply Hch. lia.
  - intros j Hj.
    destruct (Nat.eq_dec j i) as [->|Hne].
    + rewrite Hself, gc_mark_marked, Hsm, Hpend by lia. reflexivity.
    + rewrite Hother, Ho by (auto; lia). apply Hdone. lia.
Qed.

(** With [MAX_ENTITIES] iterations allowed the loop runs until its guard
    fails: it leaves with every index below the final count visited. *)
Lemma eval_loop_inv K0 fuel : forall i st,
  loop_inv K0 i (fst st) ->
  (MAX_ENTITIES <= i + fuel)%nat ->
  loop_inv K0 (active_entity_count (fst (eval_loop fuel i st)))
              (fst (eval_loop fuel i st)).
Proof.
  induction fuel as [|fuel IH]; intros i [K B] Hinv Hfuel; cbn [eval_loop fst].
  - cbn [fst] in Hinv.
    destruct (inv_wf _ _ _ Hinv) as [_ Hcap].
    pose proof (inv_index _ _ _ Hinv).
    replace (active_entity_count K) with i by lia. exact Hinv.
  - cbn [fst] in Hinv.
    destruct (Nat.ltb_spec i (active_entity_count K)) as [Hlt|Hge].
    + apply IH; [|lia].
      destruct (eval_entity i (K, B)) as [K' B'] eqn:He.
      pose proof (loop_inv_step K0 i K B Hinv Hlt) as Hstep.
      rewrite He in Hstep. exact Hstep.
    + cbn [fst]. pose proof (inv_index _ _ _ Hinv).
      replace (active_entity_count K) with i by lia. exact Hinv.
Qed.

Lemma eval_phase_inv K :
  arena_wf K ->
  loop_inv K (active_entity_count (fst (eval_phase K))) (fst (eval_phase K)).
Proof.
  intros Hwf. unfold eval_phase.
  apply eval_loop_inv; [apply loop_inv_start; exact Hwf | lia].
Qed.

(** ** The apply phase *)

Lemma apply_next_keeps B i e :
  frame_of (apply_next B i e) = frame_of e
  /\ marked_for_gc (apply_next B i e) = marked_for_gc e
  /\ age (apply_next B i e) = age e
  /\ fitness_score (apply_next B i e) = fitness_score e.
Proof. repeat split. Qed.

Lemma apply_fold B n : forall K,
  (n <= length (entity_pool K))%nat ->
  let K' := fold_left (fun K i => update_entity i (apply_next B i) K) (seq 0 n) K in
  active_entity_count K' = active_entity_count K
  /\ holo_system K' = holo_system K
  /\ length (entity_pool K') = length (entity_pool K)
  /\ forall j, entity_pool K' !!! j
               = if (j <? n)%nat then apply_next B j (entity_pool K !!! j)
                 else entity_pool K !!! j.
Proof.
  induction n as [|n IH]; intros K Hn.
  - cbn. repeat split.
  - rewrite seq_S, fold_left_app. cbn [fold_left Nat.add].
    destruct (IH K) as (Hc & Hh & Hl & Hp); [lia|].
    set (Kn := fold_left _ (seq 0 n) K) in *.
    cbv zeta. repeat split.
    + exact Hc.
    + exact Hh.
    + rewrite length_update_entity. exact Hl.
    + intros j. destruct (Nat.eq_dec j n) as [->|Hne].
      * rewrite pool_update_entity_eq by lia. rewrite Hp.
        destruct (Nat.ltb_spec n n); [lia|].
        destruct (Nat.ltb_spec n (S n)); [reflexivity | lia].
      * rewrite pool_update_entity_ne by auto. rewrite Hp.
        destruct (Nat.ltb_spec j n), (Nat.ltb_spec j (S n)); try reflexivity; lia.
Qed.

Lemma apply_loop_spec B K :
  (active_entity_count K <= length (entity_pool K))%nat ->
  active_entity_count (apply_loop B K) = active_entity_count K
  /\ holo_system (apply_loop B K) = holo_system K
  /\ length (entity_pool (apply_loop B K)) = length (entity_pool K)
  /\ forall j, (j < active_entity_count K)%nat ->
               entity_pool (apply_loop B K) !!! j
               = apply_next B j (entity_pool K !!! j).
Proof.
  intros Hn. unfold apply_loop.
  destruct (apply_fold B (active_entity_count K) K Hn) as (Hc & Hh & Hl & Hp).
  repeat split; try assumption.
  intros j Hj. rewrite Hp.
  destruct (Nat.ltb_spec j (active_entity_count K)); [reflexivity | lia].
Qed.

(** ** The compacting pass *)

Lemma survivor_indices_S pool n :
  survivor_indices pool (S n)
  = survivor_indices pool n
    ++ (if marked_for_gc (pool !!! n) =? 0 then [n] else []).
Proof.
  unfold survivor_indices. rewrite seq_S, List.filter_app. reflexivity.
Qed.

Lemma survivor_indices_bound pool n j :
  In j (survivor_indices pool n)
  <-> (j < n)%nat /\ marked_for_gc (pool !!! j) = 0.
Proof.
  unfold survivor_indices. rewrite List.filter_In, in_seq, Z.eqb_eq. lia.
Qed.

Lemma gc_fold pool n :
  (n <= length pool)%nat ->
  let r := fold_left gc_step (seq 0 n) (pool, 0%nat) in
  snd r = length (survivor_indices pool n)
  /\ (snd r <= n)%nat
  /\ length (fst r) = length pool
  /\ (forall k j, survivor_indices pool n !! k = Some j ->
                  fst r !!! k = pool !!! j)
  /\ (forall j, (snd r <= j)%nat -> fst r !!! j = pool !!! j).
Proof.
  induction n as [|n IH]; intros Hn.
  - cbn. repeat split; try lia. intros k j H. discriminate H.
  - rewrite seq_S, fold_left_app. cbn [fold_left Nat.add].
    destruct IH as (Hw & Hwn & Hl & Hsurv & Hrest); [lia|].
    destruct (fold_left gc_step (seq 0 n) (pool, 0%nat)) as [p w].
    cbn [fst snd] in *. cbv zeta.
    rewrite survivor_indices_S. unfold gc_step.
    rewrite (Hrest n) by lia.
    destruct (marked_for_gc (pool !!! n) =? 0); cbn [fst snd].
    + assert (Hslot :
        (if (w =? n)%nat then p else <[w := pool !!! n]> p) !!! w = pool !!! n).
      { destruct (Nat.eqb_spec w n) as [->|Hne].
        - apply Hrest. lia.
        - apply list_lookup_total_insert_eq. lia. }
      assert (Hkeep : forall j, j <> w ->
        (if (w =? n)%nat then p else <[w := pool !!! n]> p) !!! j = p !!! j).
      { intros j Hj. destruct (w =? n)%nat; [reflexivity|].
        apply list_lookup_total_insert_ne. auto. }
      repeat split.
      * rewrite length_app. cbn [length]. lia.
      * lia.
      * destruct (w =? n)%nat; [exact Hl | rewrite length_insert; exact Hl].
      * intros k j Hk.
        apply lookup_app_Some in Hk as [Hk | [Hlen Hk]].
        -- rewrite Hkeep by (apply lookup_lt_Some in Hk; lia).
           apply Hsurv. exact Hk.
        -- rewrite <- Hw in Hlen, Hk.
           destruct (k - w)%nat as [|m] eqn:Hkw; [|destruct m; discriminate Hk].
           injection Hk as <-.
           assert (k = w) as -> by lia. exact Hslot.
      * intros j Hj. rewrite Hkeep by lia. apply Hrest. lia.
    + rewrite app_nil_r. repeat split; auto.
Qed.

Lemma gc_loop_spec K :
  (active_entity_count K <= length (entity_pool K))%nat ->
  let srcs := survivor_indices (entity_pool K) (active_entity_count K) in
  active_entity_count (gc_loop K) = length srcs
  /\ length (entity_pool (gc_loop K)) = length (entity_pool K)
  /\ holo_system (gc_loop K) = holo_system K
  /\ forall k j, srcs !! k = Some j ->
                 entity_pool (gc_loop K) !!! k = entity_pool K !!! j.
Proof.
  intros Hn srcs. unfold gc_loop.
  destruct (gc_fold (entity_pool K) (active_entity_count K) Hn)
    as (Hw & _ & Hl & Hsurv & _).
  destruct (fold_left gc_step _ _) as [p w]. cbn [fst snd] in *.
  repeat split; assumption.
Qed.

(** The survivors are the unmarked entities of the prefix, in their order. *)
Lemma survivors_filter (pool : list Entity) n :
  (n <= length pool)%nat ->
  map (fun j => pool !!! j) (survivor_indices pool n)
  = List.filter (fun e => marked_for_gc e =? 0) (take n pool).
Proof.
  induction n as [|n IH]; intros Hn.
  - reflexivity.
  - rewrite survivor_indices_S, map_app, IH by lia.
    rewrite (take_S_r pool n (pool !!! n))
      by (apply list_lookup_lookup_total_lt; lia).
    rewrite List.filter_app. cbn [List.filter].
    destruct (marked_for_gc (pool !!! n) =? 0); reflexivity.
Qed.

Lemma gc_loop_prefix K :
  (active_entity_count K <= length (entity_pool K))%nat ->
  take (active_entity_count (gc_loop K)) (entity_pool (gc_loop K))
  = List.filter (fun e => marked_for_gc e =? 0)
                (take (active_entity_count K) (entity_pool K)).
Proof.
  intros Hn.
  destruct (gc_loop_spec K Hn) as (Hc & Hl & _ & Hsurv).
  rewrite <- survivors_filter by exact Hn.
  set (srcs := survivor_indices (entity_pool K) (active_entity_count K)) in *.
  assert (Hle : (length srcs <= length (entity_pool K))%nat).
  { unfold srcs, survivor_indices.
    pose proof (List.filter_length_le
                  (fun i => marked_for_gc (entity_pool K !!! i) =? 0)
                  (seq 0 (active_entity_count K))) as Hf.
    rewrite length_seq in Hf. lia. }
  apply list_eq. intros k.
  rewrite list_lookup_fmap.
  destruct (srcs !! k) as [j|] eqn:Hk; cbn [fmap option_fmap option_map].
  - rewrite lookup_take_lt by (apply lookup_lt_Some in Hk; lia).
    rewrite list_lookup_lookup_total_lt by (apply lookup_lt_Some in Hk; lia).
    rewrite (Hsurv k j Hk). reflexivity.
  - apply lookup_take_ge. apply lookup_ge_None in Hk. lia.
Qed.

(** ** The whole update *)

Lemma update_entities_unfold K :
  update_entities K
  = gc_loop (apply_loop (snd (eval_phase K)) (fst (eval_phase K))).
Proof. unfold update_entities. destruct (eval_phase K) as [K1 B]. reflexivity. Qed.

Lemma survivor_indices_ext (pool pool' : list Entity) n :
  (forall j, (j < n)%nat ->
             marked_for_gc (pool' !!! j) = marked_for_gc (pool !!! j)) ->
  survivor_indices pool' n = survivor_indices pool n.
Proof.
  induction n as [|n IH]; intros Hext; [reflexivity|].
  rewrite !survivor_indices_S, IH, Hext by (intros; try apply Hext; lia).
  reflexivity.
Qed.

Lemma survivor_lookup pool n k j :
  survivor_indices pool n !! k = Some j ->
  (j < n)%nat /\ marked_for_gc (pool !!! j) = 0.
Proof.
  intros Hk. apply survivor_indices_bound.
  apply list_elem_of_In. eapply list_elem_of_lookup_2. exact Hk.
Qed.

Lemma survivor_indices_length pool n :
  (length (survivor_indices pool n) <= n)%nat.
Proof.
  unfold survivor_indices.
  pose proof (List.filter_length_le
                (fun i => marked_for_gc (pool !!! i) =? 0) (seq 0 n)) as Hf.
  rewrite length_seq in Hf. exact Hf.
Qed.

(** The arena after [update_entities]: the evaluation loop has visited every
    index below the count it leaves, and the live entities are the unmarked
    ones of the evaluated arena, in order, with the next-state values
    applied. *)
Lemma update_entities_spec K :
  arena_wf K ->
  let K1 := fst (eval_phase K) in
  let B := snd (eval_phase K) in
  let srcs := survivor_indices (entity_pool K1) (active_entity_count K1) in
  loop_inv K (active_entity_count K1) K1
  /\ active_entity_count (update_entities K) = length srcs
  /\ length (entity_pool (update_entities K)) = MAX_ENTITIES
  /\ holo_system (update_entities K) = holo_system K1
  /\ forall k j, srcs !! k = Some j ->
                 entity_pool (update_entities K) !!! k
                 = apply_next B j (entity_pool K1 !!! j).
Proof.
  intros Hwf K1 B srcs.
  pose proof (eval_phase_inv K Hwf) as Hinv. fold K1 in Hinv.
  destruct (inv_wf _ _ _ Hinv) as [Hlen Hcap].
  assert (Hn : (active_entity_count K1 <= length (entity_pool K1))%nat) by lia.
  destruct (apply_loop_spec B K1 Hn) as (Hac & Hah & Hal & Hap).
  assert (Hn2 : (active_entity_count (apply_loop B K1)
                 <= length (entity_pool (apply_loop B K1)))%nat) by lia.
  destruct (gc_loop_spec (apply_loop B K1) Hn2) as (Hgc & Hgl & Hgh & Hgs).
  assert (Hsrcs : survivor_indices (entity_pool (apply_loop B K1))
                    (active_entity_count (apply_loop B K1)) = srcs).
  { rewrite Hac. apply survivor_indices_ext.
    intros j Hj. rewrite Hap by exact Hj. reflexivity. }
  rewrite Hsrcs in Hgc, Hgs.
  rewrite update_entities_unfold. fold K1 B.
  split; [exact Hinv|]. split; [exact Hgc|].
  split; [congruence|]. split; [congruence|].
  intros k j Hk. rewrite (Hgs k j Hk).
  apply Hap. apply (survivor_lookup _ _ _ _ Hk).
Qed.

(** ** Frame of the update *)

(** C10: the [k]-th live entity after the call is the [k]-th survivor; when
    it comes from an index [j] that was live before the call, its id, genome
    reference, confidence, resource allocation, specialization scores (and
    mutant flag) are those of the entity at [j] before the call. *)
Theorem update_frame (K : Kernel) (k j : nat) :
  arena_wf K ->
  let K1 := fst (eval_phase K) in
  let srcs := survivor_indices (entity_pool K1) (active_entity_count K1) in
  srcs !! k = Some j ->
  (j < active_entity_count K)%nat ->
  let e := entity_pool K !!! j in
  let e' := entity_pool (update_entities K) !!! k in
  (k < active_entity_count (update_entities K))%nat
  /\ id e' = id e
  /\ genome e' = genome e
  /\ confidence e' = confidence e
  /\ resource_allocation e' = resource_allocation e
  /\ specialization_scores e' = specialization_scores e
  /\ is_mutant e' = is_mutant e.
Proof.
  intros Hwf K1 srcs Hk Hj e e'.
  destruct (update_entities_spec K Hwf) as (Hinv & Hcount & _ & _ & Hsurv).
  fold K1 in Hinv, Hcount, Hsurv. fold srcs in Hcount, Hsurv.
  assert (Hframe : frame_of e' = frame_of e).
  { unfold e'. rewrite (Hsurv k j Hk).
    destruct (apply_next_keeps (snd (eval_phase K)) j (entity_pool K1 !!! j))
      as (-> & _).
    apply (inv_frame _ _ _ Hinv). exact Hj. }
  split.
  - rewrite Hcount. apply lookup_lt_Some in Hk. exact Hk.
  - unfold frame_of in Hframe. injection Hframe. auto 7.
Qed.

Lemma update_frame_witness :
  let e := entity_pool gc_sample !!! 1%nat in
  let e' := entity_pool (update_entities gc_sample) !!! 0%nat in
  (0 < active_entity_count (update_entities gc_sample))%nat
  /\ id e' = id e
  /\ genome e' = genome e
  /\ confidence e' = confidence e
  /\ resource_allocation e' = resource_allocation e
  /\ specialization_scores e' = specialization_scores e
  /\ is_mutant e' = is_mutant e.
Proof.
  apply (update_frame gc_sample 0 1).
  - split; vm_compute; [reflexivity | lia].
  - vm_compute. reflexivity.
  - vm_compute. lia.
Defined.

(** ** Reachable arenas *)

Lemma arena_clean_append (K : Kernel) hs (f : Entity -> Entity) :
  arena_clean K ->
  (active_entity_count K < MAX_ENTITIES)%nat ->
  (forall e, marked_for_gc (f e) = 0) ->
  arena_clean
    {| holo_system := hs;
       entity_pool := alter f (active_entity_count K) (entity_pool K);
       active_entity_count := S (active_entity_count K) |}.
Proof.
  intros [[Hlen Hcap] Hclean] Hroom Hf. split; [split|]; cbn [entity_pool active_entity_count].
  - rewrite length_alter. exact Hlen.
  - lia.
  - intros j Hj. destruct (Nat.eq_dec j (active_entity_count K)) as [->|Hne].
    + rewrite list_lookup_total_alter_eq by lia. apply Hf.
    + rewrite list_lookup_total_alter_ne by auto. apply Hclean. lia.
Qed.

Lemma arena_clean_update_entity i f K :
  arena_clean K ->
  (forall e, marked_for_gc (f e) = marked_for_gc e) ->
  arena_clean (update_entity i f K).
Proof.
  intros [[Hlen Hcap] Hclean] Hf. split; [split|].
  - rewrite length_update_entity. exact Hlen.
  - exact Hcap.
  - intros j Hj. cbn [update_entity active_entity_count entity_pool] in *.
    rewrite list_lookup_total_alter.
    destruct (decide _) as [[-> _]|_]; [rewrite Hf|]; apply Hclean; exact Hj.
Qed.

Lemma init_loop_clean n trait genome_ptr : forall K,
  arena_clean K -> arena_clean (init_loop n trait genome_ptr K).
Proof.
  induction n as [|n IH]; intros K Hclean; cbn [init_loop]; [exact Hclean|].
  destruct (Nat.leb_spec MAX_ENTITIES (active_entity_count K)); [exact Hclean|].
  apply IH. apply arena_clean_append; [exact Hclean | lia | reflexivity].
Qed.

Lemma spawn_entity_clean K : arena_clean K -> arena_clean (fst (spawn_entity K)).
Proof.
  intros Hclean. unfold spawn_entity.
  destruct (Nat.leb_spec MAX_ENTITIES (active_entity_count K)); [exact Hclean|].
  destruct (find_genome (holo_system K)) as [hs g]. cbn [fst].
  apply arena_clean_append; [exact Hclean | lia | reflexivity].
Qed.

Lemma update_entities_clean K : arena_clean K -> arena_clean (update_entities K).
Proof.
  intros [Hwf _].
  destruct (update_entities_spec K Hwf) as (Hinv & Hcount & Hlen & _ & Hsurv).
  cbv zeta in *.
  set (K1 := fst (eval_phase K)) in *.
  set (srcs := survivor_indices (entity_pool K1) (active_entity_count K1)) in *.
  destruct (inv_wf _ _ _ Hinv) as [_ Hcap].
  assert (Hsl : (length srcs <= active_entity_count K1)%nat)
    by apply survivor_indices_length.
  split; [split|].
  - exact Hlen.
  - rewrite Hcount. lia.
  - intros k Hk. rewrite Hcount in Hk.
    destruct (lookup_lt_is_Some_2 srcs k Hk) as [j Hj].
    rewrite (Hsurv k j Hj).
    destruct (apply_next_keeps (snd (eval_phase K)) j (entity_pool K1 !!! j))
      as (_ & -> & _).
    apply (survivor_lookup _ _ _ _ Hj).
Qed.

Lemma reachable_clean K : reachable K -> arena_clean K.
Proof.
  induction 1 as [|K _ IH|K _ IH|K _ IH|K v i _ IH|K _ IH|K _ IH|K _ IH].
  - split; [split|].
    + apply length_replicate.
    + cbn. lia.
    + intros j Hj. cbn in Hj. lia.
  - exact IH.
  - exact IH.
  - unfold initialize_emergent_entities.
    destruct (find_genome (holo_system K)) as [hs g].
    apply init_loop_clean. exact IH.
  - unfold assign_task.
    destruct (i <? active_entity_count K)%nat; [|exact IH].
    apply arena_clean_update_entity; [exact IH | reflexivity].
  - apply spawn_entity_clean. exact IH.
  - apply update_entities_clean. exact IH.
  - exact IH.
Qed.

Lemma reachable_iter_update n K :
  reachable K -> reachable (Nat.iter n update_entities K).
Proof.
  intros HK. induction n as [|n IH]; [exact HK|].
  cbn [Nat.iter nat_rect]. apply reach_update. exact IH.
Qed.

(** C7: in every reachable state the live entities are the slots below
    [active_entity_count], which stays within the arena, and none of them is
    a collected (marked) entity; the compacting pass leaves as the new
    prefix the unmarked entities of the old one, in their order.  With
    indices 0, 1, 2 live and 1 marked, old 0 and old 2 end at 0 and 1. *)
Theorem arena_prefix_compaction :
  (forall K, reachable K ->
     (active_entity_count K <= MAX_ENTITIES)%nat
     /\ length (entity_pool K) = MAX_ENTITIES
     /\ forall j, (j < active_entity_count K)%nat ->
                  marked_for_gc (entity_pool K !!! j) = 0)
  /\ (forall K, (active_entity_count K <= length (entity_pool K))%nat ->
        take (active_entity_count (gc_loop K)) (entity_pool (gc_loop K))
        = List.filter (fun e => marked_for_gc e =? 0)
                      (take (active_entity_count K) (entity_pool K)))
  /\ (forall hs e0 e1 e2 rest,
        marked_for_gc e0 = 0 -> marked_for_gc e1 <> 0 -> marked_for_gc e2 = 0 ->
        gc_loop {| holo_system := hs; entity_pool := e0 :: e1 :: e2 :: rest;
                   active_entity_count := 3 |}
        = {| holo_system := hs; entity_pool := e0 :: e2 :: e2 :: rest;
             active_entity_count := 2 |}).
Proof.
  split; [|split].
  - intros K HK. destruct (reachable_clean K HK) as [[Hlen Hcap] Hclean].
    auto.
  - apply gc_loop_prefix.
  - intros hs e0 e1 e2 rest H0 H1 H2.
    apply Z.eqb_eq in H0, H2. apply Z.eqb_neq in H1.
    unfold gc_loop, gc_step. simpl. rewrite H0. simpl. rewrite H1. simpl.
    rewrite H2. reflexivity.
Qed.

Lemma arena_prefix_compaction_witness :
  (active_entity_count full_ring <= MAX_ENTITIES)%nat
  /\ gc_loop {| holo_system := holo_system boot;
                entity_pool := [sample_entity 0 1 5 0;
                                set_marked_for_gc 1 (sample_entity 1 1 5 0);
                                sample_entity 2 1 5 0];
                active_entity_count := 3 |}
     = {| holo_system := holo_system boot;
          entity_pool := [sample_entity 0 1 5 0; sample_entity 2 1 5 0;
                          sample_entity 2 1 5 0];
          active_entity_count := 2 |}.
Proof.
  destruct arena_prefix_compaction as (Hreach & _ & Hexample).
  split.
  - apply Hreach. apply reach_update, reach_spawn, reach_boot.
  - apply Hexample; [reflexivity | discriminate | reflexivity].
Defined.

(** ** Garbage collection *)

(** C6: an entity that the mark check finds with age above 1000 and fitness
    below 50 is marked and is not among the survivors of the collection
    pass that ends the call; one found with age 1001 and fitness 50, not
    marked before (no live entity of a reachable arena is), stays unmarked
    and survives.  The evaluated arena holds
    each entity with the age and fitness its check read: later iterations
    do not touch it. *)
Theorem gc_threshold (K : Kernel) (i : nat) :
  arena_wf K ->
  let K1 := fst (eval_phase K) in
  let e := entity_pool K1 !!! i in
  let srcs := survivor_indices (entity_pool K1) (active_entity_count K1) in
  (i < active_entity_count K1)%nat ->
  (1000 < age e -> fitness_score e < 50 ->
   marked_for_gc e = 1 /\ ~ In i srcs)
  /\ (age e = 1001 -> fitness_score e = 50 -> origin_mark K i = 0 ->
      marked_for_gc e = 0 /\ In i srcs)
  /\ (reachable K -> origin_mark K i = 0)
  /\ active_entity_count (update_entities K) = length srcs
  /\ (forall k j, srcs !! k = Some j ->
                  entity_pool (update_entities K) !!! k
                  = apply_next (snd (eval_phase K)) j (entity_pool K1 !!! j)).
Proof.
  intros Hwf K1 e srcs Hi.
  destruct (update_entities_spec K Hwf) as (Hinv & Hcount & _ & _ & Hsurv).
  fold K1 in Hinv, Hcount, Hsurv. fold srcs in Hcount, Hsurv.
  pose proof (inv_done _ _ _ Hinv i Hi) as Hmark. fold e in Hmark.
  split; [|split; [|split; [|split; [exact Hcount | exact Hsurv]]]].
  - intros Hage Hfit.
    assert (Hcheck : gc_check e = true).
    { unfold gc_check. apply andb_true_intro. split; apply Z.ltb_lt; assumption. }
    rewrite Hcheck in Hmark. split; [exact Hmark|].
    intros Hin. apply survivor_indices_bound in Hin as [_ Hz].
    fold e in Hz. rewrite Hmark in Hz. discriminate Hz.
  - intros Hage Hfit Horigin.
    assert (Hcheck : gc_check e = false).
    { unfold gc_check. rewrite Hfit. apply andb_false_r. }
    rewrite Hcheck, Horigin in Hmark. split; [exact Hmark|].
    apply survivor_indices_bound. split; [exact Hi | exact Hmark].
  - intros HK. destruct (reachable_clean K HK) as [_ Hclean].
    unfold origin_mark.
    destruct (Nat.ltb_spec i (active_entity_count K)); [|reflexivity].
    apply Hclean. assumption.
Qed.

Lemma gc_threshold_witness :
  let K1 := fst (eval_phase gc_sample) in
  let srcs := survivor_indices (entity_pool K1) (active_entity_count K1) in
  (marked_for_gc (entity_pool K1 !!! 0%nat) = 1 /\ ~ In 0%nat srcs)
  /\ (marked_for_gc (entity_pool K1 !!! 1%nat) = 0 /\ In 1%nat srcs)
  /\ active_entity_count (update_entities gc_sample) = length srcs.
Proof.
  intros K1 srcs.
  assert (Hwf : arena_wf gc_sample) by (split; vm_compute; [reflexivity | lia]).
  assert (H0 := gc_threshold gc_sample 0 Hwf).
  assert (H1 := gc_threshold gc_sample 1 Hwf).
  cbv zeta in H0, H1. fold K1 in H0, H1. fold srcs in H0, H1.
  destruct H0 as (Hlow & _ & _ & Hcount & _); [vm_compute; lia|].
  destruct H1 as (_ & Hhigh & _); [vm_compute; lia|].
  split; [|split; [|exact Hcount]].
  - apply Hlow; vm_compute; reflexivity.
  - apply Hhigh; vm_compute; reflexivity.
Defined.

(** ** Entity ids *)

Lemma filter_length_all {A} (f : A -> bool) (l : list A) :
  length (List.filter f l) = length l -> List.filter f l = l.
Proof.
  induction l as [|a l IH]; cbn [List.filter length]; [reflexivity|].
  pose proof (List.filter_length_le f l) as Hle.
  destruct (f a); cbn [length]; intros Hlen.
  - f_equal. apply IH. lia.
  - lia.
Qed.

Lemma spawn_entity_keeps K j :
  (j < active_entity_count K)%nat ->
  entity_pool (fst (spawn_entity K)) !!! j = entity_pool K !!! j.
Proof.
  intros Hj. unfold spawn_entity.
  destruct (Nat.leb_spec MAX_ENTITIES (active_entity_count K)); [reflexivity|].
  destruct (find_genome (holo_system K)) as [hs g]. cbn [fst entity_pool].
  apply list_lookup_total_alter_ne. lia.
Qed.

Lemma spawn_entity_ids K :
  length (entity_pool K) = MAX_ENTITIES ->
  ids_are_indices K -> ids_are_indices (fst (spawn_entity K)).
Proof.
  intros Hlen Hids. unfold spawn_entity.
  destruct (Nat.leb_spec MAX_ENTITIES (active_entity_count K)); [exact Hids|].
  destruct (find_genome (holo_system K)) as [hs g].
  intros j Hj. cbn [fst entity_pool active_entity_count] in *.
  destruct (Nat.eq_dec j (active_entity_count K)) as [->|Hne].
  - rewrite list_lookup_total_alter_eq by lia. reflexivity.
  - rewrite list_lookup_total_alter_ne by auto. apply Hids. lia.
Qed.

Lemma update_entities_id K k j :
  arena_wf K ->
  survivor_indices (entity_pool (fst (eval_phase K)))
                   (active_entity_count (fst (eval_phase K))) !! k = Some j ->
  id (entity_pool (update_entities K) !!! k)
  = if (j <? active_entity_count K)%nat
    then id (entity_pool K !!! j) else Z.of_nat j.
Proof.
  intros Hwf Hk.
  destruct (update_entities_spec K Hwf) as (Hinv & _ & _ & _ & Hsurv).
  cbv zeta in Hinv, Hsurv. rewrite (Hsurv k j Hk).
  change (id (apply_next _ j ?e)) with (id e).
  destruct (survivor_lookup _ _ _ _ Hk) as [Hj _].
  destruct (Nat.ltb_spec j (active_entity_count K)) as [Hlt|Hge].
  - apply frame_of_id. apply (inv_frame _ _ _ Hinv). exact Hlt.
  - apply (inv_child_id _ _ _ Hinv). lia.
Qed.

(** C4, as the code has it: an id is written once, when its entity is
    spawned, and never again.  [spawn_entity] leaves the live entities as
    they are; after [update_entities] the [k]-th survivor has the id it had
    before the call, or, for a child spawned in the call, the index of the
    slot it was spawned into.  While every live id is its slot index (which
    spawning preserves, and an update that collects nothing preserves) the
    live ids are pairwise distinct. *)
Theorem entity_ids_stable :
  (forall K, length (entity_pool K) = MAX_ENTITIES ->
     (forall j, (j < active_entity_count K)%nat ->
                entity_pool (fst (spawn_entity K)) !!! j = entity_pool K !!! j)
     /\ (ids_are_indices K -> ids_are_indices (fst (spawn_entity K))))
  /\ (forall K, arena_wf K ->
        let K1 := fst (eval_phase K) in
        let srcs := survivor_indices (entity_pool K1) (active_entity_count K1) in
        active_entity_count (update_entities K) = length srcs
        /\ (forall k j, srcs !! k = Some j ->
              id (entity_pool (update_entities K) !!! k)
              = if (j <? active_entity_count K)%nat
                then id (entity_pool K !!! j) else Z.of_nat j)
        /\ (ids_are_indices K -> length srcs = active_entity_count K1 ->
            ids_are_indices (update_entities K)))
  /\ (forall K i j, ids_are_indices K ->
        (i < active_entity_count K)%nat -> (j < active_entity_count K)%nat ->
        i <> j ->
        id (entity_pool K !!! i) <> id (entity_pool K !!! j)).
Proof.
  split; [|split].
  - intros K Hlen. split.
    + intros j Hj. apply spawn_entity_keeps. exact Hj.
    + apply spawn_entity_ids. exact Hlen.
  - intros K Hwf K1 srcs.
    destruct (update_entities_spec K Hwf) as (_ & Hcount & _).
    fold K1 in Hcount. fold srcs in Hcount.
    split; [exact Hcount|]. split.
    + intros k j Hk. apply update_entities_id; assumption.
    + intros Hids Hall k Hk. rewrite Hcount in Hk.
      assert (Hseq : srcs = seq 0 (active_entity_count K1)).
      { unfold srcs, survivor_indices. apply filter_length_all.
        rewrite length_seq. exact Hall. }
      assert (Hkk : srcs !! k = Some k).
      { rewrite Hseq. apply lookup_seq. split; [reflexivity | lia]. }
      rewrite (update_entities_id K k k Hwf Hkk).
      destruct (Nat.ltb_spec k (active_entity_count K)); [|reflexivity].
      apply Hids. assumption.
  - intros K i j Hids Hi Hj Hne.
    rewrite (Hids i Hi), (Hids j Hj). lia.
Qed.

Lemma entity_ids_stable_witness :
  id (entity_pool (update_entities gc_sample) !!! 0%nat)
  = id (entity_pool gc_sample !!! 1%nat)
  /\ ids_are_indices (fst (spawn_entity one_entity)).
Proof.
  destruct entity_ids_stable as (Hspawn & Hupdate & _).
  split.
  - destruct (Hupdate gc_sample) as (_ & Hid & _).
    + split; vm_compute; [reflexivity | lia].
    + apply (Hid 0%nat 1%nat). vm_compute. reflexivity.
  - apply (Hspawn one_entity).
    + vm_compute. reflexivity.
    + intros i Hi. assert (i = 0%nat) as -> by (vm_compute in Hi; lia).
      vm_compute. reflexivity.
Defined.

(** C4 as stated fails: 1000 updates, a spawn, two updates and a spawn lead
    from one entity to an arena of 32 in which the entities at indices 0 and
    31 both carry id 31. *)
Lemma live_ids_collide :
  reachable reused_id
  /\ (31 < active_entity_count reused_id)%nat
  /\ id (entity_pool reused_id !!! 0%nat) = id (entity_pool reused_id !!! 31%nat).
Proof.
  split.
  - unfold reused_id, aged_ring.
    apply reach_spawn, reach_update, reach_update, reach_spawn.
    apply reachable_iter_update. apply reach_spawn, reach_boot.
  - assert (Hall : active_entity_count reused_id = 32%nat
                   /\ id (entity_pool reused_id !!! 0%nat) = 31
                   /\ id (entity_pool reused_id !!! 31%nat) = 31)
      by (vm_compute; repeat split; reflexivity).
    destruct Hall as (Hc & H0 & H31).
    rewrite Hc, H0, H31. split; [lia | reflexivity].
Qed.

(** ** What an evaluation observes *)

(** The evaluation loop leaves the active flag, state, domain, task vector,
    path id and alignment of every entity that was live before the call as
    they were: the activate and sleep rules write to the next-state arrays
    only. *)
Lemma eval_phase_keeps_flags K j :
  arena_wf K ->
  (j < active_entity_count K)%nat ->
  live_of (entity_pool (fst (eval_phase K)) !!! j) = live_of (entity_pool K !!! j).
Proof.
  intros Hwf Hj. apply (inv_live _ _ _ (eval_phase_inv K Hwf)). exact Hj.
Qed.

(** C1 on the arena [kmain] starts from (three live entities): when the
    entity at index 2 is evaluated the ring has grown, and its next
    neighbour is slot 3, a child spawned by entity 0 earlier in the same
    call, not slot 0.  The children are visited by the same loop and spawn
    in turn: the call ends with 31 entities, and the child in slot 3 has
    itself spawned. *)
Theorem update_observes_children :
  let st := eval_entity 1 (eval_entity 0 (booted, fresh_next)) in
  active_entity_count booted = 3%nat
  /\ next_idx booted 2 = 0%nat
  /\ next_idx (fst st) 2 = 3%nat
  /\ id (entity_pool (fst st) !!! 3%nat) = 3
  /\ is_mutant (entity_pool (fst st) !!! 3%nat) = 1
  /\ active_entity_count (update_entities booted) = 31%nat
  /\ spawn_count (entity_pool (update_entities booted) !!! 3%nat) = 1.
Proof. vm_compute. repeat split; reflexivity. Qed.

(** The same on a ring of four with index 0 dormant: on the arena the call
    starts from, entity 3 has one active neighbour and no rule applies to
    it; when it is evaluated its next neighbour is the child entity 2 has
    just spawned, it counts two active neighbours, and it spawns. *)
Lemma spawned_neighbour_flips_decision :
  let st := eval_entity 2 (eval_entity 1 (eval_entity 0 (ring4, fresh_next))) in
  neighbor_active ring4 3 = 1
  /\ select_rule ring4 3 = RuleNone
  /\ next_idx (fst st) 3 = 4%nat
  /\ neighbor_active (fst st) 3 = 2
  /\ select_rule (fst st) 3 = RuleSpawn
  /\ spawn_count (entity_pool (update_entities ring4) !!! 3%nat) = 1.
Proof. vm_compute. repeat split; reflexivity. Qed.

(** * Further properties of the code *)

(** ** PatternStore: lookup and insertion *)

Lemma retrieve_loop_spec pool hash n :
  match retrieve_loop pool hash n with
  | Some i =>
      (i < n)%nat /\ matches hash (pool !!! i) = true
      /\ forall j, (i < j < n)%nat -> matches hash (pool !!! j) = false
  | None => forall j, (j < n)%nat -> matches hash (pool !!! j) = false
  end.
Proof.
  induction n as [|n IH]; cbn [retrieve_loop].
  - intros j Hj. lia.
  - fold (matches hash (pool !!! n)).
    destruct (matches hash (pool !!! n)) eqn:Hm.
    + split; [lia|]. split; [exact Hm|]. intros j Hj. lia.
    + destruct (retrieve_loop pool hash n) as [i|].
      * destruct IH as (Hi & Hmi & Hnewer).
        split; [lia|]. split; [exact Hmi|].
        intros j Hj. destruct (Nat.eq_dec j n) as [->|Hne]; [exact Hm|].
        apply Hnewer. lia.
      * intros j Hj. destruct (Nat.eq_dec j n) as [->|Hne]; [exact Hm|].
        apply IH. lia.
Qed.

(** A lookup returns the newest valid record whose input signature is the
    key: the slot it returns is below [memory_count], passes the test, and
    no newer slot does; it misses exactly when no slot below
    [memory_count] passes. *)
Theorem retrieve_newest_match (hash : Z) (hs : HolographicSystem) :
  match retrieve_holographic_memory hash hs with
  | Some i =>
      (i < memory_count hs)%nat
      /\ matches hash (memory_pool hs !!! i) = true
      /\ forall j, (i < j < memory_count hs)%nat ->
                   matches hash (memory_pool hs !!! j) = false
  | None =>
      forall j, (j < memory_count hs)%nat ->
                matches hash (memory_pool hs !!! j) = false
  end.
Proof. apply retrieve_loop_spec. Qed.

(** What one insertion does to the store, record for record. *)
Lemma encode_stored_exact input output hs :
  store_wf hs ->
  let hs' := encode_holographic_memory input output hs in
  stored hs'
  = (if (MAX_MEMORY_ENTRIES <=? memory_count hs)%nat
     then drop 1 (stored hs) else stored hs)
    ++ [{| input_pattern := input; output_pattern := output;
           timestamp := global_timestamp hs; entry_valid := 1 |}]
  /\ memory_count hs' = Nat.min (S (memory_count hs)) MAX_MEMORY_ENTRIES
  /\ global_timestamp hs' = u32 (global_timestamp hs + 1)
  /\ store_wf hs'.
Proof.
  intros [Hlen Hcount] hs'. subst hs'. unfold encode_holographic_memory.
  destruct (MAX_MEMORY_ENTRIES <=? memory_count hs)%nat eqn:Hfull.
  - apply Nat.leb_le in Hfull.
    destruct (evict_oldest_stored hs Hlen) as [Hst Hl]; [lia|].
    assert (Hc : memory_count (evict_oldest hs) = (MAX_MEMORY_ENTRIES - 1)%nat)
      by reflexivity.
    assert (Ht : global_timestamp (evict_oldest hs) = global_timestamp hs)
      by reflexivity.
    cbn [memory_pool memory_count global_timestamp]. rewrite Ht, Hc.
    split; [|split; [|split; [|split]]].
    + unfold stored at 1. cbn [memory_pool memory_count].
      rewrite (take_S_r _ _ {| input_pattern := input; output_pattern := output;
                               timestamp := global_timestamp hs; entry_valid := 1 |}).
      * rewrite take_insert_ge by lia. rewrite <- Hst. unfold stored.
        rewrite Hc. reflexivity.
      * apply list_lookup_insert_eq. rewrite Hl. unfold MAX_MEMORY_ENTRIES. lia.
    + unfold MAX_MEMORY_ENTRIES in *. lia.
    + reflexivity.
    + cbn [memory_pool]. rewrite length_insert. exact Hl.
    + cbn [memory_count]. unfold MAX_MEMORY_ENTRIES. lia.
  - apply Nat.leb_gt in Hfull.
    cbn [memory_pool memory_count global_timestamp].
    split; [|split; [|split; [|split]]].
    + unfold stored at 1. cbn [memory_pool memory_count].
      rewrite (take_S_r _ _ {| input_pattern := input; output_pattern := output;
                               timestamp := global_timestamp hs; entry_valid := 1 |}).
      * rewrite take_insert_ge by lia. reflexivity.
      * apply list_lookup_insert_eq. lia.
    + lia.
    + reflexivity.
    + cbn [memory_pool]. rewrite length_insert. exact Hlen.
    + cbn [memory_count]. lia.
Qed.

(** Insertion keeps the store within its 128 slots, appends the record with
    the current tick as its timestamp, drops exactly the oldest record when
    the store is full and no record otherwise, and advances the tick by one
    in both cases. *)
Theorem encode_appends_and_evicts
    (input output : HolographicVector) (hs : HolographicSystem) :
  store_wf hs ->
  let hs' := encode_holographic_memory input output hs in
  stored hs'
  = (if (MAX_MEMORY_ENTRIES <=? memory_count hs)%nat
     then drop 1 (stored hs) else stored hs)
    ++ [{| input_pattern := input; output_pattern := output;
           timestamp := global_timestamp hs; entry_valid := 1 |}]
  /\ memory_count hs' = Nat.min (S (memory_count hs)) MAX_MEMORY_ENTRIES
  /\ global_timestamp hs' = u32 (global_timestamp hs + 1)
  /\ store_wf hs'.
Proof. apply encode_stored_exact. Qed.

Lemma encode_appends_and_evicts_witness :
  let v := create_holographic_vector [7] in
  let full := encode_all sample_records (holo_system boot) in
  memory_count (encode_holographic_memory v v full) = MAX_MEMORY_ENTRIES
  /\ global_timestamp (encode_holographic_memory v v full)
     = u32 (global_timestamp full + 1).
Proof.
  intros v full.
  destruct (encode_appends_and_evicts v v full) as (_ & Hc & Ht & _).
  - apply (encode_all_stored sample_records (holo_system boot) []).
    + split; [reflexivity | cbn; lia].
    + constructor.
  - split; [|exact Ht].
    rewrite Hc.
    assert (Hfull : memory_count full = MAX_MEMORY_ENTRIES) by (vm_compute; reflexivity).
    rewrite Hfull. unfold MAX_MEMORY_ENTRIES. reflexivity.
Defined.

Lemma encode_then_retrieve_slot input output hs :
  store_wf hs ->
  let hs' := encode_holographic_memory input output hs in
  retrieve_holographic_memory (hash_signature input) hs'
  = Some (memory_count hs' - 1)%nat
  /\ output_pattern (memory_pool hs' !!! (memory_count hs' - 1)%nat) = output.
Proof.
  intros Hwf hs'.
  destruct (encode_stored_exact input output hs Hwf) as (Hst & Hc & _ & Hwf').
  fold hs' in Hst, Hc, Hwf'.
  set (prefix := if (MAX_MEMORY_ENTRIES <=? memory_count hs)%nat
                 then drop 1 (stored hs) else stored hs) in *.
  set (e := {| input_pattern := input; output_pattern := output;
               timestamp := global_timestamp hs; entry_valid := 1 |}) in *.
  assert (Hn : memory_count hs' = S (length prefix)).
  { rewrite <- (stored_length hs' Hwf'), Hst, length_app. cbn [length]. lia. }
  assert (Hlast : stored hs' !! length prefix = Some e).
  { rewrite Hst. rewrite lookup_app_r by lia. rewrite Nat.sub_diag. reflexivity. }
  destruct (stored_slot hs' _ e Hlast) as [Hslot _].
  rewrite Hn. replace (S (length prefix) - 1)%nat with (length prefix) by lia.
  split.
  - unfold retrieve_holographic_memory. rewrite Hn.
    apply retrieve_loop_newest; rewrite Hslot; reflexivity.
  - rewrite Hslot. reflexivity.
Qed.

(** Insert then look up: right after an insertion, the signature of the
    inserted input finds the inserted output, whatever the store held
    before, also a record with the same signature and also a full store. *)
Theorem encode_then_retrieve
    (input output : HolographicVector) (hs : HolographicSystem) :
  store_wf hs ->
  retrieved_vector (hash_signature input)
                   (encode_holographic_memory input output hs)
  = Some output.
Proof.
  intros Hwf.
  destruct (encode_then_retrieve_slot input output hs Hwf) as [Hr Ho].
  unfold retrieved_vector. rewrite Hr.
  cbn [fmap option_fmap option_map]. rewrite Ho. reflexivity.
Qed.

Lemma encode_then_retrieve_witness :
  let v := create_holographic_vector [7] in
  let w := create_holographic_vector [8] in
  retrieved_vector (hash_signature v)
    (encode_holographic_memory v w
       (encode_holographic_memory v v (holo_system boot)))
  = Some w.
Proof.
  intros v w. apply encode_then_retrieve.
  apply (encode_stored_exact v v (holo_system boot)).
  split; [reflexivity | cbn; lia].
Defined.

(** The genome lookup of the initialiser and of [spawn_entity] leaves a
    store in which the lookup hits: a second lookup returns a pointer into
    the store and changes neither the store nor the tick. *)
Theorem find_genome_settles (hs : HolographicSystem) :
  store_wf hs ->
  let hs1 := fst (find_genome hs) in
  store_wf hs1
  /\ is_Some (retrieve_holographic_memory genome_hash hs1)
  /\ fst (find_genome hs1) = hs1
  /\ exists slot, snd (find_genome hs1) = GenomeSlot slot
                  /\ (slot < memory_count hs1)%nat.
Proof.
  intros Hwf hs1.
  assert (Hhit : store_wf hs1
                 /\ is_Some (retrieve_holographic_memory genome_hash hs1)).
  { unfold hs1, find_genome. fold genome_hash.
    destruct (retrieve_holographic_memory genome_hash hs) as [slot|] eqn:Hr;
      cbn [fst].
    - split; [exact Hwf|]. rewrite Hr. eauto.
    - split; [apply encode_stored_exact; exact Hwf|].
      destruct (encode_then_retrieve_slot
                  (create_holographic_vector (cstring "GENOME_SIMPLE_RULE_1"))
                  (create_holographic_vector (cstring "GENOME_SIMPLE_RULE_1"))
                  hs Hwf) as [Hhit _].
      fold genome_hash in Hhit. rewrite Hhit. eauto. }
  destruct Hhit as [Hwf1 [slot Hslot]].
  split; [exact Hwf1|]. split; [eauto|].
  pose proof (retrieve_loop_spec (memory_pool hs1) genome_hash
                (memory_count hs1)) as Hspec.
  change (retrieve_loop (memory_pool hs1) genome_hash (memory_count hs1))
    with (retrieve_holographic_memory genome_hash hs1) in Hspec.
  rewrite Hslot in Hspec. destruct Hspec as (Hlt & _).
  unfold find_genome. fold genome_hash. rewrite Hslot. cbn [fst snd].
  split; [reflexivity|]. exists slot. split; [reflexivity | exact Hlt].
Qed.

Lemma find_genome_settles_witness :
  let hs1 := fst (find_genome (holo_system boot)) in
  fst (find_genome hs1) = hs1.
Proof.
  intros hs1.
  destruct (find_genome_settles (holo_system boot)) as (_ & _ & H & _).
  - split; [reflexivity | cbn; lia].
  - exact H.
Defined.

(** ** VectorCodec: hash and fill rule *)

Lemma u32_range z : 0 <= u32 z < 2 ^ 32.
Proof. rewrite u32_mod. apply Z.mod_pos_bound. lia. Qed.

Lemma hash_fold_range input : forall h,
  0 <= h < 2 ^ 32 -> 0 <= fold_left hash_step input h < 2 ^ 32.
Proof.
  induction input as [|b input IH]; intros h Hh; cbn [fold_left].
  - exact Hh.
  - apply IH. unfold hash_step. apply u32_range.
Qed.

Lemma lcg_next_parity seed : Z.odd (lcg_next seed) = negb (Z.odd seed).
Proof.
  unfold lcg_next, u32.
  rewrite <- !Z.bit0_odd, !Z.land_spec.
  change (Z.testbit 0x7fffffff 0) with true.
  change (Z.testbit 0xffffffff 0) with true.
  rewrite !andb_true_r, !Z.bit0_odd.
  rewrite Z.odd_add, Z.odd_mul.
  change (Z.odd 1103515245) with true. change (Z.odd 12345) with true.
  rewrite andb_true_r. destruct (Z.odd seed); reflexivity.
Qed.

Lemma selected_even seed : selected seed = true -> Z.odd seed = false.
Proof.
  unfold selected. rewrite Z.eqb_eq. intros H.
  rewrite (Z.div_mod seed 10) by lia. rewrite H, Z.add_0_r.
  rewrite Z.odd_mul. reflexivity.
Qed.

Lemma component_odd seed : Z.odd seed = true -> component seed = F32.zero.
Proof.
  intros Hodd. unfold component.
  destruct (selected seed) eqn:Hsel; [|reflexivity].
  apply selected_even in Hsel. congruence.
Qed.

(** The seed of dimension [i] is odd exactly when the starting seed and [i]
    have the same parity bit pattern: the generator flips the low bit at
    every step. *)
Lemma lcg_seeds_parity n : forall seed i s,
  lcg_seeds n seed !! i = Some s ->
  Z.odd s = xorb (Z.odd seed) (Nat.even i).
Proof.
  induction n as [|n IH]; intros seed i s Hs; [discriminate Hs|].
  cbn [lcg_seeds] in Hs. destruct i as [|i].
  - injection Hs as <-. rewrite lcg_next_parity.
    destruct (Z.odd seed); reflexivity.
  - cbn [lookup list_lookup] in Hs. rewrite (IH _ _ _ Hs), lcg_next_parity.
    rewrite Nat.even_succ, <- Nat.negb_even.
    destruct (Z.odd seed), (Nat.even i); reflexivity.
Qed.

Lemma selected_pairs k : forall seed,
  (length (List.filter selected (lcg_seeds (2 * k) seed)) <= k)%nat.
Proof.
  induction k as [|k IH]; intros seed; [cbn; lia|].
  replace (2 * S k)%nat with (S (S (2 * k))) by lia.
  cbn [lcg_seeds List.filter].
  specialize (IH (lcg_next (lcg_next seed))).
  destruct (selected (lcg_next seed)) eqn:H1;
    destruct (selected (lcg_next (lcg_next seed))) eqn:H2; cbn [length]; try lia.
  apply selected_even in H1, H2.
  rewrite lcg_next_parity, H1 in H2. discriminate H2.
Qed.


Lemma active_dimensions_selected input :
  active_dimensions (create_holographic_vector input)
  = Z.of_nat (length (List.filter selected
                        (lcg_seeds HOLOGRAPHIC_DIMENSIONS (hash_data input)))).
Proof.
  unfold create_holographic_vector.
  rewrite fill_loop_active
    by (cbn [active_dimensions]; unfold HOLOGRAPHIC_DIMENSIONS; lia).
  cbn [active_dimensions]. reflexivity.
Qed.

(** The vector of an input: valid, signed with the FNV-1a hash of the bytes
    (a 32-bit value), 512 components, and at most 256 of them populated:
    the generator alternates odd and even seeds and only an even seed can
    be a multiple of 10.  The dimensions of the same parity as the
    signature are zero in every vector, so two vectors whose signatures
    differ in the low bit have no populated dimension in common. *)
Theorem vector_shape (input : list Z) :
  let v := create_holographic_vector input in
  valid v = 1
  /\ hash_signature v = hash_data input
  /\ 0 <= hash_signature v < 2 ^ 32
  /\ length (data v) = HOLOGRAPHIC_DIMENSIONS
  /\ 0 <= active_dimensions v <= 256
  /\ forall i, (i < HOLOGRAPHIC_DIMENSIONS)%nat ->
               xorb (Z.odd (hash_signature v)) (Nat.even i) = true ->
               data v !!! i = F32.zero.
Proof.
  intros v.
  assert (Hfields : forall n i seed w,
            valid (fill_loop n i seed w) = valid w
            /\ hash_signature (fill_loop n i seed w) = hash_signature w).
  { induction n as [|n IH]; intros i seed w; cbn [fill_loop]; [auto|].
    destruct (IH (S i) (lcg_next seed) (fill_dimension i (lcg_next seed) w))
      as [-> ->].
    unfold fill_dimension. destruct (_ =? 0); auto. }
  assert (Hsig : hash_signature v = hash_data input).
  { unfold v, create_holographic_vector. apply Hfields. }
  split; [unfold v, create_holographic_vector; apply Hfields|].
  split; [exact Hsig|]. split.
  { rewrite Hsig. unfold hash_data. apply hash_fold_range. lia. }
  split; [apply create_holographic_vector_length|]. split.
  - unfold v. rewrite active_dimensions_selected.
    pose proof (selected_pairs 256 (hash_data input)) as Hle.
    change (2 * 256)%nat with HOLOGRAPHIC_DIMENSIONS in Hle. lia.
  - intros i Hi Hpar. unfold v.
    rewrite create_holographic_vector_data.
    destruct (lookup_lt_is_Some_2
                (lcg_seeds HOLOGRAPHIC_DIMENSIONS (hash_data input)) i)
      as [s Hs]; [rewrite length_lcg_seeds; exact Hi|].
    rewrite (list_lookup_total_correct _ i (component s))
      by (rewrite list_lookup_fmap, Hs; reflexivity).
    apply component_odd.
    rewrite (lcg_seeds_parity _ _ _ _ Hs), <- Hsig. exact Hpar.
Qed.

(** The unsigned subtraction in the fill rule, residue by residue. *)
Lemma component_value_table :
  forallb
    (fun k =>
       let c := component_of_seed (Z.of_nat k) in
       F32.le F32.zero c
       && (if (k <? 1000)%nat then F32.gt c (F32.of_u32 4294965)
           else F32.gt F32.one c))
    (seq 0 2000) = true.
Proof. vm_compute. reflexivity. Qed.

(** No component is negative or a NaN.  A populated component is below 1.0
    when its seed is at least 1000 modulo 2000, and above 4294965.0 when it
    is less: [(seed % 2000) - 1000] is an unsigned subtraction and wraps. *)
Theorem component_values (seed : Z) :
  F32.le F32.zero (component seed) = true
  /\ (selected seed = true ->
      if seed mod 2000 <? 1000
      then F32.gt (component seed) (F32.of_u32 4294965) = true
      else F32.gt F32.one (component seed) = true).
Proof.
  assert (Hr : 0 <= seed mod 2000 < 2000) by (apply Z.mod_pos_bound; lia).
  pose proof component_value_table as Htab.
  rewrite forallb_forall in Htab.
  specialize (Htab (Z.to_nat (seed mod 2000))).
  rewrite Z2Nat.id in Htab by lia.
  rewrite <- component_of_seed_mod in Htab.
  assert (Hin : In (Z.to_nat (seed mod 2000)) (seq 0 2000)) by (apply in_seq; lia).
  apply Htab in Hin. cbv zeta in Hin. apply andb_prop in Hin as [Hle Hside].
  unfold component. destruct (selected seed).
  - split; [exact Hle|]. intros _.
    destruct (Z.ltb_spec (seed mod 2000) 1000) as [Hlt|Hge].
    + destruct (Nat.ltb_spec (Z.to_nat (seed mod 2000)) 1000) as [_|Hc];
        [exact Hside | lia].
    + destruct (Nat.ltb_spec (Z.to_nat (seed mod 2000)) 1000) as [Hc|_];
        [lia | exact Hside].
  - split; [reflexivity | discriminate].
Qed.

Lemma component_values_witness :
  F32.gt (component 20) (F32.of_u32 4294965) = true
  /\ F32.gt F32.one (component 1990) = true.
Proof.
  split.
  - apply (proj2 (component_values 20)). reflexivity.
  - apply (proj2 (component_values 1990)). reflexivity.
Defined.

(** ** Entity arena: initialisation and spawning *)

(** [spawn_entity] on a full pool returns NULL and changes nothing;
    otherwise it fills the slot at [active_entity_count] and no other, with
    a fresh active entity whose id is the slot index, and leaves the
    slot's task vector and path id as it found them. *)
Theorem spawn_entity_outcome (K : Kernel) :
  length (entity_pool K) = MAX_ENTITIES ->
  let c := active_entity_count K in
  let K' := fst (spawn_entity K) in
  let e := entity_pool K' !!! c in
  if (MAX_ENTITIES <=? c)%nat then spawn_entity K = (K, None)
  else
    snd (spawn_entity K) = Some c
    /\ active_entity_count K' = S c
    /\ length (entity_pool K') = MAX_ENTITIES
    /\ (forall j, j <> c -> entity_pool K' !!! j = entity_pool K !!! j)
    /\ id e = Z.of_nat c /\ age e = 0 /\ interaction_count e = 0
    /\ is_active e = 1 /\ fitness_score e = 0 /\ spawn_count e = 0
    /\ marked_for_gc e = 0 /\ is_mutant e = 0
    /\ state e = create_holographic_vector (cstring "TRAIT_DORMANT")
    /\ domain_name e = "emergent"%string
    /\ task_vector e = task_vector (entity_pool K !!! c)
    /\ path_id e = path_id (entity_pool K !!! c).
Proof.
  intros Hlen c K' e.
  destruct (Nat.leb_spec MAX_ENTITIES c) as [Hfull|Hroom].
  - apply spawn_entity_full. exact Hfull.
  - assert (He : e = spawn_slot c (snd (find_genome (holo_system K)))
                       (entity_pool K !!! c)).
    { unfold e, K'. rewrite spawn_entity_room by exact Hroom.
      cbn [fst entity_pool]. apply list_lookup_total_alter_eq. fold c. lia. }
    unfold K'. rewrite spawn_entity_room by exact Hroom. cbn [fst snd].
    split; [reflexivity|]. split; [reflexivity|].
    split; [cbn [entity_pool]; rewrite length_alter; exact Hlen|].
    split.
    { intros j Hj. cbn [entity_pool]. apply list_lookup_total_alter_ne. auto. }
    rewrite He. repeat split.
Qed.

Lemma spawn_entity_outcome_witness :
  snd (spawn_entity boot) = Some 0%nat
  /\ active_entity_count (fst (spawn_entity boot)) = 1%nat.
Proof.
  assert (H := spawn_entity_outcome boot (eq_refl : length (entity_pool boot) = MAX_ENTITIES)).
  cbv zeta in H.
  change (MAX_ENTITIES <=? active_entity_count boot)%nat with false in H.
  destruct H as (H1 & H2 & _). split; assumption.
Defined.

Lemma init_loop_spec n trait g : forall K,
  arena_wf K ->
  let K' := init_loop n trait g K in
  active_entity_count K' = Nat.min (active_entity_count K + n) MAX_ENTITIES
  /\ holo_system K' = holo_system K
  /\ length (entity_pool K') = MAX_ENTITIES
  /\ forall j,
       entity_pool K' !!! j
       = if ((active_entity_count K <=? j) && (j <? active_entity_count K'))%nat
         then init_slot j trait g (entity_pool K !!! j)
         else entity_pool K !!! j.
Proof.
  induction n as [|n IH]; intros K [Hlen Hcap]; cbn [init_loop]; cbv zeta.
  - rewrite Nat.add_0_r. split; [lia|]. split; [reflexivity|].
    split; [exact Hlen|]. intros j.
    destruct (Nat.leb_spec (active_entity_count K) j),
             (Nat.ltb_spec j (active_entity_count K)); try reflexivity; lia.
  - destruct (Nat.leb_spec MAX_ENTITIES (active_entity_count K)) as [Hfull|Hroom].
    + split; [lia|]. split; [reflexivity|]. split; [exact Hlen|]. intros j.
      destruct (Nat.leb_spec (active_entity_count K) j),
               (Nat.ltb_spec j (active_entity_count K)); try reflexivity; lia.
    + set (c := active_entity_count K) in *.
      set (K1 := {| holo_system := holo_system K;
                    entity_pool := alter (init_slot c trait g) c (entity_pool K);
                    active_entity_count := S c |}).
      destruct (IH K1) as (Hc & Hh & Hl & Hp).
      { split; cbn [K1 entity_pool active_entity_count];
          [rewrite length_alter; exact Hlen | lia]. }
      cbv zeta in Hc, Hh, Hl, Hp. cbn [K1 active_entity_count] in Hc.
      split; [rewrite Hc; lia|]. split; [exact Hh|]. split; [exact Hl|].
      intros j. rewrite Hp. cbn [K1 active_entity_count entity_pool].
      destruct (Nat.eq_dec j c) as [->|Hne].
      * rewrite list_lookup_total_alter_eq by lia.
        destruct (Nat.leb_spec (S c) c); [lia|].
        destruct (Nat.leb_spec c c); [|lia].
        destruct (Nat.ltb_spec c (active_entity_count (init_loop n trait g K1)));
          [reflexivity | lia].
      * rewrite list_lookup_total_alter_ne by auto.
        destruct (Nat.leb_spec (S c) j), (Nat.leb_spec c j);
          try reflexivity; lia.
Qed.

(** [initialize_emergent_entities] appends to the live entities: it does
    not reset [active_entity_count], adds three entities or as many as fit,
    leaves every other slot as it was, and gives each new entity its slot
    index as id, age 0, the active flag, the dormant-trait vector as state
    and the label "generic". *)
Theorem initialize_entities_outcome (K : Kernel) :
  arena_wf K ->
  let K' := initialize_emergent_entities K in
  active_entity_count K'
  = Nat.min (active_entity_count K + INITIAL_ENTITIES) MAX_ENTITIES
  /\ length (entity_pool K') = MAX_ENTITIES
  /\ (forall j, (j < active_entity_count K)%nat \/ (active_entity_count K' <= j)%nat ->
                entity_pool K' !!! j = entity_pool K !!! j)
  /\ (forall j, (active_entity_count K <= j < active_entity_count K')%nat ->
        let e := entity_pool K' !!! j in
        id e = Z.of_nat j /\ age e = 0 /\ is_active e = 1
        /\ fitness_score e = 0 /\ marked_for_gc e = 0 /\ is_mutant e = 0
        /\ state e = create_holographic_vector (cstring "TRAIT_DORMANT")
        /\ domain_name e = "generic"%string
        /\ genome e = snd (find_genome (holo_system K))).
Proof.
  intros Hwf K'. subst K'. unfold initialize_emergent_entities.
  destruct (find_genome (holo_system K)) as [hs g] eqn:Hg. cbn [snd].
  destruct (init_loop_spec INITIAL_ENTITIES
              (create_holographic_vector (cstring "TRAIT_DORMANT")) g
              (set_holo_system hs K) Hwf) as (Hc & _ & Hl & Hp).
  cbv zeta in Hc, Hl, Hp.
  change (active_entity_count (set_holo_system hs K))
    with (active_entity_count K) in Hc, Hp.
  change (entity_pool (set_holo_system hs K)) with (entity_pool K) in Hp.
  split; [exact Hc|]. split; [exact Hl|]. split.
  - intros j Hj. rewrite Hp.
    destruct (Nat.leb_spec (active_entity_count K) j); cbn [andb];
      [|reflexivity].
    destruct (Nat.ltb_spec j
                (active_entity_count
                   (init_loop INITIAL_ENTITIES
                      (create_holographic_vector (cstring "TRAIT_DORMANT")) g
                      (set_holo_system hs K)))); [lia | reflexivity].
  - intros j Hj. cbv zeta. rewrite Hp.
    destruct (Nat.leb_spec (active_entity_count K) j); [|lia].
    destruct (Nat.ltb_spec j
                (active_entity_count
                   (init_loop INITIAL_ENTITIES
                      (create_holographic_vector (cstring "TRAIT_DORMANT")) g
                      (set_holo_system hs K)))); [|lia].
    cbn [andb]. repeat split.
Qed.

Lemma initialize_entities_outcome_witness :
  active_entity_count (initialize_emergent_entities full_ring) = MAX_ENTITIES.
Proof.
  destruct (initialize_entities_outcome full_ring) as (Hc & _).
  - apply reachable_clean. apply reach_update, reach_spawn, reach_boot.
  - rewrite Hc.
    assert (H31 : active_entity_count full_ring = 31%nat) by (vm_compute; reflexivity).
    rewrite H31. reflexivity.
Defined.

(** ** The ring and the edges of the update *)

(** Both ring neighbours of a live index are live indices.  In an arena of
    one the entity is its own neighbour on both sides, so it counts 0 or 2
    active neighbours: alone and active it spawns, alone and dormant no
    rule applies to it.  In an arena of two both neighbours are the other
    entity. *)
Theorem ring_neighbours (K : Kernel) (i : nat) :
  (i < active_entity_count K)%nat ->
  (prev_idx K i < active_entity_count K)%nat
  /\ (next_idx K i < active_entity_count K)%nat
  /\ (active_entity_count K = 1%nat ->
      prev_idx K i = i /\ next_idx K i = i
      /\ select_rule K i
         = if is_active (entity_pool K !!! i) =? 0 then RuleNone else RuleSpawn)
  /\ (active_entity_count K = 2%nat ->
      prev_idx K i = next_idx K i /\ prev_idx K i <> i).
Proof.
  intros Hi. unfold prev_idx, next_idx.
  split; [|split; [|split]].
  - destruct (Nat.eqb_spec i 0); lia.
  - destruct (Nat.eqb_spec i (active_entity_count K - 1)); lia.
  - intros H1. assert (i = 0%nat) as -> by lia.
    unfold select_rule, neighbor_active, prev_idx, next_idx. rewrite H1.
    cbn [Nat.eqb Nat.sub Nat.ltb Nat.leb MAX_ENTITIES].
    split; [reflexivity|]. split; [reflexivity|].
    unfold flag.
    destruct (is_active (entity_pool K !!! 0%nat) =? 0); reflexivity.
  - intros H2. rewrite H2.
    destruct i as [|[|i]]; cbn; [split; [reflexivity | lia] .. | lia].
Qed.

Lemma ring_neighbours_witness :
  select_rule one_entity 0 = RuleSpawn.
Proof.
  destruct (ring_neighbours one_entity 0) as (_ & _ & H & _).
  - vm_compute. lia.
  - destruct H as (_ & _ & H); [vm_compute; reflexivity|].
    rewrite H. vm_compute. reflexivity.
Defined.

Lemma gc_fold_unmarked pool n :
  (forall j, (j < n)%nat -> marked_for_gc (pool !!! j) = 0) ->
  fold_left gc_step (seq 0 n) (pool, 0%nat) = (pool, n).
Proof.
  induction n as [|n IH]; intros Hclean; [reflexivity|].
  rewrite seq_S, fold_left_app, IH by (intros; apply Hclean; lia).
  cbn [fold_left Nat.add gc_step]. rewrite Hclean by lia.
  rewrite Nat.eqb_refl. reflexivity.
Qed.

(** The collection pass changes nothing when no live entity is marked, so
    running it a second time is the same as running it once. *)
Theorem gc_loop_settles (K : Kernel) :
  ((forall j, (j < active_entity_count K)%nat ->
              marked_for_gc (entity_pool K !!! j) = 0) ->
   gc_loop K = K)
  /\ ((active_entity_count K <= length (entity_pool K))%nat ->
      gc_loop (gc_loop K) = gc_loop K).
Proof.
  assert (Hid : forall K0,
            (forall j, (j < active_entity_count K0)%nat ->
                       marked_for_gc (entity_pool K0 !!! j) = 0) ->
            gc_loop K0 = K0).
  { intros K0 Hclean. unfold gc_loop. rewrite gc_fold_unmarked by exact Hclean.
    destruct K0. reflexivity. }
  split; [apply Hid|].
  intros Hn. apply Hid.
  destruct (gc_loop_spec K Hn) as (Hc & _ & _ & Hsurv).
  intros k Hk. rewrite Hc in Hk.
  destruct (lookup_lt_is_Some_2 _ k Hk) as [j Hj].
  rewrite (Hsurv k j Hj). apply (survivor_lookup _ _ _ _ Hj).
Qed.

Lemma gc_loop_settles_witness :
  gc_loop one_entity = one_entity.
Proof.
  apply (proj1 (gc_loop_settles one_entity)).
  intros j Hj. assert (j = 0%nat) as -> by (vm_compute in Hj; lia).
  vm_compute. reflexivity.
Defined.

(** With no live entity [update_entities] changes nothing. *)
Theorem update_empty_arena (K : Kernel) :
  active_entity_count K = 0%nat -> update_entities K = K.
Proof.
  intros H0. unfold update_entities, eval_phase.
  change MAX_ENTITIES with (S 31). cbn [eval_loop fst]. rewrite H0.
  cbn [Nat.ltb Nat.leb]. unfold apply_loop, gc_loop. rewrite H0.
  cbn [seq fold_left]. destruct K as [hs pool n]. cbn in H0. subst n.
  reflexivity.
Qed.

Lemma update_empty_arena_witness : update_entities boot = boot.
Proof. apply update_empty_arena. reflexivity. Defined.

(** ** Mutation *)

Lemma neg_involutive x : F32.neg (F32.neg x) = x.
Proof.
  unfold F32.neg. rewrite Z.lxor_assoc, Z.lxor_nilpotent. apply Z.lxor_0_r.
Qed.

(** Mutating twice at the same tick gives the parent's state back: the
    second sign flip undoes the first. *)
Theorem mutate_involutive (tick : Z) (v : HolographicVector) :
  mutate tick (mutate tick v) = v.
Proof.
  unfold mutate. cbn [data hash_signature active_dimensions valid].
  set (d := Z.to_nat (tick mod Z.of_nat HOLOGRAPHIC_DIMENSIONS)).
  assert (Hdata : <[d := F32.neg (<[d := F32.neg (data v !!! d)]> (data v) !!! d)]>
                    (<[d := F32.neg (data v !!! d)]> (data v)) = data v).
  { destruct (Nat.lt_ge_cases d (length (data v))) as [Hlt|Hge].
    - rewrite list_lookup_total_insert_eq by exact Hlt.
      rewrite neg_involutive, list_insert_insert_eq.
      apply list_insert_id. apply list_lookup_lookup_total_lt. exact Hlt.
    - rewrite !list_insert_ge by (rewrite ?length_insert; lia). reflexivity. }
  rewrite Hdata. destruct v. reflexivity.
Qed.

(** ** One iteration, exactly *)

Lemma is_active_alter (f : Entity -> Entity) j (pool : list Entity) x :
  (forall e, is_active (f e) = is_active e) ->
  is_active (alter f j pool !!! x) = is_active (pool !!! x).
Proof.
  intros Hf. rewrite list_lookup_total_alter.
  destruct (decide _) as [[-> _]|_]; [apply Hf | reflexivity].
Qed.

Lemma select_rule_update_entity j f K i :
  (forall e, is_active (f e) = is_active e) ->
  select_rule (update_entity j f K) i = select_rule K i.
Proof.
  intros Hf.
  unfold select_rule, neighbor_active, prev_idx, next_idx.
  cbn [update_entity entity_pool active_entity_count].
  rewrite !(is_active_alter f j) by exact Hf. reflexivity.
Qed.

Lemma apply_rule_self i K B :
  (i < active_entity_count K)%nat ->
  arena_wf K ->
  entity_pool (fst (apply_rule i (K, B))) !!! i
  = rule_effect (select_rule K i) (entity_pool K !!! i).
Proof.
  intros Hi [Hlen Hcap]. unfold apply_rule.
  destruct (select_rule K i) eqn:Hrule; cbn [fst rule_effect].
  - rewrite pool_update_entity_eq by lia. reflexivity.
  - rewrite pool_update_entity_eq by lia. reflexivity.
  - apply select_rule_spawn in Hrule as (_ & _ & Hc).
    rewrite spawn_rule_room by lia.
    rewrite pool_update_entity_eq
      by (rewrite length_update_entity; cbn [entity_pool]; rewrite length_alter; lia).
    rewrite pool_update_entity_ne by lia.
    cbn [entity_pool]. rewrite list_lookup_total_alter_ne by lia. reflexivity.
  - reflexivity.
Qed.

Lemma align_task_self i K B :
  (i < length (entity_pool K))%nat ->
  entity_pool (fst (align_task i (K, B))) !!! i
  = align_effect (entity_pool K !!! i).
Proof.
  intros Hi. unfold align_task, align_effect.
  destruct (valid (task_vector (entity_pool K !!! i)) =? 0); cbn [fst];
    [reflexivity|].
  destruct (F32.gt _ _); cbn [fst]; [|reflexivity].
  rewrite pool_update_entity_eq by exact Hi. reflexivity.
Qed.

Lemma align_task_keeps i K B :
  active_entity_count (fst (align_task i (K, B))) = active_entity_count K
  /\ holo_system (fst (align_task i (K, B))) = holo_system K
  /\ next_active (snd (align_task i (K, B))) = next_active B.
Proof.
  unfold align_task.
  destruct (valid (task_vector (entity_pool K !!! i)) =? 0); cbn [fst snd];
    [auto|].
  destruct (F32.gt _ _); cbn [fst snd]; auto.
Qed.

(** The record of the evaluated entity after its iteration. *)
Lemma eval_entity_self i K B :
  (i < active_entity_count K)%nat ->
  arena_wf K ->
  entity_pool (fst (eval_entity i (K, B))) !!! i
  = evaluated (select_rule K i) (entity_pool K !!! i).
Proof.
  intros Hi [Hlen Hcap]. rewrite eval_entity_fst.
  set (Ka := update_entity i (fun e => set_age (u32 (age e + 1)) e) K).
  set (Ba := save_next i (entity_pool K !!! i) B).
  assert (Hwa : arena_wf Ka)
    by (split; [unfold Ka; rewrite length_update_entity; exact Hlen | exact Hcap]).
  pose proof (step_shape_apply_rule i Ka Ba Hi Hwa) as Hsb.
  pose proof (apply_rule_self i Ka Ba Hi Hwa) as Hself.
  destruct (apply_rule i (Ka, Ba)) as [Kb Bb]. cbn [fst] in Hsb, Hself.
  assert (Hlb : (i < length (entity_pool Kb))%nat).
  { rewrite (shape_length _ _ _ Hsb). destruct Hwa. lia. }
  pose proof (step_shape_align_task i Kb Bb Hlb) as Hsc.
  rewrite pool_update_entity_eq by (rewrite (shape_length _ _ _ Hsc); exact Hlb).
  rewrite align_task_self by exact Hlb. rewrite Hself.
  unfold Ka at 1. rewrite select_rule_update_entity by reflexivity.
  unfold Ka. rewrite pool_update_entity_eq by lia. reflexivity.
Qed.

(** The arena around the evaluated entity after its iteration: a slot is
    appended exactly when the spawn rule fired, and it holds a fresh active
    mutant of age 0. *)
Lemma eval_entity_around i K B :
  (i < active_entity_count K)%nat ->
  arena_wf K ->
  let K' := fst (eval_entity i (K, B)) in
  length (entity_pool K') = length (entity_pool K)
  /\ active_entity_count K'
     = (active_entity_count K
        + match select_rule K i with RuleSpawn => 1 | _ => 0 end)%nat
  /\ (forall j, j <> i -> (j < active_entity_count K)%nat ->
                entity_pool K' !!! j = entity_pool K !!! j)
  /\ (select_rule K i = RuleSpawn ->
      let child := entity_pool K' !!! active_entity_count K in
      id child = Z.of_nat (active_entity_count K)
      /\ age child = 0 /\ is_active child = 1 /\ is_mutant child = 1
      /\ fitness_score child = 0 /\ spawn_count child = 0
      /\ marked_for_gc child = 0).
Proof.
  intros Hi [Hlen Hcap] K'. subst K'.
  pose proof (step_shape_before_mark i K B Hi (conj Hlen Hcap)) as Hshape.
  rewrite eval_entity_fst.
  set (Ka := update_entity i (fun e => set_age (u32 (age e + 1)) e) K) in *.
  set (Ba := save_next i (entity_pool K !!! i) B) in *.
  assert (Hwa : arena_wf Ka)
    by (split; [unfold Ka; rewrite length_update_entity; exact Hlen | exact Hcap]).
  assert (Hrule : select_rule Ka i = select_rule K i)
    by (unfold Ka; apply select_rule_update_entity; reflexivity).
  pose proof (step_shape_apply_rule i Ka Ba Hi Hwa) as Hsb.
  assert (Hkb : active_entity_count (fst (apply_rule i (Ka, Ba)))
                = (active_entity_count K
                   + match select_rule K i with RuleSpawn => 1 | _ => 0 end)%nat
                /\ (select_rule K i = RuleSpawn ->
                    entity_pool (fst (apply_rule i (Ka, Ba))) !!! active_entity_count K
                    = inherit (global_timestamp
                                 (holo_system (spawn_rule i Ka)))
                        (entity_pool Ka !!! i)
                        (spawn_slot (active_entity_count K)
                           (snd (find_genome (holo_system Ka)))
                           (entity_pool Ka !!! active_entity_count K)))).
  { assert (Hca : active_entity_count Ka = active_entity_count K) by reflexivity.
    unfold apply_rule. rewrite Hrule.
    destruct (select_rule K i) eqn:Hr; cbn [fst];
      try (split; [cbn [update_entity active_entity_count]; lia | discriminate]).
    apply select_rule_spawn in Hrule as (_ & _ & Hc).
    destruct (spawn_rule_child i Ka Hi) as (Hchild & _ & Hcount);
      [unfold MAX_ENTITIES in *; lia | destruct Hwa; assumption |].
    split; [rewrite Hcount; lia|].
    intros _. exact Hchild. }
  destruct (apply_rule i (Ka, Ba)) as [Kb Bb]. cbn [fst] in Hsb, Hkb.
  destruct Hkb as [Hcount Hchild].
  assert (Hlb : (i < length (entity_pool Kb))%nat).
  { rewrite (shape_length _ _ _ Hsb). destruct Hwa. lia. }
  pose proof (step_shape_align_task i Kb Bb Hlb) as Hsc.
  destruct (align_task_keeps i Kb Bb) as (Hcc & _ & _).
  split; [|split; [|split]].
  - rewrite length_update_entity. apply (shape_length _ _ _ Hshape).
  - cbn [update_entity active_entity_count]. rewrite Hcc. exact Hcount.
  - intros j Hne Hj. rewrite pool_update_entity_ne by auto.
    apply (shape_others _ _ _ Hshape); assumption.
  - intros Hr. cbv zeta.
    rewrite pool_update_entity_ne by lia.
    rewrite (shape_others _ _ _ Hsc)
      by (rewrite ?Hcount, ?Hr; lia).
    rewrite (Hchild Hr). repeat split.
Qed.

Lemma evaluated_fields r e :
  frame_of (evaluated r e) = frame_of e
  /\ live_of (evaluated r e) = live_of e
  /\ age (evaluated r e) = u32 (age e + 1)
  /\ (fitness_score (evaluated r e) = fitness_score e
      \/ fitness_score (evaluated r e) = u32 (fitness_score e + 5)
      \/ fitness_score (evaluated r e) = u32 (fitness_score e + 10)
      \/ fitness_score (evaluated r e) = u32 (fitness_score e + 15))
  /\ (r = RuleSpawn \/ spawn_count (evaluated r e) = spawn_count e)
  /\ (r = RuleSpawn ->
      spawn_count (evaluated r e) = u32 (spawn_count e + 1)
      /\ (fitness_score (evaluated r e) = u32 (fitness_score e + 10)
          \/ fitness_score (evaluated r e) = u32 (fitness_score e + 15)))
  /\ interaction_count (evaluated r e)
     = match r with
       | RuleActivate | RuleSleep => u32 (interaction_count e + 1)
       | _ => interaction_count e
       end.
Proof.
  assert (H15 : forall f, u32 (u32 (f + 10) + 5) = u32 (f + 15)).
  { intros f. rewrite !u32_mod, Zplus_mod_idemp_l. f_equal. lia. }
  unfold evaluated, gc_mark, align_effect.
  set (e1 := rule_effect r (set_age (u32 (age e + 1)) e)).
  assert (Hv : task_vector e1 = task_vector e /\ state e1 = state e)
    by (unfold e1; destruct r; split; reflexivity).
  destruct Hv as [Hv Hs]. rewrite Hv, Hs.
  destruct (valid (task_vector e) =? 0);
    [|destruct (F32.gt _ _)];
    match goal with |- context [gc_check ?x] => destruct (gc_check x) end;
    unfold e1; destruct r; cbn;
    rewrite ?H15;
    repeat split; auto; try discriminate.
Qed.

(** ** The evaluation loop, entity by entity *)

Lemma eval_loop_rule (P : nat -> Kernel * NextState -> Prop) :
  (forall i st, P i st ->
     (i <= active_entity_count (fst st) <= MAX_ENTITIES)%nat) ->
  (forall i st, P i st -> (i < active_entity_count (fst st))%nat ->
     P (S i) (eval_entity i st)) ->
  forall fuel i st,
    P i st -> (MAX_ENTITIES <= i + fuel)%nat ->
    P (active_entity_count (fst (eval_loop fuel i st))) (eval_loop fuel i st).
Proof.
  intros Hbound Hstep fuel.
  induction fuel as [|fuel IH]; intros i st HP Hfuel; cbn [eval_loop].
  - pose proof (Hbound i st HP).
    replace (active_entity_count (fst st)) with i by lia. exact HP.
  - destruct (Nat.ltb_spec i (active_entity_count (fst st))) as [Hlt|Hge].
    + apply IH; [apply Hstep; assumption | lia].
    + pose proof (Hbound i st HP).
      replace (active_entity_count (fst st)) with i by lia. exact HP.
Qed.

Lemma trace_inv_start K B : arena_wf K -> trace_inv K 0 (K, B).
Proof.
  intros Hwf. constructor; cbn [fst].
  - exact Hwf.
  - lia.
  - lia.
  - reflexivity.
  - intros j Hj. lia.
  - intros j _ Hj. lia.
  - intros j Hj. lia.
Qed.

Lemma trace_inv_step K0 i st :
  trace_inv K0 i st ->
  (i < active_entity_count (fst st))%nat ->
  trace_inv K0 (S i) (eval_entity i st).
Proof.
  destruct st as [K B]. cbn [fst].
  intros [[Hlen Hcap] Hidx Hcnt Hpend Hdone Hcp Hcd] Hi. cbn [fst] in *.
  destruct (eval_entity_around i K B Hi (conj Hlen Hcap))
    as (Hl & Hc & Hothers & Hchild).
  pose proof (eval_entity_self i K B Hi (conj Hlen Hcap)) as Hself.
  set (K' := fst (eval_entity i (K, B))) in *.
  set (r := select_rule K i) in *.
  assert (Hroom : r = RuleSpawn -> (active_entity_count K < MAX_ENTITIES - 1)%nat).
  { intros Hr. apply (select_rule_spawn K i). exact Hr. }
  destruct (evaluated_fields r (entity_pool K !!! i))
    as (Hframe & Hlive & Hage & _).
  assert (Hfl : is_mutant (entity_pool K' !!! i) = is_mutant (entity_pool K !!! i)
                /\ is_active (entity_pool K' !!! i) = is_active (entity_pool K !!! i)
                /\ id (entity_pool K' !!! i) = id (entity_pool K !!! i)).
  { rewrite Hself. unfold frame_of in Hframe. unfold live_of in Hlive.
    injection Hframe as Hid _ _ _ _ Hmut. injection Hlive as Hact _ _ _ _ _.
    auto. }
  destruct Hfl as (Hmut & Hact & Hid).
  constructor; fold K'.
  - split; [congruence|]. rewrite Hc.
    destruct r; try lia. specialize (Hroom eq_refl). unfold MAX_ENTITIES in *. lia.
  - rewrite Hc. lia.
  - rewrite Hc. lia.
  - intros j Hij Hj. rewrite Hothers by lia. apply Hpend; lia.
  - intros j Hij Hj. destruct (Nat.eq_dec j i) as [->|Hne].
    + exists r. rewrite Hself, Hpend by lia. reflexivity.
    + rewrite Hothers by lia. apply Hdone; lia.
  - intros j Hij Hj. rewrite Hc in Hj.
    destruct (Nat.lt_ge_cases j (active_entity_count K)) as [Hlt|Hge].
    + rewrite Hothers by lia. apply Hcp; lia.
    + assert (Hr : r = RuleSpawn) by (destruct r; try reflexivity; lia).
      rewrite Hr in Hj.
      assert (j = active_entity_count K) as -> by lia.
      destruct (Hchild Hr) as (Hcid & Hcage & Hcact & Hcmut & _).
      auto.
  - intros j Hij Hj. destruct (Nat.eq_dec j i) as [->|Hne].
    + destruct (Hcp i) as (Ha & Hm & Hac & Hi'); [lia | lia |].
      rewrite Hmut, Hact, Hid. rewrite Hself, Hage, Ha.
      repeat split; assumption.
    + rewrite Hothers by lia. apply Hcd; lia.
Qed.

Lemma eval_phase_trace K :
  arena_wf K ->
  trace_inv K (active_entity_count (fst (eval_phase K))) (eval_phase K).
Proof.
  intros Hwf. unfold eval_phase.
  apply (eval_loop_rule (trace_inv K)).
  - intros i st H. destruct (tr_wf _ _ _ H) as [_ Hcap].
    pose proof (tr_index _ _ _ H). lia.
  - apply trace_inv_step.
  - apply trace_inv_start. exact Hwf.
  - lia.
Qed.

(** Across one call, an entity that was live before and survives has aged by
    exactly one, gained 0, 5, 10 or 15 fitness (modulo 2^32), and at most
    one interaction or one spawn; a survivor that was spawned in the call
    comes out of it as an active mutant of age 1, because the loop that
    spawned it also visited it. *)
Theorem update_counters (K : Kernel) (k j : nat) :
  arena_wf K ->
  let K1 := fst (eval_phase K) in
  let srcs := survivor_indices (entity_pool K1) (active_entity_count K1) in
  srcs !! k = Some j ->
  let e := entity_pool K !!! j in
  let e' := entity_pool (update_entities K) !!! k in
  ((j < active_entity_count K)%nat ->
   age e' = u32 (age e + 1)
   /\ (fitness_score e' = fitness_score e
       \/ fitness_score e' = u32 (fitness_score e + 5)
       \/ fitness_score e' = u32 (fitness_score e + 10)
       \/ fitness_score e' = u32 (fitness_score e + 15))
   /\ (spawn_count e' = spawn_count e
       \/ spawn_count e' = u32 (spawn_count e + 1))
   /\ (interaction_count e' = interaction_count e
       \/ interaction_count e' = u32 (interaction_count e + 1)))
  /\ ((active_entity_count K <= j)%nat ->
      age e' = 1 /\ is_mutant e' = 1 /\ id e' = Z.of_nat j).
Proof.
  intros Hwf K1 srcs Hk e e'.
  destruct (update_entities_spec K Hwf) as (_ & _ & _ & _ & Hsurv).
  fold K1 in Hsurv. fold srcs in Hsurv.
  pose proof (eval_phase_trace K Hwf) as Htr. fold K1 in Htr.
  destruct (survivor_lookup _ _ _ _ Hk) as [Hj _].
  assert (He' : age e' = age (entity_pool K1 !!! j)
                /\ fitness_score e' = fitness_score (entity_pool K1 !!! j)
                /\ spawn_count e' = spawn_count (entity_pool K1 !!! j)
                /\ interaction_count e' = interaction_count (entity_pool K1 !!! j)
                /\ is_mutant e' = is_mutant (entity_pool K1 !!! j)
                /\ id e' = id (entity_pool K1 !!! j)).
  { unfold e'. rewrite (Hsurv k j Hk). repeat split. }
  destruct He' as (-> & -> & -> & -> & -> & ->).
  split.
  - intros Hold.
    destruct (tr_done _ _ _ Htr j Hj Hold) as [r Hr]. fold K1 in Hr. rewrite Hr.
    destruct (evaluated_fields r (entity_pool K !!! j))
      as (_ & _ & Hage & Hfit & Hsp & Hsp' & Hic).
    fold e in Hage, Hfit, Hsp, Hsp', Hic |- *.
    split; [exact Hage|]. split; [exact Hfit|]. split.
    + destruct Hsp as [Hs|Hs]; [right; apply Hsp'; exact Hs | left; exact Hs].
    + rewrite Hic. destruct r; auto.
  - intros Hnew.
    destruct (tr_child_done _ _ _ Htr j Hj Hnew) as (Ha & Hm & _ & Hi).
    auto.
Qed.

Lemma update_counters_witness :
  age (entity_pool (update_entities gc_sample) !!! 0%nat) = 1001
  /\ age (entity_pool (update_entities one_entity) !!! 1%nat) = 1.
Proof.
  split.
  - destruct (update_counters gc_sample 0 1) as [Hold _].
    + split; vm_compute; [reflexivity | lia].
    + vm_compute. reflexivity.
    + destruct Hold as [Hage _]; [vm_compute; lia|].
      rewrite Hage. vm_compute. reflexivity.
  - destruct (update_counters one_entity 1 1) as [_ Hnew].
    + split; vm_compute; [reflexivity | lia].
    + vm_compute. reflexivity.
    + destruct Hnew as [Hage _]; [vm_compute; lia | exact Hage].
Defined.

(** ** Arenas in which every live entity is active *)

Lemma ring_idx_bound K i :
  (i < active_entity_count K)%nat ->
  (prev_idx K i < active_entity_count K)%nat
  /\ (next_idx K i < active_entity_count K)%nat.
Proof.
  intros Hi. unfold prev_idx, next_idx. split.
  - destruct (Nat.eqb_spec i 0); lia.
  - destruct (Nat.eqb_spec i (active_entity_count K - 1)); lia.
Qed.

Lemma select_rule_all_active K i :
  all_active K ->
  (i < active_entity_count K)%nat ->
  select_rule K i
  = if (active_entity_count K <? MAX_ENTITIES - 1)%nat
    then RuleSpawn else RuleNone.
Proof.
  intros Hall Hi. destruct (ring_idx_bound K i Hi) as [Hp Hn].
  unfold select_rule, neighbor_active.
  rewrite (Hall i Hi), (Hall _ Hp), (Hall _ Hn). reflexivity.
Qed.

Lemma eval_entity_snd i K B :
  snd (eval_entity i (K, B))
  = snd (align_task i
           (apply_rule i
              (update_entity i (fun e => set_age (u32 (age e + 1)) e) K,
               save_next i (entity_pool K !!! i) B))).
Proof.
  unfold eval_entity. destruct (align_task i _) as [K2 B2]. reflexivity.
Qed.

Lemma eval_entity_next_active i K B :
  select_rule K i = RuleSpawn \/ select_rule K i = RuleNone ->
  next_active (snd (eval_entity i (K, B)))
  = <[i := is_active (entity_pool K !!! i)]> (next_active B).
Proof.
  intros Hrule. rewrite eval_entity_snd.
  set (Ka := update_entity i (fun e => set_age (u32 (age e + 1)) e) K).
  assert (Hr : select_rule Ka i = select_rule K i)
    by (apply select_rule_update_entity; reflexivity).
  assert (Hb : snd (apply_rule i (Ka, save_next i (entity_pool K !!! i) B))
               = save_next i (entity_pool K !!! i) B).
  { unfold apply_rule. rewrite Hr. destruct Hrule as [-> | ->]; reflexivity. }
  destruct (apply_rule i (Ka, save_next i (entity_pool K !!! i) B)) as [Kb Bb].
  cbn [snd] in Hb. subst Bb.
  destruct (align_task_keeps i Kb (save_next i (entity_pool K !!! i) B))
    as (_ & _ & ->).
  reflexivity.
Qed.

Lemma active_inv_step K0 i st :
  trace_inv K0 i st -> active_inv K0 i st ->
  (i < active_entity_count (fst st))%nat ->
  active_inv K0 (S i) (eval_entity i st).
Proof.
  destruct st as [K B]. cbn [fst snd].
  intros Htr [Hall Hlen Hnext Hcount] Hi. cbn [fst snd] in *.
  pose proof (tr_wf _ _ _ Htr) as Hwf. cbn [fst] in Hwf.
  destruct (eval_entity_around i K B Hi Hwf) as (Hl & Hc & Hothers & Hchild).
  pose proof (eval_entity_self i K B Hi Hwf) as Hself.
  pose proof (select_rule_all_active K i Hall Hi) as Hrule.
  assert (Hsn : select_rule K i = RuleSpawn \/ select_rule K i = RuleNone).
  { rewrite Hrule. destruct (_ <? _)%nat; auto. }
  pose proof (eval_entity_next_active i K B Hsn) as Hbuf.
  rewrite (Hall i Hi) in Hbuf.
  destruct Hwf as [Hwl Hwc].
  constructor.
  - intros j Hj. rewrite Hc in Hj.
    destruct (Nat.eq_dec j i) as [->|Hne].
    + rewrite Hself.
      destruct (evaluated_fields (select_rule K i) (entity_pool K !!! i))
        as (_ & Hlive & _).
      unfold live_of in Hlive. injection Hlive as Hact _ _ _ _ _.
      rewrite Hact. apply Hall. exact Hi.
    + destruct (Nat.lt_ge_cases j (active_entity_count K)) as [Hlt|Hge].
      * rewrite Hothers by assumption. apply Hall. exact Hlt.
      * assert (Hr : select_rule K i = RuleSpawn)
          by (destruct (select_rule K i); try reflexivity; lia).
        rewrite Hr in Hj. assert (j = active_entity_count K) as -> by lia.
        apply (Hchild Hr).
  - rewrite Hbuf, length_insert. exact Hlen.
  - intros j Hj. rewrite Hbuf.
    destruct (Nat.eq_dec j i) as [->|Hne].
    + apply list_lookup_total_insert_eq. lia.
    + rewrite list_lookup_total_insert_ne by auto. apply Hnext. lia.
  - rewrite Hc, Hrule, Hcount.
    destruct (Nat.ltb_spec
                (Nat.max (active_entity_count K0)
                   (Nat.min (active_entity_count K0 + i) (MAX_ENTITIES - 1)))
                (MAX_ENTITIES - 1)); unfold MAX_ENTITIES in *; lia.
Qed.

Lemma eval_phase_active K :
  arena_wf K -> all_active K ->
  trace_inv K (active_entity_count (fst (eval_phase K))) (eval_phase K)
  /\ active_inv K (active_entity_count (fst (eval_phase K))) (eval_phase K).
Proof.
  intros Hwf Hall. unfold eval_phase.
  apply (eval_loop_rule (fun i st => trace_inv K i st /\ active_inv K i st)).
  - intros i st [H _]. destruct (tr_wf _ _ _ H) as [_ Hcap].
    pose proof (tr_index _ _ _ H). lia.
  - intros i st [Htr Hac] Hi. split.
    + apply trace_inv_step; assumption.
    + apply active_inv_step; assumption.
  - split; [apply trace_inv_start; exact Hwf|].
    constructor; cbn [fst snd].
    + exact Hall.
    + apply length_replicate.
    + intros j Hj. lia.
    + destruct Hwf as [_ Hcap]. unfold MAX_ENTITIES in *. lia.
  - lia.
Qed.

Lemma update_entities_all_active K :
  arena_wf K -> all_active K -> all_active (update_entities K).
Proof.
  intros Hwf Hall.
  destruct (update_entities_spec K Hwf) as (_ & Hcount & _ & _ & Hsurv).
  destruct (eval_phase_active K Hwf Hall) as [_ Hac].
  cbv zeta in Hcount, Hsurv.
  intros k Hk. rewrite Hcount in Hk.
  destruct (lookup_lt_is_Some_2 _ k Hk) as [j Hj].
  rewrite (Hsurv k j Hj).
  change (is_active (apply_next ?B j ?e)) with (next_active B !!! j).
  apply (ac_next _ _ _ Hac). apply (survivor_lookup _ _ _ _ Hj).
Qed.

Lemma init_loop_all_active n trait g : forall K,
  arena_wf K -> all_active K -> all_active (init_loop n trait g K).
Proof.
  intros K Hwf Hall j Hj.
  destruct (init_loop_spec n trait g K Hwf) as (_ & _ & _ & Hp).
  cbv zeta in Hp. rewrite Hp.
  destruct (Nat.leb_spec (active_entity_count K) j); cbn [andb].
  - destruct (Nat.ltb_spec j (active_entity_count (init_loop n trait g K)));
      [reflexivity | lia].
  - apply Hall. lia.
Qed.

Lemma reachable_all_active K : reachable K -> all_active K.
Proof.
  induction 1 as [|K _ IH|K _ IH|K HK IH|K v i _ IH|K HK IH|K HK IH|K _ IH].
  - intros j Hj. cbn in Hj. lia.
  - exact IH.
  - exact IH.
  - unfold initialize_emergent_entities.
    destruct (find_genome (holo_system K)) as [hs g].
    apply init_loop_all_active; [|exact IH].
    apply (reachable_clean K HK).
  - unfold assign_task.
    destruct (i <? active_entity_count K)%nat; [|exact IH].
    intros j Hj. cbn [update_entity entity_pool active_entity_count] in *.
    rewrite is_active_alter by reflexivity. apply IH. exact Hj.
  - destruct (reachable_clean K HK) as [[Hlen Hcap] _].
    unfold spawn_entity.
    destruct (Nat.leb_spec MAX_ENTITIES (active_entity_count K)); [exact IH|].
    destruct (find_genome (holo_system K)) as [hs g].
    intros j Hj. cbn [fst entity_pool active_entity_count] in *.
    destruct (Nat.eq_dec j (active_entity_count K)) as [->|Hne].
    + rewrite list_lookup_total_alter_eq by lia. reflexivity.
    + rewrite list_lookup_total_alter_ne by auto. apply IH. lia.
  - apply update_entities_all_active; [|exact IH].
    apply (reachable_clean K HK).
  - exact IH.
Qed.

(** In every reachable arena all live entities are active, so the activate
    and the sleep rule never fire: an entity under evaluation spawns while
    fewer than 31 entities are live and is left alone otherwise. *)
Theorem reachable_entities_active (K : Kernel) (i : nat) :
  reachable K ->
  (i < active_entity_count K)%nat ->
  is_active (entity_pool K !!! i) = 1
  /\ select_rule K i
     = if (active_entity_count K <? 31)%nat then RuleSpawn else RuleNone.
Proof.
  intros HK Hi. pose proof (reachable_all_active K HK) as Hall.
  split; [apply Hall; exact Hi|].
  apply select_rule_all_active; assumption.
Qed.

Lemma reachable_entities_active_witness :
  is_active (entity_pool full_ring !!! 30%nat) = 1
  /\ select_rule full_ring 30 = RuleNone.
Proof.
  assert (H31 : active_entity_count full_ring = 31%nat) by (vm_compute; reflexivity).
  destruct (reachable_entities_active full_ring 30) as [Hact Hrule].
  - apply reach_update, reach_spawn, reach_boot.
  - rewrite H31. lia.
  - rewrite H31 in Hrule. split; [exact Hact | exact Hrule].
Defined.

(** One call fills a reachable arena that is neither empty nor full: its
    evaluation loop spawns until 31 entities are live, each child being
    evaluated in the same loop, and the collection pass then removes the
    marked ones.  A call never fills the last slot. *)
Theorem update_fills_the_ring (K : Kernel) :
  reachable K ->
  (1 <= active_entity_count K <= 31)%nat ->
  active_entity_count (fst (eval_phase K)) = 31%nat
  /\ (active_entity_count (update_entities K) <= 31)%nat
  /\ active_entity_count (update_entities K)
     = length (survivor_indices (entity_pool (fst (eval_phase K))) 31).
Proof.
  intros HK Hn.
  destruct (reachable_clean K HK) as [Hwf _].
  pose proof (reachable_all_active K HK) as Hall.
  destruct (eval_phase_active K Hwf Hall) as [Htr Hac].
  pose proof (ac_count _ _ _ Hac) as Hc.
  assert (H31 : active_entity_count (fst (eval_phase K)) = 31%nat)
    by (unfold MAX_ENTITIES in Hc; lia).
  destruct (update_entities_spec K Hwf) as (_ & Hcount & _).
  cbv zeta in Hcount. rewrite H31 in Hcount.
  split; [exact H31|]. split; [|exact Hcount].
  rewrite Hcount. apply survivor_indices_length.
Qed.

Lemma update_fills_the_ring_witness :
  active_entity_count (fst (eval_phase booted)) = 31%nat.
Proof.
  destruct (update_fills_the_ring booted) as [H31 _]; [| |exact H31].
  - unfold booted, kmain_init.
    cbn [fold_left seq].
    apply reach_assign_task, reach_assign_task, reach_initialize_entities.
    apply reach_load_vocabulary, reach_initialize_memory, reach_boot.
  - assert (H3 : active_entity_count booted = 3%nat) by (vm_compute; reflexivity).
    rewrite H3. lia.
Defined.

(** ** Console output *)

Lemma print_char_cell (c color : Z) (con : Console) :
  0 <= position con < VIDEO_CELLS ->
  0 <= position (print_char c color con) < VIDEO_CELLS
  /\ (c = 10 -> video (print_char c color con) = video con)
  /\ (c <> 10 ->
      video (print_char c color con)
      = <[Z.to_nat (position con * 2 + 1) := color]>
          (<[Z.to_nat (position con * 2) := c]> (video con))
      /\ position con * 2 + 1 < 2 * VIDEO_CELLS).
Proof.
  unfold VIDEO_CELLS. intros Hpos. unfold print_char, VIDEO_CELLS.
  destruct (Z.eqb_spec c 10) as [Hc|Hc]; cbn [position video].
  - destruct (Z.leb_spec (80 * 25) ((position con / 80 + 1) * 80));
      cbn [position video].
    + split; [lia|]. split; [reflexivity | contradiction].
    + split; [|split; [reflexivity | contradiction]].
      assert (0 <= position con / 80) by (apply Z.div_pos; lia). lia.
  - destruct (Z.leb_spec (80 * 25) (position con + 1)); cbn [position video].
    + split; [lia|]. split; [contradiction|]. intros _. split; [reflexivity | lia].
    + split; [lia|]. split; [contradiction|]. intros _. split; [reflexivity | lia].
Qed.

Lemma print_position str : forall con,
  0 <= position con < VIDEO_CELLS ->
  0 <= position (print str con) < VIDEO_CELLS.
Proof.
  induction str as [|c rest IH]; intros con Hpos; cbn [print]; [exact Hpos|].
  destruct (c =? 0); [exact Hpos|].
  apply IH. apply print_char_cell. exact Hpos.
Qed.

(** Console output stays on the screen.  From a cursor inside the 2000
    cells, [print_char] writes nothing for a newline and otherwise the two
    bytes of the cell under the cursor, both inside the 4000 bytes of video
    memory, and leaves the cursor inside the screen (wrapping to cell 0 at
    the end); so does [print] for a whole string and [print_hex] for a
    number. *)
Theorem console_output_on_screen (con : Console) :
  0 <= position con < VIDEO_CELLS ->
  (forall c color,
     0 <= position (print_char c color con) < VIDEO_CELLS
     /\ (c = 10 -> video (print_char c color con) = video con)
     /\ (c <> 10 ->
         video (print_char c color con)
         = <[Z.to_nat (position con * 2 + 1) := color]>
             (<[Z.to_nat (position con * 2) := c]> (video con))
         /\ position con * 2 + 1 < 2 * VIDEO_CELLS))
  /\ (forall str, 0 <= position (print str con) < VIDEO_CELLS)
  /\ (forall value, 0 <= position (print_hex value con) < VIDEO_CELLS).
Proof.
  intros Hpos. split; [|split].
  - intros c color. apply print_char_cell. exact Hpos.
  - intros str. apply print_position. exact Hpos.
  - intros value. unfold print_hex. apply print_position, print_position.
    exact Hpos.
Qed.

Lemma console_output_on_screen_witness :
  position (print_char 10 0x0f {| video := replicate 4000 0; position := 1999 |}) = 0
  /\ 0 <= position (print_hex 0xA1 {| video := replicate 4000 0; position := 1995 |})
       < VIDEO_CELLS.
Proof.
  split; [reflexivity|].
  destruct (console_output_on_screen
              {| video := replicate 4000 0; position := 1995 |}) as (_ & _ & H).
  - cbn. unfold VIDEO_CELLS. lia.
  - apply H.
Defined.

(** ** Hexadecimal output *)

Lemma hex_digit_value n :
  0 <= n < 16 -> hex_char_value (hex_digits !!! Z.to_nat n) = n.
Proof.
  intros Hn. rewrite <- (Z2Nat.id n) at 2 by lia.
  assert (Hk : (Z.to_nat n < 16)%nat) by lia.
  revert Hk. generalize (Z.to_nat n). intros k Hk.
  do 16 (destruct k as [|k]; [reflexivity|]). lia.
Qed.

Lemma hex_digit_nonzero k : (k < 16)%nat -> hex_digits !!! k <> 0.
Proof.
  intros Hk. do 16 (destruct k as [|k]; [discriminate|]). lia.
Qed.

Lemma nibble_range value i :
  0 <= Z.land (Z.shiftr value (Z.of_nat i * 4)) 0xF < 16.
Proof.
  change 0xF with (Z.ones 4). rewrite Z.land_ones by lia.
  apply Z.mod_pos_bound. lia.
Qed.

Lemma print_hex_buffer_digits value :
  print_hex_buffer value
  = map (fun i => hex_digits
                    !!! Z.to_nat (Z.land (Z.shiftr value (Z.of_nat i * 4)) 0xF))
        [7; 6; 5; 4; 3; 2; 1; 0]%nat ++ [0].
Proof. reflexivity. Qed.

(** The digits [print_hex] prints after "0x" read back as the value: the
    buffer is nine bytes, the ninth is the NUL and none of the eight before
    it is, so all eight are printed, and reading them as hexadecimal digits,
    most significant first, gives the 32-bit value that was passed. *)
Theorem print_hex_round_trip (value : Z) :
  0 <= value < 2 ^ 32 ->
  length (print_hex_buffer value) = 9%nat
  /\ print_hex_buffer value !!! 8%nat = 0
  /\ strlen (print_hex_buffer value) = 8%nat
  /\ hex_parse (take 8 (print_hex_buffer value)) = value.
Proof.
  intros Hv. rewrite print_hex_buffer_digits.
  cbn [map app length lookup_total list_lookup_total take].
  assert (Hnz : forall i, hex_digits
                  !!! Z.to_nat (Z.land (Z.shiftr value (Z.of_nat i * 4)) 0xF) <> 0).
  { intros i. pose proof (nibble_range value i) as Hr.
    apply hex_digit_nonzero. lia. }
  split; [reflexivity|]. split; [reflexivity|]. split.
  - cbn [strlen].
    repeat (match goal with
            | |- context [?x =? 0] =>
                destruct (Z.eqb_spec x 0) as [Habs|_];
                [exfalso; exact (Hnz _ Habs)|]
            end).
    reflexivity.
  - unfold hex_parse. cbn [fold_left].
    rewrite !hex_digit_value by apply nibble_range.
    change 0xF with (Z.ones 4). rewrite !Z.land_ones by lia.
    rewrite !Z.shiftr_div_pow2 by lia.
    cbn [Z.of_nat Pos.of_succ_nat Pos.succ Z.mul Pos.mul Pos.add].
    change (2 ^ 28) with 268435456. change (2 ^ 24) with 16777216.
    change (2 ^ 20) with 1048576. change (2 ^ 16) with 65536.
    change (2 ^ 12) with 4096. change (2 ^ 8) with 256.
    change (2 ^ 4) with 16. change (2 ^ 0) with 1.
    change (2 ^ 32) with 4294967296 in Hv.
    rewrite Z.div_1_r.
    Z.to_euclidean_division_equations. lia.
Qed.

Lemma print_hex_round_trip_witness :
  hex_parse (take 8 (print_hex_buffer 0xA1)) = 0xA1.
Proof.
  destruct (print_hex_round_trip 0xA1) as (_ & _ & _ & H); [lia|exact H].
Defined.

(** ** String helpers *)

Lemma strlen_nonzero str : forall x, (x < strlen str)%nat -> str !!! x <> 0.
Proof.
  induction str as [|c rest IH]; intros x Hx; cbn [strlen] in Hx; [lia|].
  destruct (Z.eqb_spec c 0) as [Hc|Hc]; [lia|].
  destruct x as [|x]; [exact Hc|]. apply IH. lia.
Qed.

Lemma strlen_le str : (strlen str <= length str)%nat.
Proof.
  induction str as [|c rest IH]; cbn [strlen length]; [lia|].
  destruct (c =? 0); lia.
Qed.

Lemma strlen_nul str :
  (strlen str < length str)%nat -> str !!! strlen str = 0.
Proof.
  induction str as [|c rest IH]; cbn [strlen length]; [lia|].
  destruct (Z.eqb_spec c 0) as [Hc|Hc]; intros Hlt; [exact Hc|].
  apply IH. lia.
Qed.

Lemma strlen_unique str m :
  (forall x, (x < m)%nat -> str !!! x <> 0) ->
  (m < length str)%nat -> str !!! m = 0 ->
  strlen str = m.
Proof.
  revert m. induction str as [|c rest IH]; intros m Hnz Hlen Hm;
    cbn [length] in Hlen; [lia|].
  cbn [strlen]. destruct (Z.eqb_spec c 0) as [Hc|Hc].
  - destruct m as [|m]; [reflexivity|]. exfalso. apply (Hnz 0%nat); [lia|exact Hc].
  - destruct m as [|m]; [contradiction|].
    f_equal. apply IH; [|lia|exact Hm].
    intros x Hx. apply (Hnz (S x)). lia.
Qed.

Lemma strncpy_copy_spec k : forall i dest src,
  (i + k <= length dest)%nat ->
  (i <= strlen src)%nat ->
  (strlen src < length src)%nat ->
  let r := strncpy_copy k i dest src in
  snd r = Nat.min (i + k) (strlen src)
  /\ length (fst r) = length dest
  /\ forall x, fst r !!! x
               = if ((i <=? x) && (x <? snd r))%nat then src !!! x
                 else dest !!! x.
Proof.
  induction k as [|k IH]; intros i dest src Hlen Hi Hnul; cbn [strncpy_copy];
    cbv zeta.
  - cbn [fst snd]. split; [lia|]. split; [reflexivity|]. intros x.
    destruct (Nat.leb_spec i x), (Nat.ltb_spec x i); try reflexivity; lia.
  - destruct (Z.eqb_spec (src !!! i) 0) as [Hz|Hnz]; cbn [fst snd].
    + assert (i = strlen src).
      { destruct (Nat.eq_dec i (strlen src)) as [|Hne]; [assumption|].
        exfalso. apply (strlen_nonzero src i); [lia | exact Hz]. }
      split; [lia|]. split; [reflexivity|]. intros x.
      destruct (Nat.leb_spec i x), (Nat.ltb_spec x i); try reflexivity; lia.
    + assert (i <> strlen src)
        by (intros ->; apply Hnz, strlen_nul; exact Hnul).
      destruct (IH (S i) (<[i := src !!! i]> dest) src) as (Hj & Hl & Hx);
        [rewrite length_insert; lia | lia | exact Hnul |].
      cbv zeta in Hj, Hl, Hx.
      split; [rewrite Hj; lia|]. split; [rewrite Hl; apply length_insert|].
      intros x. rewrite Hx, Hj.
      destruct (Nat.eq_dec x i) as [->|Hne].
      * destruct (Nat.leb_spec (S i) i); [lia|]. cbn [andb].
        rewrite list_lookup_total_insert_eq by lia.
        destruct (Nat.leb_spec i i); [|lia].
        destruct (Nat.ltb_spec i (Nat.min (S i + k) (strlen src)));
          [reflexivity | lia].
      * rewrite list_lookup_total_insert_ne by auto.
        destruct (Nat.leb_spec (S i) x), (Nat.leb_spec i x);
          try reflexivity; lia.
Qed.

Lemma strncpy_pad_spec k : forall i dest,
  (i + k <= length dest)%nat ->
  length (strncpy_pad k i dest) = length dest
  /\ forall x, strncpy_pad k i dest !!! x
               = if ((i <=? x) && (x <? i + k))%nat then 0 else dest !!! x.
Proof.
  induction k as [|k IH]; intros i dest Hlen; cbn [strncpy_pad].
  - split; [reflexivity|]. intros x.
    destruct (Nat.leb_spec i x), (Nat.ltb_spec x (i + 0)); try reflexivity; lia.
  - destruct (IH (S i) (<[i := 0]> dest)) as [Hl Hx];
      [rewrite length_insert; lia|].
    split; [rewrite Hl; apply length_insert|].
    intros x. rewrite Hx.
    destruct (Nat.eq_dec x i) as [->|Hne].
    + destruct (Nat.leb_spec (S i) i); [lia|]. cbn [andb].
      rewrite list_lookup_total_insert_eq by lia.
      destruct (Nat.leb_spec i i), (Nat.ltb_spec i (i + S k));
        try reflexivity; lia.
    + rewrite list_lookup_total_insert_ne by auto.
      destruct (Nat.leb_spec (S i) x), (Nat.leb_spec i x),
               (Nat.ltb_spec x (S i + k)), (Nat.ltb_spec x (i + S k));
        try reflexivity; lia.
Qed.

(** [strncpy] into a buffer of at least [n] bytes, from a NUL-terminated
    source: the first [n] bytes of the destination are the source's bytes up
    to its length, then zeros; the rest of the destination is untouched. *)
Lemma strncpy_spec dest src n :
  (n <= length dest)%nat ->
  (strlen src < length src)%nat ->
  length (strncpy dest src n) = length dest
  /\ forall x, strncpy dest src n !!! x
               = if (x <? Nat.min n (strlen src))%nat then src !!! x
                 else if (x <? n)%nat then 0 else dest !!! x.
Proof.
  intros Hn Hnul. unfold strncpy.
  destruct (strncpy_copy_spec n 0 dest src) as (Hj & Hl & Hx);
    [lia | lia | exact Hnul |].
  cbv zeta in Hj, Hl, Hx.
  destruct (strncpy_copy n 0 dest src) as [d j]. cbn [fst snd] in *.
  destruct (strncpy_pad_spec (n - j) j d) as [Hpl Hpx]; [lia|].
  split; [congruence|]. intros x. rewrite Hpx, Hx, Hj.
  cbn [Nat.add Nat.leb andb].
  destruct (Nat.leb_spec (Nat.min n (strlen src)) x),
           (Nat.ltb_spec x (Nat.min n (strlen src) + (n - Nat.min n (strlen src)))),
           (Nat.ltb_spec x (Nat.min n (strlen src))),
           (Nat.ltb_spec x n); cbn [andb]; try reflexivity; lia.
Qed.

Lemma substring_take n : forall s,
  list_ascii_of_string (String.substring 0 n s)
  = take n (list_ascii_of_string s).
Proof.
  induction n as [|n IH]; intros s.
  - destruct s; reflexivity.
  - destruct s as [|c s]; [reflexivity|].
    cbn [String.substring list_ascii_of_string take]. rewrite IH. reflexivity.
Qed.

(** The idiom of the source, [strncpy(dest, src, n); dest[n] = 0] into a
    buffer of [n + 1] bytes: the destination then holds the first [n]
    characters of the source string (all of it when it is shorter) and is
    NUL-terminated.  With [n = 31] this is what the entity model writes as
    [strncpy31] on strings. *)
Theorem strncpy_terminated (dest src : list Z) (n : nat) :
  length dest = S n ->
  (strlen src < length src)%nat ->
  let dest' := <[n := 0]> (strncpy dest src n) in
  length dest' = S n
  /\ strlen dest' = Nat.min n (strlen src)
  /\ c_string dest' = take n (c_string src)
  /\ (forall s, n = 31%nat -> c_string src = bytes_of_string s ->
                c_string dest' = bytes_of_string (strncpy31 s)).
Proof.
  intros Hlen Hnul dest'.
  destruct (strncpy_spec dest src n) as [Hl Hx]; [lia | exact Hnul |].
  assert (Hl' : length dest' = S n)
    by (unfold dest'; rewrite length_insert; congruence).
  set (m := Nat.min n (strlen src)).
  assert (Hread : forall x, (x < m)%nat -> dest' !!! x = src !!! x).
  { intros x Hxm. unfold dest'.
    rewrite list_lookup_total_insert_ne by (unfold m in Hxm; lia).
    rewrite Hx. fold m. destruct (Nat.ltb_spec x m); [reflexivity | lia]. }
  assert (Hzero : dest' !!! m = 0).
  { unfold dest'. destruct (Nat.eq_dec m n) as [->|Hne].
    - apply list_lookup_total_insert_eq. lia.
    - rewrite list_lookup_total_insert_ne by auto. rewrite Hx. fold m.
      destruct (Nat.ltb_spec m m); [lia|].
      destruct (Nat.ltb_spec m n); [reflexivity | unfold m in *; lia]. }
  assert (Hstrlen : strlen dest' = m).
  { apply strlen_unique; [|unfold m; lia | exact Hzero].
    intros x Hxm. rewrite Hread by exact Hxm.
    apply strlen_nonzero. unfold m in Hxm. lia. }
  assert (Hcs : c_string dest' = take n (c_string src)).
  { unfold c_string. rewrite Hstrlen, take_take. fold m.
    apply list_eq. intros x.
    destruct (Nat.lt_ge_cases x m) as [Hxm|Hxm].
    - rewrite !lookup_take_lt by exact Hxm.
      rewrite !list_lookup_lookup_total_lt by (unfold m in Hxm; lia).
      rewrite Hread by exact Hxm. reflexivity.
    - rewrite !lookup_take_ge by exact Hxm. reflexivity. }
  split; [exact Hl'|]. split; [exact Hstrlen|]. split; [exact Hcs|].
  intros s Hn Hs. rewrite Hcs, Hs, Hn.
  unfold bytes_of_string, strncpy31. rewrite substring_take.
  symmetry. apply fmap_take.
Qed.

Lemma strncpy_terminated_witness :
  c_string (<[31%nat := 0]> (strncpy (replicate 32 7) (cstring "reactor") 31))
  = bytes_of_string "reactor".
Proof.
  destruct (strncpy_terminated (replicate 32 7) (cstring "reactor") 31)
    as (_ & _ & H & _).
  - reflexivity.
  - vm_compute. lia.
  - rewrite H. reflexivity.
Defined.

(** ** The entity table on the screen *)

Lemma put_all cs : forall video pos,
  (pos + 2 * length cs <= length video)%nat ->
  let r := fold_left put cs (video, pos) in
  snd r = (pos + 2 * length cs)%nat
  /\ length (fst r) = length video
  /\ (forall k, (k < length cs)%nat ->
                fst r !!! (pos + 2 * k)%nat = u8 (cs !!! k))
  /\ (forall p, (forall k, (k < length cs)%nat -> p <> (pos + 2 * k)%nat) ->
                fst r !!! p = video !!! p).
Proof.
  induction cs as [|c cs IH]; intros video pos Hlen; cbn [fold_left length] in *.
  - cbn [fst snd]. split; [lia|]. split; [reflexivity|].
    split; [intros k Hk; lia | reflexivity].
  - change (put (video, pos) c) with (<[pos := u8 c]> video, (pos + 2)%nat).
    cbv zeta.
    destruct (IH (<[pos := u8 c]> video) (pos + 2)%nat) as (Hs & Hl & Hin & Hout);
      [rewrite length_insert; lia|].
    cbv zeta in Hs, Hl, Hin, Hout.
    split; [rewrite Hs; lia|].
    split; [rewrite Hl; apply length_insert|].
    split.
    + intros [|k] Hk.
      * replace (pos + 2 * 0)%nat with pos by lia.
        rewrite Hout by (intros; lia).
        apply list_lookup_total_insert_eq. lia.
      * replace (pos + 2 * S k)%nat with (pos + 2 + 2 * k)%nat by lia.
        rewrite Hin by lia. reflexivity.
    + intros p Hp. rewrite Hout.
      * apply list_lookup_total_insert_ne. intros ->. apply (Hp 0%nat); lia.
      * intros k Hk ->. apply (Hp (S k)); lia.
Qed.

Lemma length_c_string buffer : length (c_string buffer) = strlen buffer.
Proof.
  unfold c_string. rewrite length_take. pose proof (strlen_le buffer). lia.
Qed.

Lemma domain_loop_fold name : forall fuel j vp,
  (j + fuel = 6)%nat ->
  domain_loop fuel j name vp
  = fold_left put (take (6 - j) (drop j (c_string name))) vp.
Proof.
  induction fuel as [|fuel IH]; intros j vp Hj; cbn [domain_loop].
  - replace (6 - j)%nat with 0%nat by lia. reflexivity.
  - destruct (Nat.ltb_spec j 6) as [_|?]; [|lia]. cbn [andb].
    destruct (Nat.ltb_spec j (strlen name)) as [Hlt|Hge].
    + rewrite IH by lia.
      replace (6 - j)%nat with (S (6 - S j)) by lia.
      rewrite (drop_S (c_string name) (name !!! j) j).
      * reflexivity.
      * unfold c_string. rewrite lookup_take_lt by exact Hlt.
        apply list_lookup_lookup_total_lt. pose proof (strlen_le name). lia.
    + rewrite drop_ge by (rewrite length_c_string; lia).
      rewrite take_nil. reflexivity.
Qed.

Lemma pad_loop_fold : forall fuel j vp,
  (6 - j <= fuel)%nat ->
  pad_loop fuel j vp = fold_left put (replicate (6 - j) 32) vp.
Proof.
  induction fuel as [|fuel IH]; intros j vp Hj; cbn [pad_loop].
  - replace (6 - j)%nat with 0%nat by lia. reflexivity.
  - destruct (Nat.ltb_spec j 6) as [Hlt|Hge].
    + rewrite IH by lia.
      replace (6 - j)%nat with (S (6 - S j)) by lia. reflexivity.
    + replace (6 - j)%nat with 0%nat by lia. reflexivity.
Qed.

Lemma length_domain_field name : length (domain_field name) = 6%nat.
Proof.
  unfold domain_field.
  rewrite length_app, length_take, length_replicate, length_c_string.
  lia.
Qed.

Lemma length_row_text e : length (row_text e) = 26%nat.
Proof.
  unfold row_text. rewrite !length_app, length_domain_field. reflexivity.
Qed.

Lemma render_row_text e i video :
  render_row e i video
  = fst (fold_left put (row_text e)
           (video, ((start_line + i) * 80 + start_col) * 2)%nat).
Proof.
  unfold render_row, row_text. cbv zeta.
  rewrite domain_loop_fold by reflexivity.
  rewrite pad_loop_fold by lia.
  rewrite !fold_left_app. unfold domain_field. rewrite fold_left_app.
  rewrite drop_0, Nat.sub_0_r. reflexivity.
Qed.

Lemma render_row_spec e i video :
  (i < 15)%nat -> length video = 4000%nat ->
  length (render_row e i video) = 4000%nat
  /\ (forall x, (x < 26)%nat ->
        render_row e i video !!! table_cell i x = u8 (row_text e !!! x))
  /\ (forall p, (forall x, (x < 26)%nat -> p <> table_cell i x) ->
        render_row e i video !!! p = video !!! p).
Proof.
  intros Hi Hlen. rewrite render_row_text.
  destruct (put_all (row_text e) video
              (((start_line + i) * 80 + start_col) * 2)%nat)
    as (_ & Hl & Hin & Hout).
  { rewrite length_row_text, Hlen. unfold start_line, start_col. lia. }
  cbv zeta in Hl, Hin, Hout. rewrite length_row_text in Hin, Hout.
  split; [congruence|]. split.
  - intros x Hx. rewrite <- Hin by exact Hx. f_equal.
    unfold table_cell, start_line, start_col. lia.
  - intros p Hp. apply Hout. intros k Hk ->. apply (Hp k Hk).
    unfold table_cell, start_line, start_col. lia.
Qed.

Lemma clear_row_spec y : forall n video,
  (n <= 80)%nat -> (y < 15)%nat -> length video = 4000%nat ->
  let video' := fold_left (clear_cell y) (seq 0 n) video in
  length video' = 4000%nat
  /\ (forall x, (x < n)%nat ->
        video' !!! table_cell y x = 32
        /\ video' !!! S (table_cell y x) = 7)
  /\ (forall p, (p < table_cell y 0 \/ table_cell y n <= p)%nat ->
        video' !!! p = video !!! p).
Proof.
  induction n as [|n IH]; intros video Hn Hy Hlen; cbv zeta.
  - cbn [seq fold_left]. split; [exact Hlen|].
    split; [intros x Hx; lia | reflexivity].
  - rewrite seq_S, fold_left_app. cbn [fold_left Nat.add].
    destruct (IH video) as (Hl & Hin & Hout); [lia | exact Hy | exact Hlen |].
    cbv zeta in Hl, Hin, Hout.
    set (v := fold_left (clear_cell y) (seq 0 n) video) in *.
    assert (Hstep : clear_cell y v n
                    = <[S (table_cell y n) := 7]> (<[table_cell y n := 32]> v)).
    { unfold clear_cell, table_cell, start_line. cbv zeta.
      rewrite Nat.add_1_r. reflexivity. }
    rewrite Hstep. clear Hstep.
    assert (Hcell : forall x, table_cell y x = (((5 + y) * 80 + x) * 2)%nat)
      by reflexivity.
    split; [rewrite !length_insert; exact Hl|]. split.
    + intros x Hx. destruct (Nat.eq_dec x n) as [->|Hne].
      * split.
        -- rewrite list_lookup_total_insert_ne by lia.
           apply list_lookup_total_insert_eq. rewrite Hl, Hcell. lia.
        -- apply list_lookup_total_insert_eq.
           rewrite length_insert, Hl, Hcell. lia.
      * rewrite !list_lookup_total_insert_ne by (rewrite !Hcell; lia).
        apply Hin. lia.
    + intros p Hp. rewrite !Hcell in Hp.
      rewrite !list_lookup_total_insert_ne by (rewrite !Hcell; lia).
      apply Hout. rewrite !Hcell. lia.
Qed.

Lemma clear_rows_spec : forall n video,
  (n <= 15)%nat -> length video = 4000%nat ->
  let video' := fold_left clear_row (seq 0 n) video in
  length video' = 4000%nat
  /\ (forall y x, (y < n)%nat -> (x < 80)%nat ->
        video' !!! table_cell y x = 32
        /\ video' !!! S (table_cell y x) = 7)
  /\ (forall p, (p < 800 \/ 800 + 160 * n <= p)%nat ->
        video' !!! p = video !!! p).
Proof.
  induction n as [|n IH]; intros video Hn Hlen; cbv zeta.
  - cbn [seq fold_left]. split; [exact Hlen|].
    split; [intros y x Hy; lia | reflexivity].
  - rewrite seq_S, fold_left_app. cbn [fold_left Nat.add].
    destruct (IH video) as (Hl & Hin & Hout); [lia | exact Hlen |].
    cbv zeta in Hl, Hin, Hout.
    set (v := fold_left clear_row (seq 0 n) video) in *.
    destruct (clear_row_spec n 80 v) as (Hl' & Hin' & Hout');
      [lia | lia | exact Hl |].
    cbv zeta in Hl', Hin', Hout'. fold (clear_row v n) in Hl', Hin', Hout'.
    assert (Hcell : forall y x, table_cell y x = (((5 + y) * 80 + x) * 2)%nat)
      by reflexivity.
    split; [exact Hl'|]. split.
    + intros y x Hy Hx. destruct (Nat.eq_dec y n) as [->|Hne].
      * apply Hin'. exact Hx.
      * rewrite !Hout' by (rewrite !Hcell; lia). apply Hin; lia.
    + intros p Hp. rewrite Hout' by (rewrite !Hcell; lia).
      apply Hout. lia.
Qed.

Lemma clear_loop_fold video :
  clear_loop max_lines 0 video = fold_left clear_row (seq 0 15) video.
Proof. reflexivity. Qed.

Lemma fold_left_cons {A B} (f : A -> B -> A) x l a :
  fold_left f (x :: l) a = fold_left f l (f a x).
Proof. reflexivity. Qed.

Lemma render_loop_fold K : forall fuel i video,
  (i + fuel = 15)%nat ->
  render_loop fuel i K video
  = fold_left (fun v i => render_row (entity_pool K !!! i) i v)
      (seq i (Nat.min (active_entity_count K) 15 - i)) video.
Proof.
  induction fuel as [|fuel IH]; intros i video Hi.
  - assert (E : (Nat.min (active_entity_count K) 15 - i)%nat = 0%nat) by lia.
    rewrite E. reflexivity.
  - rewrite (eq_refl : render_loop (S fuel) i K video =
      if ((i <? active_entity_count K) && (i <? max_lines))%nat
      then
        if (25 <=? start_line + i)%nat then video
        else render_loop fuel (S i) K (render_row (entity_pool K !!! i) i video)
      else video).
    destruct (Nat.ltb_spec i (active_entity_count K)) as [Hlt|Hge]; cbn [andb].
    + destruct (Nat.ltb_spec i max_lines) as [_|Hge]; [|unfold max_lines in Hge; lia].
      destruct (Nat.leb_spec 25 (start_line + i)) as [Hge|_];
        [unfold start_line in Hge; lia|].
      rewrite IH by lia.
      assert (E : (Nat.min (active_entity_count K) 15 - i)%nat
                  = S (Nat.min (active_entity_count K) 15 - S i)) by lia.
      rewrite E, <- cons_seq, fold_left_cons. reflexivity.
    + assert (E : (Nat.min (active_entity_count K) 15 - i)%nat = 0%nat) by lia.
      rewrite E. reflexivity.
Qed.

Lemma render_rows_spec K : forall n video,
  (n <= 15)%nat -> length video = 4000%nat ->
  let video' :=
    fold_left (fun v i => render_row (entity_pool K !!! i) i v) (seq 0 n) video in
  length video' = 4000%nat
  /\ (forall y x, (y < n)%nat -> (x < 26)%nat ->
        video' !!! table_cell y x = u8 (row_text (entity_pool K !!! y) !!! x))
  /\ (forall p, (forall y x, (y < n)%nat -> (x < 26)%nat -> p <> table_cell y x) ->
        video' !!! p = video !!! p).
Proof.
  induction n as [|n IH]; intros video Hn Hlen; cbv zeta.
  - cbn [seq fold_left]. split; [exact Hlen|].
    split; [intros y x Hy; lia | reflexivity].
  - rewrite seq_S, fold_left_app. cbn [fold_left Nat.add].
    destruct (IH video) as (Hl & Hin & Hout); [lia | exact Hlen |].
    cbv zeta in Hl, Hin, Hout.
    set (v := fold_left _ (seq 0 n) video) in *.
    destruct (render_row_spec (entity_pool K !!! n) n v) as (Hl' & Hin' & Hout');
      [lia | exact Hl |].
    assert (Hcell : forall y x, table_cell y x = (((5 + y) * 80 + x) * 2)%nat)
      by reflexivity.
    split; [exact Hl'|]. split.
    + intros y x Hy Hx. destruct (Nat.eq_dec y n) as [->|Hne].
      * apply Hin'. exact Hx.
      * rewrite Hout' by (intros x' Hx'; rewrite !Hcell; lia).
        apply Hin; [lia | exact Hx].
    + intros p Hp. rewrite Hout' by (intros x Hx; apply Hp; [lia | exact Hx]).
      apply Hout. intros y x Hy Hx. apply Hp; [lia | exact Hx].
Qed.

(** The table [render_entities_to_vga] draws.  It owns lines 5 to 19 of the
    screen and nothing else: every byte outside them is left as it was.  In
    those lines every attribute byte is 0x07; line [5 + y] shows entity [y]
    for [y] below the live count, in 26 characters (the bytes of
    [row_text]) followed by blanks, and is blank otherwise.  So at most the
    first 15 entities of the arena are shown, whatever the live count. *)
Theorem render_table (K : Kernel) (video : list Z) :
  length video = 4000%nat ->
  let video' := render_entities_to_vga K video in
  length video' = 4000%nat
  /\ (forall p, (p < 800 \/ 3200 <= p)%nat -> video' !!! p = video !!! p)
  /\ (forall y x, (y < 15)%nat -> (x < 80)%nat ->
        video' !!! S (table_cell y x) = 7
        /\ video' !!! table_cell y x
           = if ((y <? active_entity_count K) && (x <? 26))%nat
             then u8 (row_text (entity_pool K !!! y) !!! x)
             else 32).
Proof.
  intros Hlen video'. unfold video', render_entities_to_vga.
  rewrite clear_loop_fold. unfold max_lines.
  rewrite render_loop_fold by reflexivity. rewrite Nat.sub_0_r.
  destruct (clear_rows_spec 15 video) as (Hcl & Hcin & Hcout);
    [lia | exact Hlen |].
  cbv zeta in Hcl, Hcin, Hcout.
  set (blank := fold_left clear_row (seq 0 15) video) in *.
  destruct (render_rows_spec K (Nat.min (active_entity_count K) 15) blank)
    as (Hl & Hin & Hout); [lia | exact Hcl |].
  cbv zeta in Hl, Hin, Hout.
  assert (Hcell : forall y x, table_cell y x = (((5 + y) * 80 + x) * 2)%nat)
    by reflexivity.
  split; [exact Hl|]. split.
  - intros p Hp. rewrite Hout by (intros y x Hy Hx; rewrite Hcell; lia).
    apply Hcout. lia.
  - intros y x Hy Hx. destruct (Hcin y x Hy Hx) as [Hchar Hattr]. split.
    + rewrite Hout by (intros y' x' Hy' Hx'; rewrite !Hcell; lia).
      exact Hattr.
    + destruct (Nat.ltb_spec y (active_entity_count K)) as [Hlt|Hge];
        destruct (Nat.ltb_spec x 26) as [Hx26|Hx26]; cbn [andb].
      * apply Hin; [lia | exact Hx26].
      * rewrite Hout by (intros y' x' Hy' Hx'; rewrite !Hcell; lia).
        exact Hchar.
      * rewrite Hout by (intros y' x' Hy' Hx'; rewrite !Hcell; lia).
        exact Hchar.
      * rewrite Hout by (intros y' x' Hy' Hx'; rewrite !Hcell; lia).
        exact Hchar.
Qed.

Lemma render_table_witness :
  length (render_entities_to_vga
            (sample_arena [sample_entity 0 1 0 0; sample_entity 1 1 0 0])
            (replicate 4000 0)) = 4000%nat.
Proof.
  destruct (render_table
              (sample_arena [sample_entity 0 1 0 0; sample_entity 1 1 0 0])
              (replicate 4000 0)) as [H _].
  - apply length_replicate.
  - exact H.
Defined.

(** ** The idle loop of [kmain] *)

Lemma elapsed_tick K last :
  u32 (clock (tick K) - last) = u32 (u32 (clock K - last) + 1).
Proof.
  unfold tick, clock, set_holo_system. cbn [holo_system global_timestamp].
  rewrite !u32_mod.
  rewrite Zminus_mod_idemp_l, Zplus_mod_idemp_l. f_equal. lia.
Qed.

Lemma kmain_idle (n : nat) : forall K last,
  u32 (clock K - last) + Z.of_nat n <= update_interval + 1 ->
  Nat.iter n kmain_iteration {| kernel := K; last_update := last |}
  = {| kernel := Nat.iter n tick K; last_update := last |}
  /\ u32 (clock (Nat.iter n tick K) - last)
     = u32 (clock K - last) + Z.of_nat n.
Proof.
  induction n as [|n IH]; intros K last Hn.
  - cbn [Nat.iter nat_rect]. split; [reflexivity | lia].
  - destruct (IH K last) as [Hiter Hel]; [lia|].
    rewrite !Nat.iter_succ, Hiter. split.
    + unfold kmain_iteration. cbn [kernel last_update].
      rewrite Hel.
      destruct (Z.ltb_spec update_interval
                  (u32 (clock K - last) + Z.of_nat n));
        [lia | reflexivity].
    + rewrite elapsed_tick, Hel, u32_mod.
      assert (0 <= u32 (clock K - last))
        by (rewrite u32_mod; apply Z.mod_pos_bound; lia).
      rewrite Z.mod_small by (unfold update_interval in Hn; lia). lia.
Qed.

Lemma kmain_iteration_fire M :
  update_interval < elapsed M ->
  kmain_iteration M
  = {| kernel := tick (update_entities (kernel M));
       last_update := clock (update_entities (kernel M)) |}.
Proof.
  intros Hfire. unfold kmain_iteration. fold (elapsed M).
  destruct (Z.ltb_spec update_interval (elapsed M)); [reflexivity | lia].
Qed.

(** The cadence of the idle loop.  An iteration in which the unsigned
    difference between the clock and [last_update] exceeds 500000 runs
    [update_entities]; the 500000 iterations after it only advance the
    clock, whatever the update did to the clock and across its wrap-around
    at 2^32, and the iteration after those runs the next update.  So the
    arena is updated once every 500001 iterations. *)
Theorem kmain_update_period (M : Machine) :
  update_interval < elapsed M ->
  let K1 := update_entities (kernel M) in
  let M1 := kmain_iteration M in
  let idle := Z.to_nat update_interval in
  M1 = {| kernel := tick K1; last_update := clock K1 |}
  /\ (forall n, Z.of_nat n <= update_interval ->
        Nat.iter n kmain_iteration M1
        = {| kernel := Nat.iter n tick (tick K1); last_update := clock K1 |}
        /\ elapsed (Nat.iter n kmain_iteration M1) = 1 + Z.of_nat n)
  /\ kernel (kmain_iteration (Nat.iter idle kmain_iteration M1))
     = tick (update_entities (Nat.iter idle tick (tick K1))).
Proof.
  intros Hfire K1 M1 idle.
  assert (Hidle_nat : Z.of_nat idle = update_interval)
    by (apply Z2Nat.id; unfold update_interval; lia).
  clearbody idle.
  assert (HM1 : M1 = {| kernel := tick K1; last_update := clock K1 |})
    by (apply kmain_iteration_fire; exact Hfire).
  clearbody M1 K1.
  assert (Hone : u32 (clock (tick K1) - clock K1) = 1).
  { rewrite elapsed_tick, Z.sub_diag. reflexivity. }
  assert (Hidle : forall n, Z.of_nat n <= update_interval ->
            Nat.iter n kmain_iteration M1
            = {| kernel := Nat.iter n tick (tick K1); last_update := clock K1 |}
            /\ elapsed (Nat.iter n kmain_iteration M1) = 1 + Z.of_nat n).
  { intros n Hn. rewrite HM1.
    destruct (kmain_idle n (tick K1) (clock K1)) as [Hiter Hel];
      [rewrite Hone; lia|].
    split; [exact Hiter|].
    rewrite Hiter. unfold elapsed. cbn [kernel last_update].
    rewrite Hel, Hone. reflexivity. }
  split; [exact HM1|]. split; [exact Hidle|].
  destruct (Hidle idle) as [Hiter Hel]; [lia|].
  rewrite kmain_iteration_fire by (rewrite Hel; lia).
  rewrite Hiter. reflexivity.
Qed.

Lemma kmain_update_period_witness :
  kmain_iteration {| kernel := sample_arena []; last_update := 4294467295 |}
  = {| kernel := tick (update_entities (sample_arena []));
       last_update := clock (update_entities (sample_arena [])) |}.
Proof.
  destruct (kmain_update_period
              {| kernel := sample_arena []; last_update := 4294467295 |})
    as [H _].
  - vm_compute. reflexivity.
  - exact H.
Defined.

(** ** [snprintf] *)

Lemma splice_nil str p : splice str p [] = str.
Proof.
  unfold splice. cbn [length app]. rewrite Nat.add_0_r. apply take_drop.
Qed.

Lemma length_splice str p out :
  (p + length out <= length str)%nat -> length (splice str p out) = length str.
Proof.
  intros H. unfold splice.
  rewrite !length_app, length_take, length_drop. lia.
Qed.

Lemma splice_insert str p c :
  (p < length str)%nat -> <[p := c]> str = splice str p [c].
Proof.
  intros H. unfold splice. cbn [length]. rewrite Nat.add_1_r.
  apply insert_take_drop. exact H.
Qed.

Lemma splice_splice str p a b :
  (p + length a + length b <= length str)%nat ->
  splice (splice str p a) (p + length a) b = splice str p (a ++ b).
Proof.
  intros H. unfold splice.
  assert (Hp : length (take p str) = p) by (rewrite length_take; lia).
  rewrite (app_assoc (take p str) a).
  rewrite take_app_length' by (rewrite length_app; lia).
  rewrite drop_app_ge by (rewrite length_app; lia).
  rewrite length_app, Hp.
  rewrite drop_drop, length_app.
  rewrite <- !app_assoc. do 3 f_equal. f_equal. lia.
Qed.

Lemma emit_char_splice str p remaining c out :
  (p + length out < length str)%nat ->
  emit_char c (splice str p out, (p + length out)%nat, remaining)
  = (splice str p (out ++ [c]), (p + length (out ++ [c]))%nat,
     (remaining - 1)%nat).
Proof.
  intros H. unfold emit_char.
  rewrite splice_insert by (rewrite length_splice; lia).
  rewrite splice_splice by (cbn [length]; lia).
  rewrite length_app. cbn [length]. repeat f_equal. lia.
Qed.

Lemma emit_spec cs : forall str p out remaining,
  (p + length out + remaining <= length str)%nat ->
  emit cs (splice str p out, (p + length out)%nat, remaining)
  = (splice str p (out ++ take remaining cs),
     (p + length (out ++ take remaining cs))%nat,
     (remaining - length cs)%nat).
Proof.
  induction cs as [|c cs IH]; intros str p out remaining H; cbn [emit snd].
  - rewrite take_nil, app_nil_r. cbn [length]. rewrite Nat.sub_0_r. reflexivity.
  - destruct remaining as [|remaining].
    + cbn [Nat.ltb Nat.leb take]. rewrite app_nil_r. reflexivity.
    + destruct (Nat.ltb_spec 0 (S remaining)) as [_|?]; [|lia].
      rewrite emit_char_splice by lia.
      rewrite IH by (rewrite length_app; cbn [length]; lia).
      cbn [take length]. rewrite <- !app_assoc. cbn [app].
      replace (S remaining - 1)%nat with remaining by lia.
      reflexivity.
Qed.

Lemma format_loop_spec value (n : nat) : forall fmt str p out remaining,
  (length fmt <= n)%nat ->
  (p + length out + remaining <= length str)%nat ->
  format_loop fmt value (splice str p out, (p + length out)%nat, remaining)
  = (splice str p (out ++ take remaining (expand fmt value)),
     (p + length (out ++ take remaining (expand fmt value)))%nat,
     (remaining - length (expand fmt value))%nat).
Proof.
  assert (Hstop : forall str p out,
            (splice str p out, (p + length out)%nat, 0%nat)
            = (splice str p (out ++ []), (p + length (out ++ []))%nat, 0%nat))
    by (intros; rewrite app_nil_r; reflexivity).
  induction n as [|n IH]; intros fmt str p out remaining Hn Hlen.
  - destruct fmt; [|cbn [length] in Hn; lia].
    cbn [format_loop expand]. rewrite take_nil, app_nil_r.
    cbn [length]. rewrite Nat.sub_0_r. reflexivity.
  - destruct fmt as [|c rest].
    { cbn [format_loop expand]. rewrite take_nil, app_nil_r.
      cbn [length]. rewrite Nat.sub_0_r. reflexivity. }
    cbn [length] in Hn.
    cbn [format_loop expand snd].
    destruct (Z.eqb_spec c 0) as [Hc|Hc]; cbn [orb].
    { rewrite take_nil, app_nil_r. cbn [length]. rewrite Nat.sub_0_r.
      reflexivity. }
    destruct remaining as [|remaining].
    { cbn [Nat.eqb take Nat.sub]. apply Hstop. }
    cbn [Nat.eqb].
    assert (Hchar : format_loop rest value
                      (emit_char c
                         (splice str p out, (p + length out)%nat, S remaining))
                    = (splice str p
                         (out ++ take (S remaining) (c :: expand rest value)),
                       (p + length
                              (out ++ take (S remaining) (c :: expand rest value)))%nat,
                       (S remaining - length (c :: expand rest value))%nat)).
    { rewrite emit_char_splice by lia.
      rewrite IH by (rewrite ?length_app; cbn [length]; lia).
      cbn [take length Nat.sub]. rewrite <- !app_assoc. cbn [app].
      rewrite Nat.sub_0_r. reflexivity. }
    destruct rest as [|d rest']; [exact Hchar|].
    destruct ((c =? 37) && (d =? 100)); [|exact Hchar].
    cbn [length] in Hn.
    assert (Hnum : (if value =? 0
                    then emit_char 48
                           (splice str p out, (p + length out)%nat, S remaining)
                    else emit (rev (temp_digits 9 value))
                           (splice str p out, (p + length out)%nat, S remaining))
                   = emit (number_text value)
                       (splice str p out, (p + length out)%nat, S remaining)).
    { unfold number_text. destruct (value =? 0); reflexivity. }
    rewrite Hnum, emit_spec by lia.
    rewrite IH by (rewrite ?length_app, ?length_take; lia).
    rewrite <- !app_assoc, take_app.
    rewrite !length_app, !length_take.
    replace (S remaining - length (number_text value)
             - length (expand rest' value))%nat
      with (S remaining
            - (length (number_text value) + length (expand rest' value)))%nat
      by lia.
    reflexivity.
Qed.

Lemma temp_digits_value fuel : forall val,
  0 <= val ->
  Forall (fun c => 48 <= c <= 57) (temp_digits fuel val)
  /\ fold_right (fun c acc => acc * 10 + (c - 48)) 0 (temp_digits fuel val)
     = val mod 10 ^ Z.of_nat fuel.
Proof.
  induction fuel as [|fuel IH]; intros val Hval; cbn [temp_digits].
  - split; [constructor|]. cbn [fold_right]. rewrite Z.pow_0_r, Z.mod_1_r.
    reflexivity.
  - rewrite Nat2Z.inj_succ, Z.pow_succ_r by lia.
    destruct (Z.ltb_spec 0 val) as [Hpos|Hzero].
    + destruct (IH (val / 10)) as [Hd Hv]; [apply Z.div_pos; lia|].
      split.
      * constructor; [|exact Hd].
        pose proof (Z.mod_pos_bound val 10). lia.
      * cbn [fold_right]. rewrite Hv.
        rewrite (Z.mul_comm 10), Z.mul_comm.
        rewrite (Z.mul_comm (10 ^ Z.of_nat fuel) 10).
        rewrite Z.rem_mul_r by lia. lia.
    + split; [constructor|]. cbn [fold_right].
      assert (val = 0) by lia. subst val. rewrite Z.mod_0_l; [reflexivity|].
      apply Z.neq_mul_0. split; [lia|]. apply Z.pow_nonzero; lia.
Qed.

Lemma decimal_parse_rev l :
  decimal_parse (rev l) = fold_right (fun c acc => acc * 10 + (c - 48)) 0 l.
Proof.
  unfold decimal_parse. rewrite <- fold_left_rev_right, rev_involutive.
  reflexivity.
Qed.

Lemma temp_digits_digits fuel : forall val,
  Forall (fun c => 48 <= c <= 57) (temp_digits fuel val)
  /\ (length (temp_digits fuel val) <= fuel)%nat.
Proof.
  induction fuel as [|fuel IH]; intros val; cbn [temp_digits].
  - split; [constructor | reflexivity].
  - destruct (Z.ltb_spec 0 val) as [Hpos|Hneg].
    + destruct (IH (val / 10)) as [Hd Hl]. split.
      * constructor; [|exact Hd]. pose proof (Z.mod_pos_bound val 10). lia.
      * cbn [length]. lia.
    + split; [constructor | cbn [length]; lia].
Qed.

Lemma number_text_digits value :
  Forall (fun c => 48 <= c <= 57) (number_text value)
  /\ (length (number_text value) <= 9)%nat.
Proof.
  unfold number_text. destruct (value =? 0).
  - split; [repeat constructor; lia | cbn [length]; lia].
  - destruct (temp_digits_digits 9 value) as [Hd Hl]. split.
    + apply Forall_rev. exact Hd.
    + rewrite length_rev. exact Hl.
Qed.

Lemma expand_nonzero value (n : nat) : forall fmt,
  (length fmt <= n)%nat -> Forall (fun c => c <> 0) (expand fmt value).
Proof.
  induction n as [|n IH]; intros fmt Hn.
  - destruct fmt; [constructor | cbn [length] in Hn; lia].
  - destruct fmt as [|c rest]; [constructor|].
    cbn [length] in Hn. cbn [expand].
    destruct (Z.eqb_spec c 0) as [Hc|Hc]; [constructor|].
    assert (Hchar : Forall (fun c => c <> 0) (c :: expand rest value))
      by (constructor; [exact Hc | apply IH; lia]).
    destruct rest as [|d rest']; [exact Hchar|].
    destruct ((c =? 37) && (d =? 100)); [|exact Hchar].
    cbn [length] in Hn. apply Forall_app. split.
    + eapply Forall_impl; [apply number_text_digits|].
      cbv beta. intros; lia.
    + apply IH. lia.
Qed.

Lemma strlen_text text rest :
  Forall (fun c => c <> 0) text -> strlen (text ++ 0 :: rest) = length text.
Proof.
  induction 1 as [|c text Hc _ IH]; cbn [app strlen length].
  - reflexivity.
  - destruct (Z.eqb_spec c 0); [contradiction|]. f_equal. exact IH.
Qed.

Lemma snprintf_spec str size format value :
  (0 < size <= length str)%nat ->
  let text := take (size - 1) (expand format value) in
  snprintf str size format value
  = (text ++ 0 :: drop (S (length text)) str, Z.of_nat (length text)).
Proof.
  intros Hsize text. unfold snprintf.
  destruct (Nat.eqb_spec size 0) as [?|_]; [lia|].
  destruct (Nat.eqb_spec size 1) as [Hone|Hmore].
  - unfold text. rewrite Hone. cbn [Nat.sub take length app].
    rewrite splice_insert by lia. reflexivity.
  - pose proof (format_loop_spec value (length format) format str 0 []
                  (size - 1)) as Hloop.
    rewrite splice_nil in Hloop. cbn [length Nat.add app] in Hloop.
    rewrite Hloop by lia. fold text.
    assert (Hlen : (length text <= size - 1)%nat)
      by (unfold text; rewrite length_take; lia).
    rewrite splice_insert by (rewrite length_splice; cbn [Nat.add]; lia).
    change (length text) with (0 + length text)%nat at 1.
    rewrite splice_splice by (cbn [length]; lia).
    unfold splice. rewrite take_0, length_app. cbn [app length Nat.add].
    rewrite <- app_assoc, Nat.add_1_r. reflexivity.
Qed.

(** [snprintf] stays inside its buffer.  With [size = 0] it writes nothing.
    Otherwise it writes the text the format stands for, cut to [size - 1]
    characters, and a NUL after it, and leaves every later byte of the
    buffer as it was; it returns the number of characters written, which is
    below [size], and the buffer then holds exactly that text as a C
    string. *)
Theorem snprintf_bounded (str : list Z) (size : nat) (format : list Z)
    (value : Z) :
  (size <= length str)%nat ->
  let text := take (size - 1) (expand format value) in
  let r := snprintf str size format value in
  (size = 0%nat -> r = (str, 0))
  /\ ((0 < size)%nat ->
      fst r = text ++ 0 :: drop (S (length text)) str
      /\ snd r = Z.of_nat (length text)
      /\ (length text < size)%nat
      /\ length (fst r) = length str
      /\ c_string (fst r) = text).
Proof.
  intros Hsize text r. split.
  - intros ->. reflexivity.
  - intros Hpos. unfold r. rewrite snprintf_spec by lia. fold text.
    cbn [fst snd].
    assert (Hlen : (length text <= size - 1)%nat)
      by (unfold text; rewrite length_take; lia).
    assert (Hnz : Forall (fun c => c <> 0) text).
    { unfold text. apply Forall_take.
      apply (expand_nonzero value (length format)). reflexivity. }
    split; [reflexivity|]. split; [reflexivity|]. split; [lia|]. split.
    + rewrite length_app. cbn [length]. rewrite length_drop. lia.
    + unfold c_string. rewrite strlen_text by exact Hnz.
      apply take_app_length.
Qed.

Lemma snprintf_bounded_witness :
  snprintf (replicate 8 7) 4 (cstring "id=%d") 25
  = ([105; 100; 61; 0; 7; 7; 7; 7], 3).
Proof.
  destruct (snprintf_bounded (replicate 8 7) 4 (cstring "id=%d") 25)
    as [_ H].
  - cbn. lia.
  - destruct H as (Hstr & Hret & _); [lia|].
    rewrite (surjective_pairing (snprintf _ _ _ _)), Hstr, Hret.
    reflexivity.
Defined.

(** What [snprintf] prints for [%d].  With room for the digits, a value
    from 0 to 999999999 is printed in decimal and reads back as itself.  A
    negative value prints as nothing at all, and of a larger value only the
    last nine digits are printed. *)
Theorem snprintf_decimal (str : list Z) (size : nat) (value : Z) :
  (10 <= size <= length str)%nat ->
  let printed := c_string (fst (snprintf str size (cstring "%d") value)) in
  Forall (fun c => 48 <= c <= 57) printed
  /\ snd (snprintf str size (cstring "%d") value) = Z.of_nat (length printed)
  /\ (value < 0 -> printed = [])
  /\ (0 <= value -> decimal_parse printed = value mod 10 ^ 9)
  /\ (0 <= value < 10 ^ 9 -> decimal_parse printed = value).
Proof.
  intros Hsize printed.
  destruct (number_text_digits value) as [Hd Hl].
  assert (Hnz : Forall (fun c => c <> 0) (number_text value)).
  { eapply Forall_impl; [exact Hd|]. cbv beta. intros; lia. }
  assert (Hprinted : printed = number_text value
                     /\ snd (snprintf str size (cstring "%d") value)
                        = Z.of_nat (length (number_text value))).
  { unfold printed. rewrite snprintf_spec by lia.
    change (expand (cstring "%d") value) with (number_text value ++ []).
    rewrite app_nil_r, take_ge by lia. cbn [fst snd].
    split; [|reflexivity].
    unfold c_string. rewrite strlen_text by exact Hnz.
    apply take_app_length. }
  destruct Hprinted as [-> Hret].
  assert (Hparse : 0 <= value ->
                   decimal_parse (number_text value) = value mod 10 ^ 9).
  { intros Hv. unfold number_text.
    destruct (Z.eqb_spec value 0) as [->|Hne]; [reflexivity|].
    rewrite decimal_parse_rev.
    apply (temp_digits_value 9 value). exact Hv. }
  split; [exact Hd|]. split; [exact Hret|]. split; [|split].
  - intros Hneg. unfold number_text.
    destruct (Z.eqb_spec value 0); [lia|].
    cbn [temp_digits]. destruct (Z.ltb_spec 0 value); [lia | reflexivity].
  - exact Hparse.
  - intros Hv. rewrite Hparse by lia. apply Z.mod_small. lia.
Qed.

Lemma snprintf_decimal_witness :
  decimal_parse (c_string (fst (snprintf (replicate 16 7) 16 (cstring "%d") 1024)))
  = 1024.
Proof.
  destruct (snprintf_decimal (replicate 16 7) 16 1024) as (_ & _ & _ & _ & H).
  - cbn. lia.
  - apply H. lia.
Defined.

(** ** [update_entities] and the pattern store *)

Lemma find_genome_present hs :
  store_wf hs ->
  store_wf (fst (find_genome hs))
  /\ is_Some (retrieve_holographic_memory genome_hash (fst (find_genome hs))).
Proof.
  intros Hwf. unfold find_genome. fold genome_hash.
  destruct (retrieve_holographic_memory genome_hash hs) as [slot|] eqn:Hr;
    cbn [fst].
  - split; [exact Hwf|]. rewrite Hr. eauto.
  - split; [apply encode_stored_exact; exact Hwf|].
    destruct (encode_then_retrieve_slot
                (create_holographic_vector (cstring "GENOME_SIMPLE_RULE_1"))
                (create_holographic_vector (cstring "GENOME_SIMPLE_RULE_1"))
                hs Hwf) as [Hhit _].
    fold genome_hash in Hhit. rewrite Hhit. eauto.
Qed.

Lemma find_genome_hit hs :
  is_Some (retrieve_holographic_memory genome_hash hs) ->
  fst (find_genome hs) = hs.
Proof.
  intros [slot Hslot]. unfold find_genome. fold genome_hash.
  rewrite Hslot. reflexivity.
Qed.

(** The store after one iteration of the evaluation loop: as before, or
    after the genome lookup of a spawn. *)
Lemma eval_entity_store i K B :
  holo_system (fst (eval_entity i (K, B))) = holo_system K
  \/ holo_system (fst (eval_entity i (K, B))) = fst (find_genome (holo_system K)).
Proof.
  rewrite eval_entity_fst.
  change (holo_system (update_entity i gc_mark ?X)) with (holo_system X).
  set (Ka := update_entity i (fun e => set_age (u32 (age e + 1)) e) K).
  set (Ba := save_next i (entity_pool K !!! i) B).
  destruct (apply_rule i (Ka, Ba)) as [Kr Br] eqn:Hrule.
  destruct (align_task_keeps i Kr Br) as (_ & -> & _).
  unfold apply_rule in Hrule.
  destruct (select_rule Ka i); injection Hrule as <- _; try (left; reflexivity).
  destruct (Nat.lt_ge_cases (active_entity_count Ka) MAX_ENTITIES) as [Hroom|Hfull].
  - right. rewrite spawn_rule_room by exact Hroom. reflexivity.
  - left. unfold spawn_rule. rewrite spawn_entity_full by exact Hfull.
    reflexivity.
Qed.

Lemma eval_phase_store K :
  arena_wf K -> store_wf (holo_system K) ->
  holo_system (fst (eval_phase K)) = holo_system K
  \/ holo_system (fst (eval_phase K)) = fst (find_genome (holo_system K)).
Proof.
  intros Hwf Hstore. unfold eval_phase.
  set (P := fun (i : nat) (st : Kernel * NextState) =>
              trace_inv K i st
              /\ (holo_system (fst st) = holo_system K
                  \/ holo_system (fst st) = fst (find_genome (holo_system K)))).
  assert (HP : P (active_entity_count (fst (eval_loop MAX_ENTITIES 0 (K, fresh_next))))
                 (eval_loop MAX_ENTITIES 0 (K, fresh_next))).
  { apply (eval_loop_rule P).
    - intros i st [H _]. destruct (tr_wf _ _ _ H) as [_ Hcap].
      pose proof (tr_index _ _ _ H). lia.
    - intros i [Ki Bi] [Htr Hst] Hi. split; [apply trace_inv_step; assumption|].
      cbn [fst] in Hst.
      destruct (eval_entity_store i Ki Bi) as [Hs|Hs]; rewrite Hs.
      + exact Hst.
      + right. destruct Hst as [->| ->]; [reflexivity|].
        apply find_genome_hit, find_genome_present. exact Hstore.
    - split; [apply trace_inv_start; exact Hwf | left; reflexivity].
    - lia. }
  apply HP.
Qed.

(** What one call of [update_entities] can do to the pattern store: nothing,
    or the one insertion of the genome record that the first spawn makes
    when the genome is not stored yet.  With the genome stored, the store
    and the clock come back as they were; in any case the clock advances by
    at most one, and the genome is stored after a call that changed the
    store. *)
Theorem update_store (K : Kernel) :
  arena_wf K -> store_wf (holo_system K) ->
  let hs := holo_system K in
  let hs' := holo_system (update_entities K) in
  (hs' = hs \/ hs' = fst (find_genome hs))
  /\ (is_Some (retrieve_holographic_memory genome_hash hs) -> hs' = hs)
  /\ (hs' <> hs -> is_Some (retrieve_holographic_memory genome_hash hs'))
  /\ (global_timestamp hs' = global_timestamp hs
      \/ global_timestamp hs' = u32 (global_timestamp hs + 1))
  /\ store_wf hs'.
Proof.
  intros Hwf Hstore hs hs'.
  assert (Hhs' : hs' = holo_system (fst (eval_phase K))).
  { unfold hs'. apply (update_entities_spec K Hwf). }
  assert (Hcases : hs' = hs \/ hs' = fst (find_genome hs))
    by (rewrite Hhs'; apply eval_phase_store; assumption).
  clearbody hs'. fold hs in Hstore.
  destruct (find_genome_present hs Hstore) as [Hwf1 Hhit1].
  split; [exact Hcases|]. split; [|split; [|split]].
  - intros Hhit. destruct Hcases as [->| ->]; [reflexivity|].
    apply find_genome_hit. exact Hhit.
  - intros Hne. destruct Hcases as [->| ->]; [contradiction | exact Hhit1].
  - destruct Hcases as [->| ->]; [left; reflexivity|].
    unfold find_genome. fold genome_hash.
    destruct (retrieve_holographic_memory genome_hash hs); cbn [fst];
      [left; reflexivity | right].
    destruct (encode_stored_exact
                (create_holographic_vector (cstring "GENOME_SIMPLE_RULE_1"))
                (create_holographic_vector (cstring "GENOME_SIMPLE_RULE_1"))
                hs Hstore) as (_ & _ & Ht & _).
    exact Ht.
  - destruct Hcases as [->| ->]; assumption.
Qed.

Lemma update_store_witness :
  global_timestamp
    (holo_system (update_entities (sample_arena [sample_entity 0 1 0 0]))) = 1
  /\ holo_system (update_entities one_entity) = holo_system one_entity.
Proof.
  split.
  - destruct (update_store (sample_arena [sample_entity 0 1 0 0]))
      as (_ & _ & _ & Hclock & _).
    + split; [reflexivity | cbn; unfold MAX_ENTITIES; lia].
    + split; [reflexivity | cbn; unfold MAX_MEMORY_ENTRIES; lia].
    + assert (Hne : global_timestamp
                      (holo_system
                         (update_entities (sample_arena [sample_entity 0 1 0 0])))
                    <> global_timestamp
                         (holo_system (sample_arena [sample_entity 0 1 0 0])))
        by (vm_compute; intros H; discriminate H).
      destruct Hclock as [Hc|Hc]; [contradiction | rewrite Hc; reflexivity].
  - destruct (update_store one_entity) as (_ & Hkeep & _).
    + split; [reflexivity | cbn; unfold MAX_ENTITIES; lia].
    + split; [reflexivity | cbn; unfold MAX_MEMORY_ENTRIES; lia].
    + apply Hkeep. vm_compute. eauto.
Defined.

(** ** Loading the vocabulary *)

Lemma encode_all_snoc records p hs :
  encode_all (records ++ [p]) hs
  = encode_holographic_memory (fst p) (snd p) (encode_all records hs).
Proof. unfold encode_all. rewrite fold_left_app. reflexivity. Qed.

Lemma clock_steps n t :
  (0 < n)%nat ->
  Nat.iter n (fun t => u32 (t + 1)) t = u32 (t + Z.of_nat n).
Proof.
  induction n as [|n IH]; intros Hn; [lia|].
  rewrite Nat.iter_succ. destruct n as [|n].
  - reflexivity.
  - rewrite IH by lia. rewrite !u32_mod, Zplus_mod_idemp_l. f_equal. lia.
Qed.

(** A batch that fits the store is all there after its insertion, as the
    newest records and in insertion order. *)
Lemma encode_all_suffix records : forall hs,
  store_wf hs ->
  (length records <= MAX_MEMORY_ENTRIES)%nat ->
  let hs' := encode_all records hs in
  store_wf hs'
  /\ memory_count hs'
     = Nat.min (memory_count hs + length records) MAX_MEMORY_ENTRIES
  /\ global_timestamp hs'
     = Nat.iter (length records) (fun t => u32 (t + 1)) (global_timestamp hs)
  /\ exists prefix entries,
       stored hs' = prefix ++ entries /\ Forall2 holds entries records.
Proof.
  induction records as [|p records IH] using rev_ind; intros hs Hwf Hlen; cbv zeta.
  - cbn [encode_all fold_left length]. split; [exact Hwf|].
    destruct Hwf as [Hl Hc]. split; [rewrite Nat.add_0_r; lia|].
    split; [reflexivity|].
    exists (stored hs), []. rewrite app_nil_r. split; [reflexivity | constructor].
  - rewrite length_app in Hlen. cbn [length] in Hlen.
    destruct (IH hs Hwf) as (Hwf1 & Hc1 & Ht1 & prefix & entries & Hst1 & Hrel);
      [lia|].
    cbv zeta in Hwf1, Hc1, Ht1, Hst1.
    rewrite encode_all_snoc.
    set (hs1 := encode_all records hs) in *.
    destruct (encode_stored_exact (fst p) (snd p) hs1 Hwf1)
      as (Hst & Hc & Ht & Hwf2).
    cbv zeta in Hst, Hc, Ht, Hwf2.
    set (hs2 := encode_holographic_memory (fst p) (snd p) hs1) in *.
    assert (Hlen1 : length (stored hs1) = memory_count hs1)
      by (apply stored_length; exact Hwf1).
    assert (Hlene : length entries = length records)
      by (eapply Forall2_length; exact Hrel).
    rewrite Hst1, length_app in Hlen1.
    split; [exact Hwf2|]. split; [|split].
    + rewrite Hc, Hc1, length_app. cbn [length]. lia.
    + rewrite Ht, Ht1, length_app, Nat.add_1_r, Nat.iter_succ. reflexivity.
    + exists (if (MAX_MEMORY_ENTRIES <=? memory_count hs1)%nat
              then drop 1 prefix else prefix),
             (entries ++ [{| input_pattern := fst p; output_pattern := snd p;
                             timestamp := global_timestamp hs1;
                             entry_valid := 1 |}]).
      split.
      * rewrite Hst, Hst1.
        destruct (Nat.leb_spec MAX_MEMORY_ENTRIES (memory_count hs1)) as [Hfull|_].
        -- destruct prefix as [|e0 prefix]; [cbn [length] in Hlen1; lia|].
           cbn [drop app]. rewrite !drop_0, <- app_assoc. reflexivity.
        -- rewrite <- app_assoc. reflexivity.
      * apply Forall2_app; [exact Hrel|].
        constructor; [|constructor]. repeat split.
Qed.

(** In a store that ends with a batch of records with pairwise different
    signatures, each signature of the batch finds its own output. *)
Lemma retrieve_in_batch hs prefix entries records k input output :
  store_wf hs ->
  stored hs = prefix ++ entries ->
  Forall2 holds entries records ->
  NoDup ((fun p => hash_signature (fst p)) <$> records) ->
  records !! k = Some (input, output) ->
  retrieved_vector (hash_signature input) hs = Some output.
Proof.
  intros Hwf Hst Hrel Hnodup Hk.
  set (p := (input, output)) in Hk.
  change input with (fst p). change output with (snd p). clearbody p.
  clear input output.
  set (hash := hash_signature (fst p)).
  assert (Hslot : forall k' p', records !! k' = Some p' ->
            (length prefix + k' < memory_count hs)%nat
            /\ output_pattern (memory_pool hs !!! (length prefix + k')%nat) = snd p'
            /\ matches hash (memory_pool hs !!! (length prefix + k')%nat)
               = (hash_signature (fst p') =? hash)).
  { intros k' p' Hk'.
    destruct (Forall2_lookup_r _ _ _ _ _ Hrel Hk') as (e & He & Hin & Hout & Hv).
    destruct (stored_slot hs (length prefix + k') e) as [Hpool Hlt].
    { rewrite Hst, lookup_app_r by lia.
      replace (length prefix + k' - length prefix)%nat with k' by lia. exact He. }
    rewrite Hpool. split; [exact Hlt|]. split; [exact Hout|].
    unfold matches. rewrite Hv, Hin. reflexivity. }
  destruct (Hslot k p Hk) as (Hlt & Hout & Hmatch).
  unfold hash in Hmatch at 2. rewrite Z.eqb_refl in Hmatch.
  pose proof (retrieve_loop_spec (memory_pool hs) hash (memory_count hs)) as Hspec.
  unfold retrieved_vector, retrieve_holographic_memory. fold hash.
  destruct (retrieve_loop (memory_pool hs) hash (memory_count hs)) as [i|].
  - destruct Hspec as (Hi & Hmi & Hnewer). cbn [fmap option_fmap option_map].
    assert (i = (length prefix + k)%nat) as ->; [|rewrite Hout; reflexivity].
    destruct (Nat.lt_trichotomy i (length prefix + k)) as [Hlo|[Heq|Hhi]];
      [|exact Heq|].
    + rewrite Hnewer in Hmatch by lia. discriminate.
    + exfalso.
      assert (Hcount : memory_count hs = (length prefix + length records)%nat).
      { rewrite <- (stored_length hs Hwf), Hst, length_app.
        f_equal. eapply Forall2_length. exact Hrel. }
      destruct (lookup_lt_is_Some_2 records (i - length prefix)) as [p' Hk'];
        [lia|].
      destruct (Hslot _ _ Hk') as (_ & _ & Hm').
      replace (length prefix + (i - length prefix))%nat with i in Hm' by lia.
      rewrite Hmi in Hm'. symmetry in Hm'. apply Z.eqb_eq in Hm'.
      assert (Hsame : (i - length prefix)%nat = k); [|lia].
      assert (Hi' : ((fun p => hash_signature (fst p)) <$> records)
                    !! (i - length prefix)%nat = Some hash)
        by (rewrite list_lookup_fmap, Hk'; cbn [fmap option_fmap option_map];
            f_equal; exact Hm').
      assert (Hk2 : ((fun p => hash_signature (fst p)) <$> records) !! k
                    = Some hash)
        by (rewrite list_lookup_fmap, Hk; cbn [fmap option_fmap option_map];
            exact eq_refl).
      clearbody hash.
      exact (NoDup_lookup _ _ _ _ Hnodup Hi' Hk2).
  - rewrite Hspec in Hmatch by exact Hlt. discriminate.
Qed.

Lemma load_vocabulary_records hs :
  load_initial_genome_vocabulary hs = encode_all vocabulary_records hs.
Proof.
  unfold load_initial_genome_vocabulary, vocabulary_records, encode_all.
  generalize vocab. intros l. revert hs.
  induction l as [|w l IH]; intros hs; [reflexivity|].
  cbn [map fold_left fst snd]. apply IH.
Qed.

Lemma vocabulary_signatures_differ :
  NoDup ((fun p => hash_signature (fst p)) <$> vocabulary_records).
Proof. apply (bool_decide_unpack _). vm_compute. reflexivity. Qed.

(** After [load_initial_genome_vocabulary], whatever the store held before:
    the store is within its bounds, eleven records were added (the count
    stopping at 128) and the clock advanced by eleven; every word of the
    vocabulary is found by its signature and gives its own vector, the
    eleven signatures being pairwise different; and the genome lookup of
    the initialiser and of [spawn_entity] hits, so that it inserts
    nothing. *)
Theorem vocabulary_loaded (hs : HolographicSystem) (w : string) :
  store_wf hs ->
  In w vocab ->
  let hs' := load_initial_genome_vocabulary hs in
  store_wf hs'
  /\ memory_count hs' = Nat.min (memory_count hs + 11) MAX_MEMORY_ENTRIES
  /\ global_timestamp hs' = u32 (global_timestamp hs + 11)
  /\ retrieved_vector
       (hash_signature (create_holographic_vector (cstring w))) hs'
     = Some (create_holographic_vector (cstring w))
  /\ fst (find_genome hs') = hs'.
Proof.
  intros Hwf Hw hs'. unfold hs'. rewrite load_vocabulary_records.
  destruct (encode_all_suffix vocabulary_records hs Hwf)
    as (Hwf' & Hc & Ht & prefix & entries & Hst & Hrel).
  { unfold MAX_MEMORY_ENTRIES. cbn. lia. }
  cbv zeta in Hwf', Hc, Ht, Hst.
  assert (Hlen : length vocabulary_records = 11%nat) by reflexivity.
  generalize dependent (encode_all vocabulary_records hs). intros hs1.
  intros Hwf' Hc Ht Hst.
  assert (Hfind : forall k w',
            vocab !! k = Some w' ->
            retrieved_vector
              (hash_signature (create_holographic_vector (cstring w'))) hs1
            = Some (create_holographic_vector (cstring w'))).
  { intros k w' Hk.
    assert (Hrec : vocabulary_records !! k
                   = Some (create_holographic_vector (cstring w'),
                           create_holographic_vector (cstring w'))).
    { unfold vocabulary_records.
      change (map ?f vocab) with (f <$> vocab).
      rewrite list_lookup_fmap, Hk. exact eq_refl. }
    exact (retrieve_in_batch hs1 prefix entries vocabulary_records k _ _
             Hwf' Hst Hrel vocabulary_signatures_differ Hrec). }
  split; [exact Hwf'|]. split; [rewrite Hc, Hlen; reflexivity|].
  split; [|split].
  - rewrite Ht, Hlen. apply (clock_steps 11). lia.
  - apply list_elem_of_In, list_elem_of_lookup_1 in Hw as [k Hk].
    apply (Hfind k w Hk).
  - apply find_genome_hit. unfold genome_hash.
    pose proof (Hfind 10%nat "GENOME_SIMPLE_RULE_1"%string eq_refl) as Hg.
    unfold retrieved_vector in Hg.
    destruct (retrieve_holographic_memory _ hs1); [eauto | discriminate].
Qed.

Lemma vocabulary_loaded_witness :
  retrieved_vector
    (hash_signature (create_holographic_vector (cstring "TRAIT_ACTIVE")))
    (load_initial_genome_vocabulary (holo_system boot))
  = Some (create_holographic_vector (cstring "TRAIT_ACTIVE")).
Proof.
  destruct (vocabulary_loaded (holo_system boot) "TRAIT_ACTIVE")
    as (_ & _ & _ & H & _).
  - split; [reflexivity | cbn; unfold MAX_MEMORY_ENTRIES; lia].
  - cbn. tauto.
  - exact H.
Defined.

(** The store as [kmain] sets it up. *)
Lemma boot_store hs :
  length (memory_pool hs) = MAX_MEMORY_ENTRIES ->
  let hs1 := load_initial_genome_vocabulary (initialize_holographic_memory hs) in
  store_wf hs1
  /\ memory_count hs1 = 11%nat
  /\ global_timestamp hs1 = 11
  /\ retrieve_holographic_memory genome_hash hs1 = Some 10%nat.
Proof.
  intros Hlen hs1.
  set (hs0 := initialize_holographic_memory hs) in *.
  assert (Hwf0 : store_wf hs0).
  { split; [|cbn [hs0 initialize_holographic_memory memory_count]; lia].
    unfold hs0, initialize_holographic_memory. cbn [memory_pool].
    rewrite length_map. exact Hlen. }
  assert (Hc0 : memory_count hs0 = 0%nat) by reflexivity.
  assert (Ht0 : global_timestamp hs0 = 0) by reflexivity.
  assert (Hsplit : vocabulary_records
                   = take 10 vocabulary_records
                     ++ [(create_holographic_vector (cstring "GENOME_SIMPLE_RULE_1"),
                          create_holographic_vector (cstring "GENOME_SIMPLE_RULE_1"))])
    by reflexivity.
  assert (Hlen10 : length (take 10 vocabulary_records) = 10%nat) by reflexivity.
  assert (Hhs1 : hs1
                 = encode_holographic_memory
                     (create_holographic_vector (cstring "GENOME_SIMPLE_RULE_1"))
                     (create_holographic_vector (cstring "GENOME_SIMPLE_RULE_1"))
                     (encode_all (take 10 vocabulary_records) hs0)).
  { unfold hs1. rewrite load_vocabulary_records. rewrite Hsplit at 1.
    apply encode_all_snoc. }
  destruct (encode_all_suffix (take 10 vocabulary_records) hs0 Hwf0)
    as (Hwf' & Hc & Ht & _).
  { rewrite Hlen10. unfold MAX_MEMORY_ENTRIES. lia. }
  cbv zeta in Hwf', Hc, Ht. rewrite Hlen10, Hc0 in Hc. rewrite Hlen10, Ht0 in Ht.
  clearbody hs0.
  generalize dependent (encode_all (take 10 vocabulary_records) hs0).
  intros hsA Hhs1 Hwf' Hc Ht.
  destruct (encode_stored_exact
              (create_holographic_vector (cstring "GENOME_SIMPLE_RULE_1"))
              (create_holographic_vector (cstring "GENOME_SIMPLE_RULE_1"))
              hsA Hwf') as (_ & Hc1 & Ht1 & Hwf1).
  destruct (encode_then_retrieve_slot
              (create_holographic_vector (cstring "GENOME_SIMPLE_RULE_1"))
              (create_holographic_vector (cstring "GENOME_SIMPLE_RULE_1"))
              hsA Hwf') as [Hget _].
  cbv zeta in Hc1, Ht1, Hget, Hwf1. rewrite <- Hhs1 in Hc1, Ht1, Hget, Hwf1.
  clearbody hs1.
  assert (Hc11 : memory_count hs1 = 11%nat)
    by (rewrite Hc1, Hc; unfold MAX_MEMORY_ENTRIES; reflexivity).
  split; [exact Hwf1|]. split; [exact Hc11|]. split.
  - rewrite Ht1, Ht. reflexivity.
  - unfold genome_hash. rewrite Hget, Hc11. reflexivity.
Qed.

(** [initialize_holographic_memory] empties the store whatever it held:
    the count and the clock are zero, every slot is invalid and no
    signature is found.  The vocabulary loaded into it occupies slots 0 to
    10, the clock stands at 11 and the genome rule is found in slot 10. *)
Theorem memory_reset (hs : HolographicSystem) (hash : Z) :
  length (memory_pool hs) = MAX_MEMORY_ENTRIES ->
  let hs0 := initialize_holographic_memory hs in
  let hs1 := load_initial_genome_vocabulary hs0 in
  store_wf hs0
  /\ memory_count hs0 = 0%nat
  /\ global_timestamp hs0 = 0
  /\ (forall i, (i < MAX_MEMORY_ENTRIES)%nat ->
                entry_valid (memory_pool hs0 !!! i) = 0)
  /\ retrieve_holographic_memory hash hs0 = None
  /\ memory_count hs1 = 11%nat
  /\ global_timestamp hs1 = 11
  /\ retrieve_holographic_memory genome_hash hs1 = Some 10%nat.
Proof.
  intros Hlen hs0 hs1.
  destruct (boot_store hs Hlen) as (_ & Hc & Ht & Hg).
  split.
  { split; [|cbn [hs0 initialize_holographic_memory memory_count]; lia].
    unfold hs0, initialize_holographic_memory. cbn [memory_pool].
    rewrite length_map. exact Hlen. }
  split; [reflexivity|]. split; [reflexivity|]. split.
  { intros i Hi. unfold hs0, initialize_holographic_memory. cbn [memory_pool].
    change (map ?f ?l) with (f <$> l).
    destruct (lookup_lt_is_Some_2 (memory_pool hs) i) as [e He];
      [rewrite Hlen; exact Hi|].
    erewrite list_lookup_total_correct;
      [|rewrite list_lookup_fmap, He; reflexivity].
    reflexivity. }
  split; [reflexivity|].
  split; [exact Hc|]. split; [exact Ht | exact Hg].
Qed.

Lemma memory_reset_witness :
  retrieve_holographic_memory genome_hash
    (load_initial_genome_vocabulary
       (initialize_holographic_memory (holo_system boot)))
  = Some 10%nat.
Proof.
  destruct (memory_reset (holo_system boot) 0) as (_ & _ & _ & _ & _ & _ & _ & H).
  - reflexivity.
  - exact H.
Defined.

(** ** Start-up *)

Lemma assign_task_spec pv K i :
  (i < length (entity_pool K))%nat ->
  let K' := assign_task pv K i in
  active_entity_count K' = active_entity_count K
  /\ holo_system K' = holo_system K
  /\ length (entity_pool K') = length (entity_pool K)
  /\ (forall j, j <> i -> entity_pool K' !!! j = entity_pool K !!! j)
  /\ ((i < active_entity_count K)%nat ->
      entity_pool K' !!! i
      = set_path_id 0xA1 (set_task_vector pv (entity_pool K !!! i))).
Proof.
  intros Hi K'. unfold K', assign_task.
  destruct (Nat.ltb_spec i (active_entity_count K)) as [Hlt|Hge].
  - split; [reflexivity|]. split; [reflexivity|].
    split; [apply length_update_entity|]. split.
    + intros j Hj. apply pool_update_entity_ne. auto.
    + intros _. apply pool_update_entity_eq. exact Hi.
  - repeat split; try reflexivity. intros; lia.
Qed.

(** The globals as [kmain] leaves them before its loop, from any state of
    the arena: the store holds the eleven vocabulary records and the clock
    stands at 11; three entities (or as many as fit) were appended to the
    live ones, each with its slot index as id and a genome pointer to slot
    10 of the store; the live entities in slots 0 and 1 carry the path
    0xA1 with the vector of "network_io_path" as task, and every other
    slot has the task and path it had. *)
Theorem kmain_boot (K : Kernel) (i : nat) :
  arena_wf K ->
  length (memory_pool (holo_system K)) = MAX_MEMORY_ENTRIES ->
  let K' := kmain_init K in
  let e := entity_pool K' !!! i in
  active_entity_count K'
  = Nat.min (active_entity_count K + INITIAL_ENTITIES) MAX_ENTITIES
  /\ memory_count (holo_system K') = 11%nat
  /\ global_timestamp (holo_system K') = 11
  /\ retrieve_holographic_memory genome_hash (holo_system K') = Some 10%nat
  /\ ((i < 2)%nat -> (i < active_entity_count K')%nat ->
      path_id e = 0xA1
      /\ task_vector e = create_holographic_vector (cstring "network_io_path"))
  /\ ((2 <= i)%nat ->
      path_id e = path_id (entity_pool K !!! i)
      /\ task_vector e = task_vector (entity_pool K !!! i))
  /\ ((active_entity_count K <= i < active_entity_count K')%nat ->
      genome e = GenomeSlot 10 /\ id e = Z.of_nat i /\ is_active e = 1
      /\ age e = 0 /\ fitness_score e = 0 /\ domain_name e = "generic"%string)
  /\ ((i < active_entity_count K)%nat -> (2 <= i)%nat ->
      e = entity_pool K !!! i).
Proof.
  intros Hwf Hstore K' e.
  destruct (boot_store (holo_system K) Hstore) as (Hwf1 & Hc1 & Ht1 & Hg1).
  cbv zeta in Hwf1, Hc1, Ht1, Hg1.
  set (hs1 := load_initial_genome_vocabulary
                (initialize_holographic_memory (holo_system K))) in *.
  set (pv := create_holographic_vector (cstring "network_io_path")).
  set (trait := create_holographic_vector (cstring "TRAIT_DORMANT")).
  set (K3 := init_loop INITIAL_ENTITIES trait (GenomeSlot 10)
               (set_holo_system hs1 K)).
  assert (HK' : K' = assign_task pv (assign_task pv K3 0) 1).
  { unfold K', kmain_init. cbv zeta. cbn [set_holo_system holo_system].
    fold hs1. unfold initialize_emergent_entities, find_genome.
    fold genome_hash.
    change (holo_system (set_holo_system hs1 ?X)) with hs1.
    rewrite Hg1. reflexivity. }
  clearbody hs1 pv trait.
  destruct (init_loop_spec INITIAL_ENTITIES trait (GenomeSlot 10)
              (set_holo_system hs1 K) Hwf) as (Hc3 & Hh3 & Hl3 & Hp3).
  cbv zeta in Hc3, Hh3, Hl3, Hp3. fold K3 in Hc3, Hh3, Hl3, Hp3.
  change (active_entity_count (set_holo_system hs1 K))
    with (active_entity_count K) in Hc3, Hp3.
  change (entity_pool (set_holo_system hs1 K)) with (entity_pool K) in Hp3.
  change (holo_system (set_holo_system hs1 K)) with hs1 in Hh3.
  clearbody K3.
  destruct (assign_task_spec pv K3 0) as (Hc4 & Hh4 & Hl4 & Ho4 & Hs4);
    [rewrite Hl3; unfold MAX_ENTITIES; lia|].
  cbv zeta in Hc4, Hh4, Hl4, Ho4, Hs4.
  set (K4 := assign_task pv K3 0) in *. clearbody K4.
  destruct (assign_task_spec pv K4 1) as (Hc5 & Hh5 & Hl5 & Ho5 & Hs5);
    [rewrite Hl4, Hl3; unfold MAX_ENTITIES; lia|].
  cbv zeta in Hc5, Hh5, Hl5, Ho5, Hs5. rewrite <- HK' in Hc5, Hh5, Hl5, Ho5, Hs5.
  clearbody K'.
  assert (Hcount : active_entity_count K' = active_entity_count K3) by congruence.
  assert (Hkeep : forall j,
            path_id (entity_pool K3 !!! j) = path_id (entity_pool K !!! j)
            /\ task_vector (entity_pool K3 !!! j)
               = task_vector (entity_pool K !!! j)).
  { intros j. rewrite Hp3. destruct (_ && _); split; reflexivity. }
  split; [rewrite Hcount; exact Hc3|].
  split; [rewrite Hh5, Hh4, Hh3; exact Hc1|].
  split; [rewrite Hh5, Hh4, Hh3; exact Ht1|].
  split; [rewrite Hh5, Hh4, Hh3; exact Hg1|].
  split; [|split; [|split]].
  - intros Hi2 Hi. unfold e. rewrite Hcount in Hi.
    destruct i as [|[|i]]; [| |lia].
    + rewrite Ho5 by lia. rewrite Hs4 by exact Hi. split; reflexivity.
    + rewrite Hs5 by (rewrite Hc4; exact Hi). split; reflexivity.
  - intros Hi2. unfold e. rewrite Ho5, Ho4 by lia. apply Hkeep.
  - intros Hi. unfold e. rewrite Hcount in Hi.
    assert (Hnew : entity_pool K3 !!! i
                   = init_slot i trait (GenomeSlot 10) (entity_pool K !!! i)).
    { rewrite Hp3.
      destruct (Nat.leb_spec (active_entity_count K) i); [|lia].
      destruct (Nat.ltb_spec i (active_entity_count K3)); [reflexivity | lia]. }
    destruct i as [|[|i]].
    + rewrite Ho5 by lia. rewrite Hs4, Hnew by lia. repeat split.
    + rewrite Hs5 by (rewrite Hc4; lia). rewrite Ho4, Hnew by lia. repeat split.
    + rewrite Ho5, Ho4, Hnew by lia. repeat split.
  - intros Hi Hi2. unfold e. rewrite Ho5, Ho4 by lia. rewrite Hp3.
    destruct (Nat.leb_spec (active_entity_count K) i); [lia | reflexivity].
Qed.

Lemma kmain_boot_witness :
  genome (entity_pool (kmain_init boot) !!! 2%nat) = GenomeSlot 10
  /\ path_id (entity_pool (kmain_init boot) !!! 1%nat) = 0xA1
  /\ path_id (entity_pool (kmain_init boot) !!! 2%nat) = 0.
Proof.
  assert (Hwf : arena_wf boot) by (split; [reflexivity | cbn; unfold MAX_ENTITIES; lia]).
  assert (Hst : length (memory_pool (holo_system boot)) = MAX_MEMORY_ENTRIES)
    by reflexivity.
  split; [|split].
  - destruct (kmain_boot boot 2 Hwf Hst) as (Hc & _ & _ & _ & _ & _ & Hnew & _).
    apply Hnew. rewrite Hc. cbn. unfold MAX_ENTITIES. lia.
  - destruct (kmain_boot boot 1 Hwf Hst) as (Hc & _ & _ & _ & Htask & _).
    apply Htask; [lia|]. rewrite Hc. cbn. unfold MAX_ENTITIES. lia.
  - destruct (kmain_boot boot 2 Hwf Hst) as (_ & _ & _ & _ & _ & Hrest & _).
    destruct Hrest as [Hp _]; [lia|]. rewrite Hp. reflexivity.
Defined.
